(** * Entity resolution core of the university ranking merger

    A shallow embedding of the name normalisation, the bracket-aware
    matcher, the exact-key table merge and the final deduplication pass of
    [src/processors/merge_rankings.py], and of the fuzzy name unifier of
    [src/scripts/merge_uni.py]; with them the loading filters of the
    merger, the URL lookup and the chunking of the QS scrapers
    ([src/processors/qs_scraper.py], [src/processors/qs_coordinate_scraper.py])
    and the page parser of [src/processors/usnews_lac_processor.py].

    Conventions of the embedding
    - A Python [str] is a [string]; its characters are the code points
      0..255 (ASCII and the Latin-1 block).  Case mapping and the
      whitespace class are those of Python 3 on that range.
    - A pandas cell or an untyped Python argument is a [value].
    - A Python [set] of strings is a [gset string], a [dict] a [gmap].
    - A function that can raise returns a [result].
    - Printing, the merge log and the reading and writing of files are left
      out: they do not bear on the tables that the functions return. The
      one log line that can raise, the join of the names of a merged group,
      is kept as the test it amounts to.
    - A library function whose result the code only passes on
      ([fuzz.ratio], the NFKD transliteration, the builtin [int] on a
      string) is a variable of the section that uses it. *)

From Stdlib Require Import ZArith NArith QArith Ascii String List Lia Bool.
From stdpp Require Import base option list gmap strings pretty fin_maps sorting.

Local Open Scope string_scope.
Local Open Scope list_scope.

(** ** Characters *)

Definition chars := list ascii.

Definition code (c : ascii) : N := N_of_ascii c.

(** [str.isspace] on one character, also the class [\s] of [re] on [str]
    patterns: TAB..CR, FS..US, space, NEL and NBSP. *)
Definition isspace (c : ascii) : bool :=
  let n := code c in
  ((9 <=? n) && (n <=? 13) || (28 <=? n) && (n <=? 32)
   || (n =? 133) || (n =? 160))%N.

(** One character of [str.lower]: A..Z and the Latin-1 capitals (all of
    U+00C0..U+00DE but the multiplication sign) move up by 32. *)
Definition lower_char (c : ascii) : ascii :=
  let n := code c in
  if ((65 <=? n) && (n <=? 90)
      || (192 <=? n) && (n <=? 222) && negb (n =? 215))%N
  then ascii_of_N (n + 32) else c.

Definition is_newline (c : ascii) : bool := (code c =? 10)%N.
Definition is_comma (c : ascii) : bool := (code c =? 44)%N.

Definition SP : ascii := " "%char.

(** ** Python string primitives, on character lists *)

Module Py.

Fixpoint drop_while (p : ascii -> bool) (l : chars) : chars :=
  match l with
  | [] => []
  | c :: r => if p c then drop_while p r else l
  end.

(** [s.lstrip()] *)
Definition lstrip (l : chars) : chars := drop_while isspace l.

(** [s.rstrip()]: a whitespace character goes when nothing but whitespace
    follows it. *)
Fixpoint rstrip (l : chars) : chars :=
  match l with
  | [] => []
  | c :: r =>
      match rstrip r with
      | [] => if isspace c then [] else [c]
      | r' => c :: r'
      end
  end.

(** [s.strip()] *)
Definition strip (l : chars) : chars := rstrip (lstrip l).

(** [s.lower()] *)
Definition lower (l : chars) : chars := map lower_char l.

(** [s.replace(",", " ")] *)
Definition replace_comma (l : chars) : chars :=
  map (fun c => if is_comma c then SP else c) l.

(** [re.sub(r"\s+", " ", s)]: every maximal run of whitespace becomes one
    space; [in_run] tells that the previous character was whitespace. *)
Fixpoint sub_ws (in_run : bool) (l : chars) : chars :=
  match l with
  | [] => []
  | c :: r =>
      if isspace c then (if in_run then sub_ws true r else SP :: sub_ws true r)
      else c :: sub_ws false r
  end.

Definition collapse_ws (l : chars) : chars := sub_ws false l.

(** [s.startswith(p)] *)
Fixpoint startswith (l p : chars) : bool :=
  match p, l with
  | [], _ => true
  | _ :: _, [] => false
  | a :: p', b :: l' => if Ascii.eqb a b then startswith l' p' else false
  end.

(** [s.split()]: the maximal runs of non-whitespace characters. *)
Fixpoint split_go (cur : chars) (l : chars) : list chars :=
  match l with
  | [] => match cur with [] => [] | _ => [rev cur] end
  | c :: r =>
      if isspace c
      then match cur with [] => split_go [] r | _ => rev cur :: split_go [] r end
      else split_go (c :: cur) r
  end.

Definition split (l : chars) : list chars := split_go [] l.

End Py.

Definition to_chars (s : string) : chars := list_ascii_of_string s.
Definition of_chars (l : chars) : string := string_of_list_ascii l.

Definition py_strip (s : string) : string := of_chars (Py.strip (to_chars s)).
Definition py_lower (s : string) : string := of_chars (Py.lower (to_chars s)).
Definition py_startswith (s p : string) : bool :=
  Py.startswith (to_chars s) (to_chars p).
Definition py_split (s : string) : list string := map of_chars (Py.split (to_chars s)).
Definition py_len (s : string) : nat := String.length s.

(** ** Cell values *)

(** What a cell of a table, or an argument of a normaliser, can hold:
    [None], the float NaN, a string, or a number.  The code looks at a number
    only through [pd.isna], truthiness, [== ""] and [str]; numbers are
    integers here. *)
Inductive value : Type :=
| VNone
| VNaN
| VStr (s : string)
| VInt (z : Z).

Global Instance value_eq_dec : EqDecision value.
Proof. solve_decision. Defined.

(** [pd.isna(v)] and [pd.notna(v)] on a scalar *)
Definition isna (v : value) : bool :=
  match v with VNone | VNaN => true | _ => false end.
Definition notna (v : value) : bool := negb (isna v).

(** Truthiness: [None], [""] and [0] are false; NaN is a non-zero float. *)
Definition truthy (v : value) : bool :=
  match v with
  | VNone => false
  | VNaN => true
  | VStr s => negb (String.eqb s "")
  | VInt z => negb (z =? 0)%Z
  end.

(** [str(v)] *)
Definition py_str (v : value) : string :=
  match v with
  | VNone => "None"
  | VNaN => "nan"
  | VStr s => s
  | VInt z => pretty z
  end.

(** Raised exceptions *)
Inductive exn : Type := AttributeError | KeyError | TypeError | IndexError.
Inductive result (A : Type) : Type :=
| Ok (a : A)
| Raise (e : exn).
Arguments Ok {A} a.
Arguments Raise {A} e.

(** ** [merge_rankings.py] *)

Module MergeRankings.

(** [re.sub(r"^the\s+", "", s)] *)
Definition strip_the (l : chars) : chars :=
  match l with
  | a1 :: a2 :: a3 :: c :: r =>
      if Ascii.eqb a1 "t" && Ascii.eqb a2 "h" && Ascii.eqb a3 "e" && isspace c
      then Py.drop_while isspace r
      else l
  | _ => l
  end.

(** The body of [normalize_name] after the guard, on the text of the name. *)
Definition normalize_chars (l : chars) : chars :=
  let s := Py.strip l in
  let s := Py.lower s in
  let s := Py.replace_comma s in
  let s := Py.strip (Py.collapse_ws s) in
  strip_the s.

Definition normalize_name (name : value) : string :=
  if isna name || negb (truthy name) then ""
  else of_chars (normalize_chars (to_chars (py_str name))).

End MergeRankings.

(** [needle in s] on strings *)
Fixpoint contains_chars (l p : chars) : bool :=
  Py.startswith l p ||
  match l with
  | [] => false
  | _ :: r => contains_chars r p
  end.
Definition py_contains (s needle : string) : bool :=
  contains_chars (to_chars s) (to_chars needle).

Module Normalizer.
Import MergeRankings.

Definition country_map : gmap string string :=
  list_to_map
    [ ("United States", "United States of America");
      ("USA", "United States of America");
      ("US", "United States of America");
      ("UK", "United Kingdom");
      ("South Korea", "Republic of Korea");
      ("North Korea", "Democratic People's Republic of Korea");
      ("Netherlands", "Netherlands");
      ("Holland", "Netherlands");
      ("Macao", "Macau") ].

Definition normalize_country (country : value) : string :=
  if isna country then ""
  else
    let country := py_strip (py_str country) in
    let country := default country (country_map !! country) in
    py_strip country.

Definition private_terms : list string :=
  ["private"; "not for profit"; "independent"; "proprietary"].
Definition public_terms : list string :=
  ["public"; "government"; "state"; "federal"].

(** Returns ["Private"], ["Public"] or [None]. *)
Definition normalize_nature_of_running (status : value) : value :=
  if isna status then VNone
  else
    let status := py_lower (py_strip (py_str status)) in
    if existsb (fun term => py_contains status term) private_terms
    then VStr "Private"
    else if existsb (fun term => py_contains status term) public_terms
    then VStr "Public"
    else VNone.

End Normalizer.

Module Matcher.
Import MergeRankings.

(** *** The pattern [^(.*?)\s*\((.*?)\)\s*$]

    [match_tail r] matches [(.*?)\)\s*$] on what follows an opening
    parenthesis: [r] without its trailing whitespace must end with [")"],
    and the group is what precedes it, free of newlines. *)
Definition match_tail (r : chars) : option chars :=
  match rev (Py.rstrip r) with
  | ")"%char :: a =>
      if existsb is_newline a then None else Some (rev a)
  | _ => None
  end.

(** [\s*\((.*?)\)\s*$] at the current position *)
Definition match_here (s : chars) : option chars :=
  match Py.drop_while isspace s with
  | "("%char :: r => match_tail r
  | _ => None
  end.

(** The lazy first group grows one character at a time, and not over a
    newline; [p] is the group so far, reversed. *)
Fixpoint match_from (p : chars) (s : chars) : option (chars * chars) :=
  match match_here s with
  | Some alias => Some (rev p, alias)
  | None =>
      match s with
      | [] => None
      | c :: r => if is_newline c then None else match_from (c :: p) r
      end
  end.

Definition re_match_bracket (s : chars) : option (chars * chars) :=
  match_from [] s.

Definition ignore_patterns : list string :=
  [ "usa"; "uk"; "u.k."; "us"; "u.s."; "china"; "prc"; "canada";
    "australia"; "nz"; "n.z."; "singapore"; "sg"; "hong kong"; "hk";
    "taiwan"; "japan"; "jp"; "south korea"; "korea"; "india"; "in";
    "germany"; "de"; "france"; "fr";
    "main campus"; "main campus."; "main"; "branch"; "branch campus";
    "campus"; "state"; "city"; "center"; "centre";
    "formerly"; "f.k.a"; "f.k.a."; "aka"; "previously"; "merged from" ].

Definition in_list (s : string) (l : list string) : bool :=
  existsb (String.eqb s) l.

Definition extract_base_and_alias (name : value) : string * string :=
  match name with
  | VStr name =>
      let name_original := py_strip name in
      let name := py_lower name_original in
      match re_match_bracket (to_chars name) with
      | Some (g1, g2) =>
          let base := of_chars (Py.strip g1) in
          let alias := of_chars (Py.strip g2) in
          let alias :=
            if in_list (py_lower alias) ignore_patterns then ""
            else if existsb (fun pattern => py_startswith (py_lower alias) pattern)
                      ignore_patterns
            then ""
            else alias in
          (base, alias)
      | None => (name, "")
      end
  | _ => ("", "")
  end.

Definition disallowed_short : list string :=
  ["usa"; "uk"; "us"; "prc"; "nz"; "sg"; "hk"; "de"; "fr"; "jp"; "in"].

Definition abbreviations : gmap string string :=
  list_to_map
    [ ("mit", "massachusetts institute of technology");
      ("caltech", "california institute of technology");
      ("eth zurich", "swiss federal institute of technology zurich");
      ("nus", "national university of singapore");
      ("ntu singapore", "nanyang technological university singapore");
      ("ucl", "university college london");
      ("uc berkeley", "university of california berkeley");
      ("ucla", "university of california los angeles");
      ("usc", "university of southern california");
      ("ucsd", "university of california san diego");
      ("nyu", "new york university");
      ("uc", "university of california");
      ("lse", "london school of economics");
      ("eth", "swiss federal institute of technology") ].

(** [keys.add(k)] under the guard [if k:] *)
Definition add_nonempty (k : string) (keys : gset string) : gset string :=
  if String.eqb k "" then keys else keys ∪ {[ k ]}.

Definition build_name_keys (name : value) : gset string :=
  let '(base, alias) := extract_base_and_alias name in
  let base_norm := normalize_name (VStr base) in
  let alias_norm := if String.eqb alias "" then "" else normalize_name (VStr alias) in
  let name_norm := normalize_name name in
  let keys : gset string := ∅ in
  let keys := add_nonempty name_norm keys in
  let keys := add_nonempty base_norm keys in
  if negb (String.eqb alias_norm "") && (0 <? py_len alias_norm)%nat
  then
    let keys :=
      if (2 <? py_len alias_norm)%nat
      then if negb (in_list (py_lower alias_norm) disallowed_short)
           then keys ∪ {[ alias_norm ]} else keys
      else keys in
    match abbreviations !! alias_norm with
    | Some expansion => keys ∪ {[ expansion ]}
    | None => keys
    end
  else keys.

(** A row of the table being deduplicated: its cells by column name, and
    the set stored in its [_name_keys] column. *)
Record drow : Type := DRow {
  cells : gmap string value;
  _name_keys : gset string
}.

(** [row.get(col)]: the cell, [None] when the column is absent *)
Definition get (r : drow) (col : string) : value :=
  default VNone (cells r !! col).

Definition common_words : list string :=
  ["university"; "college"; "institute"; "school"; "academy"; "center"; "centre"].

(** [set(key.split()).issubset(common_words)] *)
Definition only_common_words (key : string) : bool :=
  forallb (fun w => in_list w common_words) (py_split key).

(** The text compared for the country of a row *)
Definition country_text (r : drow) : string :=
  if truthy (get r "Country")
  then py_lower (py_strip (py_str (get r "Country")))
  else "".

Definition is_same_university (row_a row_b : drow) : bool :=
  let country_a := country_text row_a in
  let country_b := country_text row_b in
  if String.eqb country_a "" || String.eqb country_b ""
     || negb (String.eqb country_a country_b)
  then false
  else
    let keys_a := _name_keys row_a in
    let keys_b := _name_keys row_b in
    let intersection := keys_a ∩ keys_b in
    if (size intersection =? 0)%nat then false
    else existsb (fun key => negb (only_common_words key)) (elements intersection).

End Matcher.

(** ** The final deduplication pass, [deduplicate_fuzzy] *)

Module Dedup.
Import Matcher.

(** A table: its column labels and its rows, every row holding a cell for
    every column. *)
Record dataframe : Type := DataFrame {
  columns : list string;
  rows : list (gmap string value)
}.

(** [df["_name_keys"] = df["Name"].apply(build_name_keys)] on one row *)
Definition with_keys (r : gmap string value) : drow :=
  DRow r (build_name_keys (default VNone (r !! "Name"))).

(** *** Grouping (the first loop) *)

(** The body of [for j in range(i + 1, len(df))]; the state is
    [(used_indices, group)]. *)
Definition inner_step (df : list drow) (row_i : drow)
    (st : gset nat * list nat) (j : nat) : gset nat * list nat :=
  let '(used_indices, group) := st in
  if bool_decide (j ∈ used_indices) then st
  else
    match df !! j with
    | Some row_j =>
        if is_same_university row_i row_j
        then (used_indices ∪ {[ j ]}, group ++ [j])
        else st
    | None => st
    end.

(** The body of [for i, row_i in df.iterrows()]; the state is
    [(used_indices, merged_groups)]. *)
Definition outer_step (df : list drow)
    (st : gset nat * list (list nat)) (i : nat) : gset nat * list (list nat) :=
  let '(used_indices, merged_groups) := st in
  if bool_decide (i ∈ used_indices) then st
  else
    match df !! i with
    | Some row_i =>
        let '(used_indices, group) :=
          foldl (inner_step df row_i) (used_indices ∪ {[ i ]}, [i])
                (seq (S i) (length df - S i)) in
        (used_indices, merged_groups ++ [group])
    | None => st
    end.

Definition group_records (df : list drow) : list (list nat) :=
  snd (foldl (outer_step df) (∅, []) (seq 0 (length df))).

(** *** Representative and filling (the second loop) *)

(** [row.notna().sum()]: the cells of the table's columns, and the
    [_name_keys] cell, which holds a set and is never null. *)
Definition score (cols : list string) (r : drow) : nat :=
  length (List.filter (fun c => notna (get r c)) cols) + 1.

(** An entry [(idx, row, score)] of [group_with_scores] *)
Definition scored : Type := nat * drow * nat.
Definition s_idx (x : scored) : nat := fst (fst x).
Definition s_row (x : scored) : drow := snd (fst x).
Definition s_score (x : scored) : nat := snd x.

(** [list.sort(key=lambda x: x[2], reverse=True)] is a stable sort by
    decreasing score: entries of equal score keep their order. *)
Fixpoint insert_desc (x : scored) (l : list scored) : list scored :=
  match l with
  | [] => [x]
  | y :: r => if (s_score x <? s_score y)%nat then y :: insert_desc x r else x :: l
  end.
Definition sort_desc (l : list scored) : list scored := foldr insert_desc [] l.

Definition group_with_scores (cols : list string) (df : list drow)
    (group_indices : list nat) : list scored :=
  omap (fun idx => (fun row => (idx, row, score cols row)) <$> df !! idx) group_indices.

(** [col.startswith("_") or col in ["Name", "Country"]] *)
Definition skipped (col : string) : bool :=
  py_startswith col "_" || in_list col ["Name"; "Country"].

(** [pd.isna(v) or v == ""] *)
Definition is_blank (v : value) : bool :=
  isna v || match v with VStr s => String.eqb s "" | _ => false end.

(** [pd.notna(v) and str(v).strip() != ""] *)
Definition has_content (v : value) : bool :=
  notna v && negb (String.eqb (py_strip (py_str v)) "").

(** The inner [for alt_idx, alt_row, _ in group_with_scores[1:]] with its
    [break]: the first sibling with content in [col]. *)
Fixpoint first_content (alts : list scored) (col : string) : option (nat * value) :=
  match alts with
  | [] => None
  | alt :: rest =>
      let alt_val := get (s_row alt) col in
      if has_content alt_val then Some (s_idx alt, alt_val)
      else first_content rest col
  end.

(** The body of [for col in representative.index] *)
Definition fill_col (alts : list scored) (representative : gmap string value)
    (col : string) : gmap string value :=
  if skipped col then representative
  else if is_blank (default VNone (representative !! col))
  then match first_content alts col with
       | Some (_, alt_val) => <[ col := alt_val ]> representative
       | None => representative
       end
  else representative.

(** [df.iloc[idx]] *)
Definition iloc (df : list drow) (idx : nat) : result drow :=
  match df !! idx with
  | Some row => Ok row
  | None => Raise IndexError
  end.

Definition is_str (v : value) : bool :=
  match v with VStr _ => true | _ => false end.

(** [" | ".join([df.iloc[idx]["Name"] for idx in group_indices])], the log
    line of a merged group, goes through when every name is a string. *)
Definition names_join (df : list drow) (group_indices : list nat) : bool :=
  forallb (fun idx => match df !! idx with
                      | Some row => is_str (get row "Name")
                      | None => false
                      end)
          group_indices.

(** One group of [merged_groups] to the row that is kept: the row itself
    for a group of one; else the representative, filled, unless the log line
    raises [TypeError] on a name that is not a string. An index outside the
    table makes [df.iloc] raise, an empty group [group_with_scores[0]]. *)
Definition merge_group (cols : list string) (df : list drow)
    (group_indices : list nat) : result drow :=
  match group_indices with
  | [idx] => iloc df idx
  | _ =>
      if negb (forallb (fun idx => idx <? length df)%nat group_indices)
      then Raise IndexError
      else
        match sort_desc (group_with_scores cols df group_indices) with
        | (representative_idx, representative, _) :: alts =>
            if names_join df group_indices
            then Ok (DRow (foldl (fill_col alts) (cells representative)
                                 (cols ++ ["_name_keys"]))
                          (_name_keys representative))
            else Raise TypeError
        | [] => Raise IndexError
        end
  end.

(** The second loop: the rows kept, group after group; the first group
    that raises ends the pass. *)
Fixpoint keep_rows (cols : list string) (df : list drow)
    (merged_groups : list (list nat)) : result (list drow) :=
  match merged_groups with
  | [] => Ok []
  | group_indices :: rest =>
      match merge_group cols df group_indices with
      | Raise e => Raise e
      | Ok row =>
          match keep_rows cols df rest with
          | Raise e => Raise e
          | Ok kept => Ok (row :: kept)
          end
      end
  end.

(** [result.drop(columns=[c for c in result.columns if c.startswith("_")])] *)
Definition drop_private (cols : list string) : list string :=
  List.filter (fun c => negb (py_startswith c "_")) cols.

(** [pd.DataFrame(keep_rows)] of an empty list is a frame without columns;
    of the rows kept, a frame with their columns, from which the ones that
    begin with an underscore are dropped. *)
Definition deduplicate_fuzzy (df : dataframe) : result dataframe :=
  if negb (in_list "Name" (columns df)) then Raise KeyError
  else
    let cols := columns df in
    let table := map with_keys (rows df) in
    let merged_groups := group_records table in
    match keep_rows cols table merged_groups with
    | Raise e => Raise e
    | Ok [] => Ok (DataFrame [] [])
    | Ok kept =>
        Ok (DataFrame (drop_private cols)
              (map (fun r => filter (fun kv => py_startswith (fst kv) "_" = false)
                                    (cells r))
                   kept))
    end.

End Dedup.

(** ** The exact-key table merge, [merge_datasets] *)

Global Instance value_inhabited : Inhabited value := populate VNone.

Definition value_enc (v : value) : (unit + unit) + (string + Z) :=
  match v with
  | VNone => inl (inl tt)
  | VNaN => inl (inr tt)
  | VStr s => inr (inl s)
  | VInt z => inr (inr z)
  end.
Definition value_dec (x : (unit + unit) + (string + Z)) : value :=
  match x with
  | inl (inl _) => VNone
  | inl (inr _) => VNaN
  | inr (inl s) => VStr s
  | inr (inr z) => VInt z
  end.
Global Instance value_countable : Countable value.
Proof. apply (inj_countable' value_enc value_dec). by intros []. Defined.

Module Merger.

(** A row of the cleaned QS table ([load_and_clean_qs]); [country] and
    [name_normalized] are outputs of the normalisers, hence strings. *)
Record qs_row : Type := QsRow {
  q_Name : value;
  q_country : string;
  q_qs_rank : value;
  q_status : value;
  q_Latitude : value;
  q_Longitude : value;
  q_name_normalized : string
}.

(** A row of a cleaned THE or US News table: [Name], [country], the
    table's rank column and [name_normalized]. *)
Record src_row : Type := SrcRow {
  s_Name : value;
  s_country : string;
  s_rank : value;
  s_name_normalized : string
}.

(** An entry of [merged_list] is a dict. *)
Abbreviation record := (gmap string value).

(** [qs_df.to_dict("records")] on one row *)
Definition qs_to_dict (q : qs_row) : record :=
  {[ "Name" := q_Name q;
     "country" := VStr (q_country q);
     "qs_rank" := q_qs_rank q;
     "status" := q_status q;
     "Latitude" := q_Latitude q;
     "Longitude" := q_Longitude q;
     "name_normalized" := VStr (q_name_normalized q) ]}.

Definition key : Type := value * value.

(** [(record["country"], record["name_normalized"])] *)
Definition record_key (r : record) : key :=
  (r !!! "country", r !!! "name_normalized").

Definition row_key (t : src_row) : key :=
  (VStr (s_country t), VStr (s_name_normalized t)).

(** [create_lookup_map]: a later record with the same key replaces the
    index of an earlier one. *)
Definition create_lookup_map (records : list record) : gmap key nat :=
  foldl (fun lookup ir => <[ record_key (snd ir) := fst ir ]> lookup) ∅
        (imap pair records).

Definition the_new_row (the_row : src_row) : record :=
  {[ "Name" := s_Name the_row;
     "country" := VStr (s_country the_row);
     "name_normalized" := VStr (s_name_normalized the_row);
     "qs_rank" := VNone;
     "the_rank" := s_rank the_row;
     "usnews_rank" := VNone;
     "status" := VNone;
     "Latitude" := VNone;
     "Longitude" := VNone ]}.

Definition usnews_new_row (usnews_row : src_row) : record :=
  {[ "Name" := s_Name usnews_row;
     "country" := VStr (s_country usnews_row);
     "name_normalized" := VStr (s_name_normalized usnews_row);
     "qs_rank" := VNone;
     "the_rank" := VNone;
     "usnews_rank" := s_rank usnews_row;
     "status" := VNone;
     "Latitude" := VNone;
     "Longitude" := VNone ]}.

Section OneTable.
(** The two merge loops differ in the rank column they write and in the
    row they append. *)
Variable rank_col : string.
Variable new_row : src_row -> record.

(** The body of [for _, row in table.iterrows()], the lookup map being
    the one built before the loop. *)
Definition merge_row (lookup : gmap key nat) (merged_list : list record)
    (row : src_row) : list record :=
  match lookup !! row_key row with
  | Some i => alter (fun r => <[ rank_col := s_rank row ]> r) i merged_list
  | None => merged_list ++ [new_row row]
  end.

Definition merge_table (merged_list : list record) (table : list src_row)
    : list record :=
  foldl (merge_row (create_lookup_map merged_list)) merged_list table.
End OneTable.

Definition merge_the := merge_table "the_rank" the_new_row.
Definition merge_usnews := merge_table "usnews_rank" usnews_new_row.

Definition merge_datasets (qs_df : list qs_row) (the_df usnews_df : list src_row)
    : list record :=
  let merged_list := map qs_to_dict qs_df in
  let merged_list := merge_the merged_list the_df in
  let merged_list := merge_usnews merged_list usnews_df in
  merged_list.

(** A cell of [pd.DataFrame(merged_list)]: a key absent from a dict reads
    as NaN. *)
Definition frame_cell (r : record) (col : string) : value :=
  default VNaN (r !! col).

End Merger.

(** ** [merge_uni.py] *)

Module MergeUni.

Definition keep_char (c : ascii) : bool :=
  let n := code c in
  ((97 <=? n) && (n <=? 122) || (48 <=? n) && (n <=? 57))%N || isspace c.

Definition is_ascii (c : ascii) : bool := (code c <? 128)%N.

Section Unifier.
(** [unicodedata.normalize('NFKD', s).encode('ASCII', 'ignore').decode('utf-8')]
    belongs to the standard library: it returns ASCII text, and leaves
    ASCII text as it is. *)
Variable to_ascii : chars -> chars.
(** [rapidfuzz.fuzz.ratio], a score between 0 and 100 *)
Variable ratio : string -> string -> Q.

Definition normalize_chars (l : chars) : chars :=
  let name := Py.strip (Py.lower l) in
  let name := to_ascii name in
  let name := List.filter keep_char name in
  Py.strip (Py.collapse_ws name).

(** [name.lower()] exists on strings only. *)
Definition normalize_name (name : value) : result string :=
  match name with
  | VStr s => Ok (of_chars (normalize_chars (to_chars s)))
  | _ => Raise AttributeError
  end.

Definition similarity_threshold : Q := 90.

(** A row of [all_unis] *)
Record row : Type := Row {
  r_name : value;
  r_name_normalized : string;
  r_country : value;
  r_source : string
}.

(** An entry of [unique_records] *)
Record urecord : Type := URecord {
  u_name : value;
  u_name_normalized : string;
  u_country : value;
  u_sources : gset string
}.

(** The scan of [seen_names] with its [break]; [None] when no name
    reaches the threshold. *)
Fixpoint find_match (name_normalized : string) (seen_names : list string)
    : option string :=
  match seen_names with
  | [] => None
  | existing_normalized :: rest =>
      if Qle_bool similarity_threshold (ratio name_normalized existing_normalized)
      then Some existing_normalized
      else find_match name_normalized rest
  end.

(** [if matched_name:] is the truth value of the matched string. *)
Definition matched_truthy (matched_name : option string) : bool :=
  match matched_name with
  | Some s => negb (String.eqb s "")
  | None => false
  end.

Definition Unknown : value := VStr "Unknown".

(** The update of the first record whose normalised name is the match *)
Fixpoint update_record (matched_name : string) (country : value) (source : string)
    (unique_records : list urecord) : list urecord :=
  match unique_records with
  | [] => []
  | record :: rest =>
      if String.eqb (u_name_normalized record) matched_name
      then
        let sources := u_sources record ∪ {[ source ]} in
        let country' :=
          if negb (bool_decide (country = Unknown))
             && bool_decide (u_country record = Unknown)
          then country else u_country record in
        URecord (u_name record) (u_name_normalized record) country' sources :: rest
      else record :: update_record matched_name country source rest
  end.

(** The body of [for idx, row in all_unis.iterrows()]; the state is
    [(seen_names, unique_records)]. *)
Definition step (st : list string * list urecord) (r : row)
    : list string * list urecord :=
  let '(seen_names, unique_records) := st in
  let matched_name := find_match (r_name_normalized r) seen_names in
  if matched_truthy matched_name
  then (seen_names,
        update_record (default "" matched_name) (r_country r) (r_source r)
                      unique_records)
  else (seen_names ++ [r_name_normalized r],
        unique_records ++
          [URecord (r_name r) (r_name_normalized r) (r_country r) {[ r_source r ]}]).

Definition deduplicate (all_unis : list row) : list string * list urecord :=
  foldl step ([], []) all_unis.

End Unifier.

(** A stand-in for the library's similarity on which the examples run:
    the Indel similarity [100 * 2 * lcs / (len a + len b)], and 100 for two
    empty strings. *)
Fixpoint lcs_row (a : ascii) (b : chars) (prev : list nat) (diag left : nat)
    : list nat :=
  match b, prev with
  | cb :: b', up :: prev' =>
      let cur := if Ascii.eqb a cb then S diag else Nat.max up left in
      cur :: lcs_row a b' prev' up cur
  | _, _ => []
  end.
Definition lcs_len (a b : chars) : nat :=
  List.last (fold_left (fun prev ca => lcs_row ca b prev 0 0) a
                       (List.repeat 0 (List.length b))) 0.
Definition indel_ratio (a b : string) : Q :=
  let n := (String.length a + String.length b)%nat in
  if (n =? 0)%nat then 100
  else (Z.of_nat (200 * lcs_len (to_chars a) (to_chars b)) # Pos.of_nat n).

(** A stand-in for the transliteration on which the examples run: it agrees
    with the library on ASCII text, which it returns as it is, and drops every
    other character. *)
Definition ascii_only (l : chars) : chars := List.filter is_ascii l.

End MergeUni.

(** ** The rest of [merge_rankings.py] *)

Module Rankings.
Import MergeRankings Normalizer Matcher.

(** [EXCLUDE_COUNTRIES], a set *)
Definition EXCLUDE_COUNTRIES : list string :=
  [ "China (Mainland)"; "China"; "Taiwan"; "Hong Kong SAR, China"; "Hong Kong";
    "Macao"; "Macau"; "Macao SAR, China" ].

Definition is_china_related (country : value) : bool :=
  if isna country then false
  else in_list (py_strip (py_str country)) EXCLUDE_COUNTRIES.

Definition exact_name_match (name1 name2 : value) : bool :=
  let n1 := normalize_name name1 in
  let n2 := normalize_name name2 in
  String.eqb n1 n2 && negb (String.eqb n1 "").

(** A row of the QS file as [pd.read_csv] gives it *)
Record raw_qs : Type := RawQs {
  rq_Name : value;
  rq_Region : value;
  rq_Rank : value;
  rq_Status : value;
  rq_Latitude : value;
  rq_Longitude : value
}.

(** A row of the THE file: [Name], [Country], [Rank] *)
Record raw_the : Type := RawThe {
  rt_Name : value;
  rt_Country : value;
  rt_Rank : value
}.

(** A row of the US News file: [Name], [Rank] *)
Record raw_usnews : Type := RawUsnews {
  ru_Name : value;
  ru_Rank : value
}.

(** [load_and_clean_qs], from the table read to the table returned *)
Definition load_and_clean_qs (df : list raw_qs) : list Merger.qs_row :=
  let df := List.filter (fun r => negb (is_china_related (rq_Region r))) df in
  map (fun r =>
         Merger.QsRow (rq_Name r) (normalize_country (rq_Region r)) (rq_Rank r)
                      (normalize_nature_of_running (rq_Status r))
                      (rq_Latitude r) (rq_Longitude r)
                      (normalize_name (rq_Name r)))
      df.

(** [load_and_clean_the] *)
Definition load_and_clean_the (df : list raw_the) : list Merger.src_row :=
  let df := List.filter (fun r => negb (is_china_related (rt_Country r))) df in
  map (fun r =>
         Merger.SrcRow (rt_Name r) (normalize_country (rt_Country r)) (rt_Rank r)
                       (normalize_name (rt_Name r)))
      df.

(** [load_and_clean_usnews]: every row is given the same country. *)
Definition load_and_clean_usnews (df : list raw_usnews) : list Merger.src_row :=
  map (fun r =>
         Merger.SrcRow (ru_Name r) "United States of America" (ru_Rank r)
                       (normalize_name (ru_Name r)))
      df.

End Rankings.

(** ** The pure helpers of the QS scrapers *)

Module QsScraper.

Inductive error : Type := ValueError | TypeError | OverflowError | ZeroDivisionError.
Inductive outcome (A : Type) : Type :=
| Return (a : A)
| Raises (e : error).
Arguments Return {A} a.
Arguments Raises {A} e.

(** The cache of URLs, a dict from names to URLs, as the list of its items
    in their order *)
Definition url_cache : Type := list (string * string).

Fixpoint cache_get (d : url_cache) (k : string) : option string :=
  match d with
  | [] => None
  | (name, url) :: rest => if String.eqb name k then Some url else cache_get rest k
  end.

(** [csv_name in d] and [d[csv_name]]; the keys are strings, no other value
    is among them. *)
Definition cached (d : url_cache) (csv_name : value) : option string :=
  match csv_name with
  | VStr s => cache_get d s
  | _ => None
  end.

Definition is_hyphen (c : ascii) : bool := (code c =? 45)%N.

(** [s.split("-")[0]]: the text before the first hyphen *)
Fixpoint before_hyphen (l : chars) : chars :=
  match l with
  | [] => []
  | c :: r => if is_hyphen c then [] else c :: before_hyphen r
  end.

(** What the rank of a row can be: a cell [value], or a float other than
    NaN, which a column of numbers with gaps holds: a finite float, as the
    rational number it is, or an infinity. *)
Inductive rank_cell : Type :=
| Cell (v : value)
| Float (q : Q)
| Infinity (negative : bool).

(** [isinstance(rank, str) and "-" in rank] *)
Definition is_range (rank : rank_cell) : bool :=
  match rank with
  | Cell (VStr s) => py_contains s "-"
  | _ => false
  end.

(** [rank.split("-")[0]] for a string *)
Definition range_start (rank : rank_cell) : rank_cell :=
  match rank with
  | Cell (VStr s) => Cell (VStr (of_chars (before_hyphen (to_chars s))))
  | v => v
  end.

(** [urls_list[rank - 1]] under the test [0 <= rank - 1 < len(urls_list)] *)
Definition by_rank (urls_list : url_cache) (rank : Z) : option string :=
  if (0 <=? rank - 1)%Z && (rank - 1 <? Z.of_nat (length urls_list))%Z
  then snd <$> urls_list !! Z.to_nat (rank - 1)
  else None.

Section Lookup.
(** The builtin [int] on a string: the integer the text denotes, [None]
    where it raises [ValueError] *)
Variable py_int : string -> option Z.

(** [int(rank)]: a missing rank is the float NaN, on which [int] raises
    [ValueError]; on [None] it raises [TypeError], on an infinity
    [OverflowError]; a finite float is truncated towards zero. *)
Definition int (rank : rank_cell) : outcome Z :=
  match rank with
  | Cell (VInt z) => Return z
  | Cell (VStr s) =>
      match py_int s with Some z => Return z | None => Raises ValueError end
  | Cell VNaN => Raises ValueError
  | Cell VNone => Raises TypeError
  | Float q => Return (Z.quot (Qnum q) (Zpos (Qden q)))
  | Infinity _ => Raises OverflowError
  end.

(** [find_matching_url] of [qs_scraper.py]: only [ValueError] (and
    [IndexError], which nothing here raises) is caught. *)
Definition find_matching_url (university_urls : url_cache) (csv_name : value)
    (rank : rank_cell) : outcome (option string) :=
  match cached university_urls csv_name with
  | Some url => Return (Some url)
  | None =>
      let urls_list := university_urls in
      let parsed := if is_range rank then int (range_start rank) else int rank in
      match parsed with
      | Return rank => Return (by_rank urls_list rank)
      | Raises ValueError => Return None
      | Raises e => Raises e
      end
  end.

(** [_find_matching_url] of [qs_coordinate_scraper.py]: every exception of
    the conversion is caught. *)
Definition _find_matching_url (url_cache : url_cache) (csv_name : value)
    (rank : rank_cell) : option string :=
  match cached url_cache csv_name with
  | Some url => Some url
  | None =>
      let parsed := if is_range rank then int (range_start rank) else int rank in
      match parsed with
      | Return rank_num => by_rank url_cache rank_num
      | Raises _ => None
      end
  end.

End Lookup.

(** [math.ceil(total / n_chunks)]: the quotient is a float, and its ceiling
    is the ceiling of the exact quotient as long as both numbers are below
    [2^53]; the statements keep to that range. *)
Definition ceil_div (total n_chunks : Z) : Z := (- ((- total) / n_chunks))%Z.

Definition float_exact : Z := (2 ^ 53)%Z.

(** [rows[a:b]] for indices that are not negative *)
Definition slice {A : Type} (rows : list A) (a b : nat) : list A :=
  take (b - a) (drop a rows).

(** [chunk_rows] on the list of the rows; a division by zero raises, and
    [range] of a negative number is empty. *)
Definition chunk_rows {A : Type} (rows : list A) (n_chunks : Z)
    : outcome (list (list A)) :=
  let total := Z.of_nat (length rows) in
  if (n_chunks =? 0)%Z then Raises ZeroDivisionError
  else
    let chunk_size := Z.to_nat (ceil_div total n_chunks) in
    Return (map (fun i => slice rows (i * chunk_size) ((i + 1) * chunk_size))
                (seq 0 (Z.to_nat n_chunks))).

Definition NUM_WORKERS : Z := 3.

(** [min(NUM_WORKERS, max(1, len(df)))] in [main] *)
Definition num_workers {A : Type} (df : list A) : Z :=
  Z.min NUM_WORKERS (Z.max 1 (Z.of_nat (length df))).

End QsScraper.

(** ** [usnews_lac_processor.py] *)

Module UsnewsLac.

Inductive error : Type := IndexError.
Inductive outcome (A : Type) : Type :=
| Return (a : A)
| Raises (e : error).
Arguments Return {A} a.
Arguments Raises {A} e.

(** An entry of [records] *)
Record lac_record : Type := LacRecord {
  Rank : Z;
  Name : string;
  Region : string
}.

Definition is_hash (c : ascii) : bool := (code c =? 35)%N.

(** [lines[i].strip()], for an index of the list *)
Definition stripped (lines : list string) (i : nat) : string :=
  py_strip (nth i lines "").

(** [line.replace('#', '').split()]: [rank_text] is its first element. *)
Definition rank_words (line : string) : list string :=
  py_split (of_chars (List.filter (fun c => negb (is_hash c)) (to_chars line))).

(** [s.split(',')], which keeps empty pieces *)
Fixpoint split_comma (cur : chars) (l : chars) : list chars :=
  match l with
  | [] => [rev cur]
  | c :: r => if is_comma c then rev cur :: split_comma [] r
              else split_comma (c :: cur) r
  end.

(** [location.split(',')[-1].strip()] *)
Definition region_of (location : string) : string :=
  of_chars (Py.strip (List.last (split_comma [] (to_chars location)) [])).

(** The test of the backward scan on [prev_line] *)
Definition is_location (prev_line : string) : bool :=
  negb (String.eqb prev_line "")
  && negb (py_startswith prev_line "#")
  && negb (String.eqb prev_line "in")
  && py_contains prev_line ",".

(** The scan [while j >= 0], from [j = above - 1] down: the pair of [name]
    and [location], [None] for a variable the scan leaves unset. *)
Fixpoint scan_back (lines : list string) (above : nat)
    : option string * option string :=
  match above with
  | 0 => (None, None)
  | S j =>
      let prev_line := stripped lines j in
      if is_location prev_line
      then ((if (0 <? j)%nat then Some (stripped lines (j - 1)) else None),
            Some prev_line)
      else scan_back lines j
  end.

(** The condition of the [if] on a line: the conditional expression binds
    weaker than [and]. *)
Definition is_rank_line (lines : list string) (i : nat) : bool :=
  if (i + 1 <? length lines)%nat
  then py_startswith (stripped lines i) "#"
       && py_contains (stripped lines (i + 1)) "in"
  else false.

(** [if name and location] *)
Definition both_set (name location : option string) : option (string * string) :=
  match name, location with
  | Some n, Some l =>
      if negb (String.eqb n "") && negb (String.eqb l "") then Some (n, l) else None
  | _, _ => None
  end.

Section Parser.
(** The builtin [int] on a string, [None] where it raises *)
Variable py_int : string -> option Z.

(** One turn of [while i < len(lines)], from the index [i] and the records
    so far to the next index and records; the scan starts at [i - 1], which
    is [i - 4] after the three lines are skipped. *)
Definition turn (lines : list string) (i : nat) (records : list lac_record)
    : outcome (nat * list lac_record) :=
  let line := stripped lines i in
  if is_rank_line lines i
  then
    match rank_words line with
    | [] => Raises IndexError
    | rank_text :: _ =>
        match py_int rank_text with
        | None => Return (i + 1, records)
        | Some rank =>
            let i := i + 2 in
            let i := i + 1 in
            let '(name, location) := scan_back lines (i - 3) in
            let records :=
              match both_set name location with
              | Some (name, location) =>
                  records ++ [LacRecord rank name (region_of location)]
              | None => records
              end in
            Return (i + 1, records)
        end
    end
  else Return (i + 1, records).

(** The loop; [None] when the turns allowed are used up before it ends. *)
Fixpoint loop (turns : nat) (lines : list string) (i : nat)
    (records : list lac_record) : option (outcome (list lac_record)) :=
  if negb (i <? length lines)%nat then Some (Return records)
  else
    match turns with
    | 0 => None
    | S turns =>
        match turn lines i records with
        | Raises e => Some (Raises e)
        | Return (i, records) => loop turns lines i records
        end
    end.

(** [parse_usnews_lac_txt], on the lines read: every turn moves the index
    forward, so that one turn per line is enough. *)
Definition parse_usnews_lac_txt (lines : list string)
    : option (outcome (list lac_record)) :=
  loop (length lines) lines 0 [].

End Parser.

End UsnewsLac.

(** * Vocabulary of the statements

    Predicates and example tables that the theorems below are stated with. *)

(** A text is [tidy] when each of its whitespace characters is a space
    followed by a character that is not whitespace; [headed] when it does not
    begin with whitespace. *)
Fixpoint tidy (l : chars) : bool :=
  match l with
  | [] => true
  | c :: r =>
      if isspace c
      then Ascii.eqb c SP
           && match r with [] => false | d :: _ => negb (isspace d) end
           && tidy r
      else tidy r
  end.

Definition headed (l : chars) : bool :=
  match l with
  | [] => true
  | c :: _ => negb (isspace c)
  end.

(** The same without the ban on a final space. *)
Fixpoint spaced (l : chars) : bool :=
  match l with
  | [] => true
  | c :: r =>
      if isspace c
      then Ascii.eqb c SP
           && match r with [] => true | d :: _ => negb (isspace d) end
           && spaced r
      else spaced r
  end.

(** A character that [lower] and the replacement of commas leave alone *)
Definition settled (c : ascii) : bool :=
  Ascii.eqb (lower_char c) c && negb (is_comma c).

(** The shape of a normalised name *)
Definition normal (l : chars) : Prop :=
  tidy l = true /\ headed l = true /\ Forall (fun c => settled c = true) l.

(** The pipeline before the removal of the article *)
Definition before_the (l : chars) : chars :=
  Py.strip (Py.collapse_ws (Py.replace_comma (Py.lower (Py.strip l)))).

(** A character kept by [merge_uni.normalize_name]: ASCII, and a lower-case
    letter, a digit or whitespace *)
Definition plain (c : ascii) : bool := MergeUni.is_ascii c && MergeUni.keep_char c.

(** A key all of whose words are generic institutional words *)
Definition generic_key (key : string) : Prop :=
  forall w, In w (py_split key) -> In w Matcher.common_words.

(** The keys two rows share *)
Definition shared_keys (a b : Matcher.drow) : gset string :=
  Matcher._name_keys a ∩ Matcher._name_keys b.

(** The reading of "the Country fields match exactly after trimming and
    case-folding" that compares the two texts and nothing else *)
Definition same_country_text (a b : Matcher.drow) : Prop :=
  py_lower (py_strip (py_str (Matcher.get a "Country")))
  = py_lower (py_strip (py_str (Matcher.get b "Country"))).

(** The country text of a Country cell, in the words of the amended C1:
    empty for a cell that is missing, [None], the empty string or zero, the
    text of the cell trimmed and lower-cased otherwise; the text of NaN is
    "nan". *)
Definition country_of (cell : option value) : string :=
  match cell with
  | None => ""
  | Some VNone => ""
  | Some VNaN => "nan"
  | Some (VStr s) => py_lower (py_strip s)
  | Some (VInt z) => if (z =? 0)%Z then "" else py_lower (py_strip (py_str (VInt z)))
  end.

(** Two rows of one institution whose Country cell is NaN *)
Definition nan_country_pair : Matcher.drow * Matcher.drow :=
  (Dedup.with_keys
     {[ "Name" := VStr "Massachusetts Institute of Technology (MIT)";
        "Country" := VNaN ]},
   Dedup.with_keys {[ "Name" := VStr "MIT"; "Country" := VNaN ]}).

(** The name whose bracket is a country code *)
Definition south_alabama : value := VStr "University of South Alabama (USA)".

(** The keys that do not come from the alias *)
Definition name_and_base_keys (name : value) (base : string) : gset string :=
  Matcher.add_nonempty (MergeRankings.normalize_name (VStr base))
    (Matcher.add_nonempty (MergeRankings.normalize_name name) ∅).

(** What the abbreviation table contributes for an alias *)
Definition expansion_keys (alias_norm : string) : gset string :=
  match Matcher.abbreviations !! alias_norm with
  | Some expansion => {[ expansion ]}
  | None => ∅
  end.

(** A later record joins the group of the seed [row_i] when it is not
    consumed and the matcher accepts it against the seed. *)
Definition joins_seed (df : list Matcher.drow) (row_i : Matcher.drow)
    (consumed : nat -> bool) (j : nat) : bool :=
  negb (consumed j)
  && match df !! j with
     | Some row_j => Matcher.is_same_university row_i row_j
     | None => false
     end.

(** The group that the seed [i] collects, given the records consumed so far *)
Definition seed_group (df : list Matcher.drow) (consumed : nat -> bool)
    (i : nat) (row_i : Matcher.drow) : list nat :=
  i :: List.filter (joins_seed df row_i consumed) (seq (S i) (length df - S i)).

(** The records consumed by the first [n] groups *)
Definition consumed_before (groups : list (list nat)) (n : nat) (j : nat) : bool :=
  bool_decide (j ∈ concat (take n groups)).

(** What C5 says of one group: its seed is the earliest record that no
    earlier group consumed, and its members are the seed and exactly the
    later unconsumed records that the matcher accepts against the seed. *)
Definition one_pass_group (df : list Matcher.drow) (groups : list (list nat))
    (n : nat) (g : list nat) : Prop :=
  exists i row_i,
    df !! i = Some row_i
    /\ consumed_before groups n i = false
    /\ (forall i', i' < i -> consumed_before groups n i' = true)
    /\ g = seed_group df (consumed_before groups n) i row_i.

(** Three records of one country: the second matches the first (same base
    name) and the third (its alias), the first and the third share no key. *)
Definition chain_example : list (gmap string value) :=
  [ {[ "Name" := VStr "Nanyang Technological University";
       "Country" := VStr "Singapore" ]};
    {[ "Name" := VStr "Nanyang Technological University (NTU Singapore)";
       "Country" := VStr "Singapore" ]};
    {[ "Name" := VStr "NTU Singapore"; "Country" := VStr "Singapore" ]} ].

(** A cell that is not null: neither [None] nor NaN. The empty string is
    not null. *)
Definition non_null (v : value) : bool :=
  match v with
  | VNone | VNaN => false
  | VStr _ | VInt _ => true
  end.

(** The number of non-null fields of a row, over the columns of the table *)
Definition non_null_count (cols : list string) (r : Matcher.drow) : nat :=
  length (List.filter (fun c => non_null (Matcher.get r c)) cols).


(** A value that a sibling can give: not null, and not blank as a text *)
Definition gives_value (v : value) : bool :=
  non_null v && negb (String.eqb (py_strip (py_str v)) "").

(** [v] is the value of [col] in the first of [alts] that gives one. *)
Definition filled_from (alts : list Dedup.scored) (col : string) (v : value) : Prop :=
  exists before a after,
    alts = before ++ a :: after
    /\ Forall (fun y => gives_value (Matcher.get (Dedup.s_row y) col) = false) before
    /\ gives_value (Matcher.get (Dedup.s_row a) col) = true
    /\ v = Matcher.get (Dedup.s_row a) col.


(** An entry of [group_with_scores] is a row of the table with its count of
    non-null fields; the cell of the key set, which every row has, counts
    for one more. *)
Definition entry_of (cols : list string) (df : list Matcher.drow) (x : Dedup.scored)
    : Prop :=
  df !! Dedup.s_idx x = Some (Dedup.s_row x)
  /\ Dedup.s_score x = non_null_count cols (Dedup.s_row x) + 1.

(** The names of the rows of a group are strings. *)
Definition names_are_strings (df : list Matcher.drow) (group : list nat) : Prop :=
  forall idx row, idx ∈ group -> df !! idx = Some row ->
                  exists s, Matcher.get row "Name" = VStr s.


(** What the filling loop computes for one cell *)
Definition fill_val (alts : list Dedup.scored) (col : string) (o : option value)
    : option value :=
  if Dedup.skipped col then o
  else if Dedup.is_blank (default VNone o)
  then match Dedup.first_content alts col with
       | Some (_, alt_val) => Some alt_val
       | None => o
       end
  else o.

(** The columns of the table that [finalize_output] hands to the
    deduplication pass *)
Definition output_columns : list string :=
  ["Name"; "Country"; "QS_Rank"; "THE_Rank"; "USNews_Rank"; "natureOfRunning";
   "Latitude"; "Longitude"].

(** Two records of one institution: the first has 4 non-null cells, the
    second 6. *)
Definition mit_pair : list (gmap string value) :=
  [ {[ "Name" := VStr "MIT"; "Country" := VStr "United States of America";
       "QS_Rank" := VInt 1; "THE_Rank" := VNaN; "USNews_Rank" := VNaN;
       "natureOfRunning" := VStr "Private"; "Latitude" := VNaN;
       "Longitude" := VNaN ]};
    {[ "Name" := VStr "Massachusetts Institute of Technology (MIT)";
       "Country" := VStr "United States of America";
       "QS_Rank" := VNone; "THE_Rank" := VInt 2; "USNews_Rank" := VNone;
       "natureOfRunning" := VStr ""; "Latitude" := VInt 42;
       "Longitude" := VInt (-71) ]} ].

(** [i] is the last position of [base] whose record has the key [k]. *)
Definition last_with_key (base : list Merger.record) (k : Merger.key) (i : nat) : Prop :=
  (exists r, base !! i = Some r /\ Merger.record_key r = k)
  /\ forall j r', base !! j = Some r' -> Merger.record_key r' = k -> j <= i.

(** Some record of [base] has the key [k]. *)
Definition has_key (base : list Merger.record) (k : Merger.key) : Prop :=
  exists r, r ∈ base /\ Merger.record_key r = k.

(** The output row of an institution that only the THE table lists *)
Definition the_only_row (t : Merger.src_row) (r : Merger.record) : Prop :=
  r !! "Name" = Some (Merger.s_Name t)
  /\ r !! "country" = Some (VStr (Merger.s_country t))
  /\ r !! "name_normalized" = Some (VStr (Merger.s_name_normalized t))
  /\ r !! "qs_rank" = Some VNone
  /\ r !! "the_rank" = Some (Merger.s_rank t).

(** The frame of a hit: [after] is [before] but for the cell [rank_col] of
    the row [i], which holds [rank]. *)
Definition hit_frame (rank_col : string) (rank : value) (i : nat)
    (before after : list Merger.record) : Prop :=
  length after = length before
  /\ forall j r, before !! j = Some r ->
       exists r',
         after !! j = Some r'
         /\ (j <> i -> r' = r)
         /\ (j = i -> r' !! rank_col = Some rank)
         /\ forall k, k <> rank_col -> r' !! k = r !! k.

(** The row appended on a miss: the name and the key of the source row, its
    rank in the column [rank_col], and [None] in the other rank columns, the
    status and the coordinates. *)
Definition fresh_rank_row (rank_col : string) (t : Merger.src_row)
    (r : Merger.record) : Prop :=
  r !! "Name" = Some (Merger.s_Name t)
  /\ Merger.record_key r = Merger.row_key t
  /\ r !! rank_col = Some (Merger.s_rank t)
  /\ forall k, k ∈ ["qs_rank"; "the_rank"; "usnews_rank";
                    "status"; "Latitude"; "Longitude"] ->
                k <> rank_col -> r !! k = Some VNone.

(** Two rows of one source table with the same key *)
Definition cornell_1 : Merger.src_row :=
  Merger.SrcRow (VStr "Cornell University") "United States of America" (VInt 20)
                "cornell university".
Definition cornell_2 : Merger.src_row :=
  Merger.SrcRow (VStr "Cornell University") "United States of America" (VInt 21)
                "cornell university".

(** One institution in the QS and in the THE table, and one in THE only *)
Definition mit_qs : Merger.qs_row :=
  Merger.QsRow (VStr "Massachusetts Institute of Technology (MIT)")
               "United States of America" (VInt 1) (VStr "Private")
               (VInt 42) (VInt (-71)) "massachusetts institute of technology (mit)".
Definition mit_the : Merger.src_row :=
  Merger.SrcRow (VStr "Massachusetts Institute of Technology (MIT)")
                "United States of America" (VInt 2)
                "massachusetts institute of technology (mit)".

Definition oxford_the : Merger.src_row :=
  Merger.SrcRow (VStr "University of Oxford") "United Kingdom" (VInt 1)
                "university of oxford".

(** Two rows of the US News table: one of an institution that QS lists, one
    of an institution that only US News lists *)
Definition mit_usnews : Merger.src_row :=
  Merger.SrcRow (VStr "Massachusetts Institute of Technology (MIT)")
                "United States of America" (VInt 5)
                "massachusetts institute of technology (mit)".
Definition williams_usnews : Merger.src_row :=
  Merger.SrcRow (VStr "Williams College") "United States of America" (VInt 1)
                "williams college".

(** [e] is the first of [seen_names] whose similarity with [n] reaches the
    threshold. *)
Definition first_similar (ratio : string -> string -> Q) (n : string)
    (seen_names : list string) (e : string) : Prop :=
  exists before after,
    seen_names = before ++ e :: after
    /\ Forall (fun x => Qle_bool MergeUni.similarity_threshold (ratio n x) = false) before
    /\ Qle_bool MergeUni.similarity_threshold (ratio n e) = true.

(** The record appended for a row that starts a new canonical name *)
Definition fresh_record (r : MergeUni.row) : MergeUni.urecord :=
  MergeUni.URecord (MergeUni.r_name r) (MergeUni.r_name_normalized r)
                   (MergeUni.r_country r) {[ MergeUni.r_source r ]}.

(** Two rows whose names normalise to the empty string *)
Definition punctuation_1 : MergeUni.row :=
  MergeUni.Row (VStr "???") "" (VStr "China") "uniRank-World".
Definition punctuation_2 : MergeUni.row :=
  MergeUni.Row (VStr "!!!") "" (VStr "Japan") "uniRank-World".

(** The names of the table are strings or missing values, as read from a
    column of text. *)
Definition names_are_text (rows : list (gmap string value)) : Prop :=
  Forall (fun r => forall z, r !! "Name" <> Some (VInt z)) rows.

(** No row of the table matches a later one. *)
Definition duplicate_free (table : list Matcher.drow) : Prop :=
  forall i j row_i row_j,
    i < j -> table !! i = Some row_i -> table !! j = Some row_j ->
    Matcher.is_same_university row_i row_j = false.

(** The cells of a row that the result keeps *)
Definition public_cells (r : gmap string value) : gmap string value :=
  filter (fun kv => py_startswith (fst kv) "_" = false) r.

(** Two distinct institutions, with a private column *)
Definition oxbridge : list (gmap string value) :=
  [ {[ "Name" := VStr "University of Oxford"; "Country" := VStr "United Kingdom";
       "_note" := VStr "x" ]};
    {[ "Name" := VStr "University of Cambridge"; "Country" := VStr "United Kingdom";
       "_note" := VNaN ]} ].

(** The rows of a source table whose key no record of [base] has *)
Definition missing_rows (base : list Merger.record) (table : list Merger.src_row)
    : list Merger.src_row :=
  List.filter
    (fun t => negb (bool_decide (Merger.row_key t ∈ map Merger.record_key base)))
    table.

(** The cells that identify a record are there, and the two of the key are
    strings. *)
Definition identified (r : Merger.record) : Prop :=
  is_Some (r !! "Name")
  /\ (exists c, r !! "country" = Some (VStr c))
  /\ (exists n, r !! "name_normalized" = Some (VStr n)).

(** Two THE rows for one QS institution *)
Definition mit_the_again : Merger.src_row :=
  Merger.SrcRow (VStr "MIT") "United States of America" (VInt 3)
                "massachusetts institute of technology (mit)".

(** The similarity of [a] with [b] reaches the threshold. *)
Definition similar (ratio : string -> string -> Q) (a b : string) : Prop :=
  Qle_bool MergeUni.similarity_threshold (ratio a b) = true.

(** What later rows may do to a record: its names stay, its sources grow,
    and its country changes only when it was unknown. *)
Definition grows (u u' : MergeUni.urecord) : Prop :=
  MergeUni.u_name u' = MergeUni.u_name u
  /\ MergeUni.u_name_normalized u' = MergeUni.u_name_normalized u
  /\ MergeUni.u_sources u ⊆ MergeUni.u_sources u'
  /\ (MergeUni.u_country u <> MergeUni.Unknown ->
      MergeUni.u_country u' = MergeUni.u_country u).

(** The record started by one of the rows, with that row's names, a country
    and sources that rows of the table gave *)
Definition made_of (rows : list MergeUni.row) (u : MergeUni.urecord) : Prop :=
  (exists r, r ∈ rows
             /\ MergeUni.u_name u = MergeUni.r_name r
             /\ MergeUni.u_name_normalized u = MergeUni.r_name_normalized r
             /\ MergeUni.r_source r ∈ MergeUni.u_sources u)
  /\ (exists r, r ∈ rows /\ MergeUni.u_country u = MergeUni.r_country r)
  /\ (forall s, s ∈ MergeUni.u_sources u ->
                exists r, r ∈ rows /\ MergeUni.r_source r = s).

(** An exact comparison in the place of the similarity *)
Definition exact_ratio (a b : string) : Q := if String.eqb a b then 100 else 0.

Definition oxford_world : MergeUni.row :=
  MergeUni.Row (VStr "University of Oxford") "university of oxford"
               (VStr "Unknown") "uniRank-World".
Definition oxford_arwu : MergeUni.row :=
  MergeUni.Row (VStr "Oxford University") "university of oxford"
               (VStr "United Kingdom") "ARWU".
Definition oxford_the_row : MergeUni.row :=
  MergeUni.Row (VStr "Univ. of Oxford") "university of oxford"
               (VStr "England") "THE".

(** A cache of three URLs *)
Definition three_urls : QsScraper.url_cache :=
  [ ("Massachusetts Institute of Technology (MIT)", "https://example.org/mit");
    ("Imperial College London", "https://example.org/imperial");
    ("University of Oxford", "https://example.org/oxford") ].

(** A reading of decimal numerals of up to three digits, in the place of
    the builtin *)
Definition digit_of (c : ascii) : option Z :=
  let n := code c in
  if ((48 <=? n) && (n <=? 57))%N then Some (Z.of_N n - 48)%Z else None.
Definition small_int (s : string) : option Z :=
  match to_chars s with
  | [a] => digit_of a
  | [a; b] =>
      match digit_of a, digit_of b with
      | Some x, Some y => Some (10 * x + y)%Z
      | _, _ => None
      end
  | [a; b; c] =>
      match digit_of a, digit_of b, digit_of c with
      | Some x, Some y, Some z => Some (100 * x + 10 * y + z)%Z
      | _, _, _ => None
      end
  | _ => None
  end.

(** A line on which [replace('#', '').split()] is empty: a rank line of
    this kind makes [split()[0]] fail. *)
Definition bare_rank_line (lines : list string) (i : nat) : Prop :=
  UsnewsLac.is_rank_line lines i = true
  /\ UsnewsLac.rank_words (UsnewsLac.stripped lines i) = [].

(** The record the parser reads at the rank line [i]: the rank is the number
    after the hash, the location is the nearest line above that looks like
    one, the name is the line above the location. *)
Definition record_at (py_int : string -> option Z) (lines : list string)
    (i : nat) (r : UsnewsLac.lac_record) : Prop :=
  UsnewsLac.is_rank_line lines i = true
  /\ (exists rank_text rest,
        UsnewsLac.rank_words (UsnewsLac.stripped lines i) = rank_text :: rest
        /\ py_int rank_text = Some (UsnewsLac.Rank r))
  /\ exists j,
       1 <= j < i
       /\ UsnewsLac.is_location (UsnewsLac.stripped lines j) = true
       /\ (forall k, j < k < i ->
                     UsnewsLac.is_location (UsnewsLac.stripped lines k) = false)
       /\ UsnewsLac.Name r = UsnewsLac.stripped lines (j - 1)
       /\ UsnewsLac.Region r = UsnewsLac.region_of (UsnewsLac.stripped lines j).

(** The first entry of a ranking page, and a page cut after a hash *)
Definition williams_page : list string :=
  [ "Williams College" ; "Williamstown, MA" ; "#1" ; "in" ;
    "National Liberal Arts Colleges" ].
Definition cut_page : list string := [ "#" ; "in" ].

(** * Properties *)

(** ** The embedding on the examples of the source and of the specification *)

Example normalize_name_article :
  MergeRankings.normalize_name (VStr "The University of Georgia")
  = MergeRankings.normalize_name (VStr "university of georgia").
Proof. reflexivity. Qed.

Example normalize_name_comma :
  MergeRankings.normalize_name (VStr "University of California, Berkeley")
  = MergeRankings.normalize_name (VStr "University of California Berkeley").
Proof. reflexivity. Qed.

Example normalize_country_alias :
  Normalizer.normalize_country (VStr " USA ") = "United States of America"
  /\ Normalizer.normalize_country (VStr "South Korea") = "Republic of Korea"
  /\ Normalizer.normalize_country (VStr " Atlantis ") = "Atlantis".
Proof. repeat split. Qed.

Example normalize_status_precedence :
  Normalizer.normalize_nature_of_running (VStr "Private not for profit (State aided)")
  = VStr "Private"
  /\ Normalizer.normalize_nature_of_running (VStr "Federal") = VStr "Public"
  /\ Normalizer.normalize_nature_of_running (VStr "Mixed") = VNone.
Proof. repeat split. Qed.

Example extract_mit :
  Matcher.extract_base_and_alias (VStr "Massachusetts Institute of Technology (MIT)")
  = ("massachusetts institute of technology", "mit").
Proof. reflexivity. Qed.

(** The first group is lazy and the second must reach the final parenthesis. *)
Example extract_two_brackets :
  Matcher.extract_base_and_alias (VStr "A (B) (C)") = ("a", "b) (c").
Proof. reflexivity. Qed.

Example extract_no_bracket :
  Matcher.extract_base_and_alias (VStr "  MIT ") = ("mit", "")
  /\ Matcher.extract_base_and_alias VNaN = ("", "").
Proof. repeat split. Qed.

Example keys_mit :
  Matcher.build_name_keys (VStr "Massachusetts Institute of Technology (MIT)")
  = {[ "massachusetts institute of technology (mit)";
       "massachusetts institute of technology"; "mit" ]}.
Proof. vm_compute. reflexivity. Qed.

(** ** Characters and string primitives *)

Ltac all_chars c :=
  destruct c as [[|] [|] [|] [|] [|] [|] [|] [|]]; vm_compute; try reflexivity;
  try discriminate; try (intros; discriminate); auto.

Lemma lower_char_idem (c : ascii) : lower_char (lower_char c) = lower_char c.
Proof. all_chars c. Qed.

Lemma lower_char_space (c : ascii) : isspace (lower_char c) = isspace c.
Proof. all_chars c. Qed.

Lemma lower_char_comma (c : ascii) : is_comma (lower_char c) = is_comma c.
Proof. all_chars c. Qed.

Lemma isspace_SP : isspace SP = true.
Proof. reflexivity. Qed.

Lemma to_of_chars (l : chars) : to_chars (of_chars l) = l.
Proof. apply list_ascii_of_string_of_list_ascii. Qed.

Lemma of_to_chars (s : string) : of_chars (to_chars s) = s.
Proof. apply string_of_list_ascii_of_string. Qed.

Lemma of_chars_nil_iff (l : chars) : of_chars l = "" <-> l = [].
Proof.
  split; [|intros ->; reflexivity].
  intros H. apply (f_equal to_chars) in H. now rewrite to_of_chars in H.
Qed.

Section StringFacts.

Lemma spaced_SP (l : chars) :
  spaced (SP :: l)
  = match l with [] => true | d :: _ => negb (isspace d) end && spaced l.
Proof. reflexivity. Qed.

Lemma sub_ws_spaced (b : bool) (l : chars) :
  spaced (Py.sub_ws b l) = true /\ (b = true -> headed (Py.sub_ws b l) = true).
Proof.
  revert b. induction l as [|c r IH]; intros b; simpl; [by split|].
  destruct (isspace c) eqn:Hc.
  - destruct b.
    + apply IH.
    + destruct (IH true) as [Hs Hh]. split; [|discriminate].
      rewrite spaced_SP. specialize (Hh eq_refl).
      destruct (Py.sub_ws true r); [done|].
      simpl in Hh. by rewrite Hh, Hs.
  - destruct (IH false) as [Hs _]. split.
    + simpl. by rewrite Hc.
    + intros _. simpl. by rewrite Hc.
Qed.

Lemma spaced_tail (c : ascii) (r : chars) : spaced (c :: r) = true -> spaced r = true.
Proof.
  simpl. destruct (isspace c); [|done].
  intros H. apply andb_prop in H. tauto.
Qed.

Lemma tidy_tail (c : ascii) (r : chars) : tidy (c :: r) = true -> tidy r = true.
Proof.
  simpl. destruct (isspace c); [|done].
  intros H. apply andb_prop in H. tauto.
Qed.

Lemma lstrip_spaced (l : chars) :
  spaced l = true -> spaced (Py.lstrip l) = true /\ headed (Py.lstrip l) = true.
Proof.
  unfold Py.lstrip. induction l as [|c r IH]; intros H; [by split|].
  simpl. destruct (isspace c) eqn:Hc.
  - apply IH. by apply spaced_tail in H.
  - split; [done|]. simpl. by rewrite Hc.
Qed.

Lemma rstrip_cons (c : ascii) (r : chars) :
  Py.rstrip (c :: r)
  = match Py.rstrip r with
    | [] => if isspace c then [] else [c]
    | r' => c :: r'
    end.
Proof. reflexivity. Qed.

Lemma rstrip_nil_head (c : ascii) (r : chars) :
  isspace c = false -> Py.rstrip (c :: r) = c :: Py.rstrip r.
Proof. intros Hc. simpl. rewrite Hc. by destruct (Py.rstrip r). Qed.

Lemma rstrip_tidy (l : chars) : spaced l = true -> tidy (Py.rstrip l) = true.
Proof.
  induction l as [|c r IH]; intros H; [done|].
  pose proof (spaced_tail _ _ H) as Hr. specialize (IH Hr).
  destruct (isspace c) eqn:Hc.
  - simpl in H. rewrite Hc in H.
    apply andb_prop in H as [H _]. apply andb_prop in H as [Hsp Hd].
    destruct r as [|d r0].
    + simpl. by rewrite Hc.
    + apply negb_true_iff in Hd.
      rewrite rstrip_cons. rewrite (rstrip_nil_head d) in * by done.
      change (tidy (c :: d :: Py.rstrip r0) = true).
      change (tidy (d :: Py.rstrip r0) = true) in IH.
      simpl. simpl in IH. rewrite Hc, Hsp, Hd in *. done.
  - rewrite rstrip_nil_head by done. simpl. by rewrite Hc.
Qed.

Lemma rstrip_headed (l : chars) : headed l = true -> headed (Py.rstrip l) = true.
Proof.
  destruct l as [|c r]; [done|]. simpl. intros Hc.
  apply negb_true_iff in Hc. rewrite Hc.
  destruct (Py.rstrip r); simpl; by rewrite Hc.
Qed.

(** What [strip] after [re.sub(r"\s+", " ", _)] returns is tidy. *)
Lemma strip_collapse_clean (l : chars) :
  tidy (Py.strip (Py.collapse_ws l)) = true
  /\ headed (Py.strip (Py.collapse_ws l)) = true.
Proof.
  unfold Py.strip, Py.collapse_ws.
  destruct (sub_ws_spaced false l) as [Hs _].
  destruct (lstrip_spaced _ Hs) as [Hs' Hh].
  split; [by apply rstrip_tidy | by apply rstrip_headed].
Qed.

Lemma lstrip_headed_id (l : chars) : headed l = true -> Py.lstrip l = l.
Proof.
  destruct l as [|c r]; [done|]. simpl. intros Hc.
  apply negb_true_iff in Hc. unfold Py.lstrip. simpl. by rewrite Hc.
Qed.

Lemma rstrip_tidy_id (l : chars) : tidy l = true -> Py.rstrip l = l.
Proof.
  induction l as [|c r IH]; intros H; [done|].
  pose proof (tidy_tail _ _ H) as Hr. specialize (IH Hr).
  simpl. rewrite IH. destruct r as [|d r0]; [|done].
  simpl in H. destruct (isspace c); [|done].
  apply andb_prop in H as [H _]. apply andb_prop in H as [_ H]. done.
Qed.

Lemma strip_clean_id (l : chars) :
  tidy l = true -> headed l = true -> Py.strip l = l.
Proof.
  intros Ht Hh. unfold Py.strip. rewrite lstrip_headed_id by done.
  by apply rstrip_tidy_id.
Qed.

Lemma sub_ws_clean_id (b : bool) (l : chars) :
  tidy l = true -> (b = true -> headed l = true) -> Py.sub_ws b l = l.
Proof.
  revert b. induction l as [|c r IH]; intros b Ht Hh; [done|].
  pose proof (tidy_tail _ _ Ht) as Hr.
  simpl in *. destruct (isspace c) eqn:Hc.
  - destruct b; [by specialize (Hh eq_refl)|].
    apply andb_prop in Ht as [Ht _]. apply andb_prop in Ht as [Hsp Hd].
    apply Ascii.eqb_eq in Hsp. subst c. f_equal.
    apply IH; [done|]. intros _. by destruct r.
  - f_equal. apply IH; [done|discriminate].
Qed.

Lemma collapse_clean_id (l : chars) :
  tidy l = true -> headed l = true -> Py.collapse_ws l = l.
Proof. intros. apply sub_ws_clean_id; auto. Qed.

End StringFacts.

(** ** Name normalisation *)

Section ForallFacts.
Variable P : ascii -> Prop.

Lemma Forall_drop_while (p : ascii -> bool) (l : chars) :
  Forall P l -> Forall P (Py.drop_while p l).
Proof.
  induction 1 as [|c r Hc Hr IH]; simpl; [constructor|].
  destruct (p c); [done|by constructor].
Qed.

Lemma Forall_rstrip (l : chars) : Forall P l -> Forall P (Py.rstrip l).
Proof.
  induction 1 as [|c r Hc Hr IH]; simpl; [constructor|].
  destruct (Py.rstrip r).
  - destruct (isspace c); by repeat constructor.
  - by constructor.
Qed.

Lemma Forall_strip (l : chars) : Forall P l -> Forall P (Py.strip l).
Proof. intros H. by apply Forall_rstrip, Forall_drop_while. Qed.

Lemma Forall_sub_ws (b : bool) (l : chars) :
  P SP -> Forall P l -> Forall P (Py.sub_ws b l).
Proof.
  intros HSP H. revert b. induction H as [|c r Hc Hr IH]; intros b; simpl;
    [constructor|].
  destruct (isspace c); [destruct b|]; auto.
Qed.
End ForallFacts.

Section NormalizeName.
Import MergeRankings.

Lemma settled_after_lower_comma (c : ascii) :
  settled (if is_comma (lower_char c) then SP else lower_char c) = true.
Proof. all_chars c. Qed.

Lemma lower_comma_settled (l : chars) :
  Forall (fun c => settled c = true) (Py.replace_comma (Py.lower l)).
Proof.
  unfold Py.replace_comma, Py.lower. induction l as [|c r IH]; simpl;
    constructor; auto using settled_after_lower_comma.
Qed.

Lemma settled_lower (c : ascii) : settled c = true -> lower_char c = c.
Proof.
  unfold settled. intros H. apply andb_prop in H as [H _].
  by apply Ascii.eqb_eq in H.
Qed.

Lemma settled_comma (c : ascii) : settled c = true -> is_comma c = false.
Proof.
  unfold settled. intros H. apply andb_prop in H as [_ H].
  by apply negb_true_iff in H.
Qed.

Lemma lower_settled_id (l : chars) :
  Forall (fun c => settled c = true) l -> Py.lower l = l.
Proof.
  unfold Py.lower. induction 1 as [|c r Hc Hr IH]; simpl; [done|].
  by rewrite settled_lower, IH.
Qed.

Lemma replace_comma_settled_id (l : chars) :
  Forall (fun c => settled c = true) l -> Py.replace_comma l = l.
Proof.
  unfold Py.replace_comma. induction 1 as [|c r Hc Hr IH]; simpl; [done|].
  by rewrite settled_comma, IH.
Qed.

Lemma normalize_chars_eq (l : chars) : normalize_chars l = strip_the (before_the l).
Proof. reflexivity. Qed.

Lemma before_the_normal (l : chars) : normal (before_the l).
Proof.
  unfold before_the.
  destruct (strip_collapse_clean (Py.replace_comma (Py.lower (Py.strip l))))
    as [Ht Hh].
  repeat split; [done|done|].
  apply Forall_strip, Forall_sub_ws; [reflexivity|apply lower_comma_settled].
Qed.

Lemma before_the_fixes_normal (l : chars) : normal l -> before_the l = l.
Proof.
  intros (Ht & Hh & Hs). unfold before_the.
  rewrite (strip_clean_id l) by done.
  rewrite lower_settled_id, replace_comma_settled_id by done.
  rewrite collapse_clean_id by done.
  by apply strip_clean_id.
Qed.

Lemma tidy_space_next (c : ascii) (r : chars) :
  tidy (c :: r) = true -> isspace c = true ->
  c = SP /\ headed r = true /\ Py.drop_while isspace r = r.
Proof.
  simpl. intros H Hc. rewrite Hc in H.
  apply andb_prop in H as [H _]. apply andb_prop in H as [Hsp Hd].
  apply Ascii.eqb_eq in Hsp. destruct r as [|d r0]; [done|].
  simpl. apply negb_true_iff in Hd. by rewrite Hd.
Qed.

Lemma strip_the_cases (l : chars) :
  (exists c r, l = "t"%char :: "h"%char :: "e"%char :: c :: r
               /\ isspace c = true
               /\ strip_the l = Py.drop_while isspace r)
  \/ (strip_the l = l
      /\ forall c r, l = "t"%char :: "h"%char :: "e"%char :: c :: r ->
                     isspace c = false).
Proof.
  destruct l as [|a1 [|a2 [|a3 [|c r]]]];
    try (right; split; [reflexivity|by intros ? ? [=]]).
  unfold strip_the.
  destruct (Ascii.eqb_spec a1 "t") as [->|N1]; simpl;
    [|right; split; [done|intros ? ? [=]; congruence]].
  destruct (Ascii.eqb_spec a2 "h") as [->|N2]; simpl;
    [|right; split; [done|intros ? ? [=]; congruence]].
  destruct (Ascii.eqb_spec a3 "e") as [->|N3]; simpl;
    [|right; split; [done|intros ? ? [=]; congruence]].
  destruct (isspace c) eqn:Hc.
  - left. by exists c, r.
  - right. split; [done|]. by intros ? ? [= -> ->].
Qed.

Lemma strip_the_normal (l : chars) : normal l -> normal (strip_the l).
Proof.
  intros Hn. destruct (strip_the_cases l) as [(c & r & -> & Hc & ->)|[-> _]];
    [|done].
  destruct Hn as (Ht & _ & Hs).
  do 3 (apply tidy_tail in Ht; apply Forall_inv_tail in Hs).
  destruct (tidy_space_next _ _ Ht Hc) as (_ & Hh & ->).
  repeat split; [by apply tidy_tail in Ht|done|by apply Forall_inv_tail in Hs].
Qed.

Lemma strip_the_id (l : chars) :
  normal l ->
  (forall rest, l <> "t"%char :: "h"%char :: "e"%char :: SP :: rest) ->
  strip_the l = l.
Proof.
  intros (Ht & _ & _) Hne.
  destruct (strip_the_cases l) as [(c & r & -> & Hc & _)|[-> _]]; [|done].
  do 3 apply tidy_tail in Ht.
  destruct (tidy_space_next _ _ Ht Hc) as (-> & _).
  by destruct (Hne r).
Qed.

Lemma normalize_chars_normal (l : chars) : normal (normalize_chars l).
Proof. rewrite normalize_chars_eq. apply strip_the_normal, before_the_normal. Qed.

Lemma normalize_chars_twice (l : chars) :
  normalize_chars (normalize_chars l) = strip_the (normalize_chars l).
Proof.
  rewrite (normalize_chars_eq (normalize_chars l)).
  by rewrite before_the_fixes_normal by apply normalize_chars_normal.
Qed.

Lemma normalize_name_str (s : string) :
  normalize_name (VStr s) = of_chars (normalize_chars (to_chars s)).
Proof.
  unfold normalize_name. simpl. destruct (String.eqb_spec s ""); [by subst|done].
Qed.

Lemma normalize_name_chars (x : value) :
  exists l, normalize_name x = of_chars (normalize_chars l).
Proof.
  unfold normalize_name. destruct (isna x || negb (truthy x)); [by exists []|eauto].
Qed.

End NormalizeName.

Section UniNormalizeName.
Variable to_ascii : chars -> chars.
Hypothesis to_ascii_is_ascii :
  forall l, Forall (fun c => MergeUni.is_ascii c = true) (to_ascii l).
Hypothesis to_ascii_on_ascii :
  forall l, Forall (fun c => MergeUni.is_ascii c = true) l -> to_ascii l = l.

Lemma plain_lower (c : ascii) : plain c = true -> lower_char c = c.
Proof. all_chars c. Qed.

Lemma filter_keep_plain (l : chars) :
  Forall (fun c => MergeUni.is_ascii c = true) l ->
  Forall (fun c => plain c = true) (List.filter MergeUni.keep_char l).
Proof.
  induction 1 as [|c r Hc Hr IH]; simpl; [constructor|].
  destruct (MergeUni.keep_char c) eqn:Hk; [|done].
  constructor; [|done]. unfold plain. by rewrite Hc, Hk.
Qed.

Lemma uni_normalize_chars_shape (l : chars) :
  let l' := MergeUni.normalize_chars to_ascii l in
  tidy l' = true /\ headed l' = true /\ Forall (fun c => plain c = true) l'.
Proof.
  unfold MergeUni.normalize_chars. cbv zeta.
  set (m := List.filter _ _).
  destruct (strip_collapse_clean m) as [Ht Hh].
  repeat split; [done|done|].
  apply Forall_strip, Forall_sub_ws; [reflexivity|].
  apply filter_keep_plain, to_ascii_is_ascii.
Qed.

Lemma uni_normalize_chars_fixes (l : chars) :
  tidy l = true -> headed l = true -> Forall (fun c => plain c = true) l ->
  MergeUni.normalize_chars to_ascii l = l.
Proof.
  intros Ht Hh Hp. unfold MergeUni.normalize_chars.
  assert (Py.lower l = l) as ->.
  { unfold Py.lower. clear Ht Hh. induction Hp as [|c r Hc Hr IH]; simpl; [done|].
    by rewrite plain_lower, IH. }
  rewrite (strip_clean_id l) by done.
  rewrite to_ascii_on_ascii.
  2:{ eapply Forall_impl; [exact Hp|]. intros c Hc. unfold plain in Hc.
      by apply andb_prop in Hc as [Hc _]. }
  assert (List.filter MergeUni.keep_char l = l) as ->.
  { clear Ht Hh. induction Hp as [|c r Hc Hr IH]; simpl; [done|].
    unfold plain in Hc. apply andb_prop in Hc as [_ Hc]. by rewrite Hc, IH. }
  rewrite collapse_clean_id by done. by apply strip_clean_id.
Qed.

Lemma uni_normalize_chars_idem (l : chars) :
  MergeUni.normalize_chars to_ascii (MergeUni.normalize_chars to_ascii l)
  = MergeUni.normalize_chars to_ascii l.
Proof.
  destruct (uni_normalize_chars_shape l) as (Ht & Hh & Hp).
  by apply uni_normalize_chars_fixes.
Qed.

End UniNormalizeName.

Lemma ascii_only_is_ascii (l : chars) :
  Forall (fun c => MergeUni.is_ascii c = true) (MergeUni.ascii_only l).
Proof.
  unfold MergeUni.ascii_only. induction l as [|c r IH]; simpl; [constructor|].
  destruct (MergeUni.is_ascii c) eqn:Hc; [by constructor|done].
Qed.

Lemma ascii_only_on_ascii (l : chars) :
  Forall (fun c => MergeUni.is_ascii c = true) l -> MergeUni.ascii_only l = l.
Proof.
  unfold MergeUni.ascii_only. induction 1 as [|c r Hc Hr IH]; simpl; [done|].
  by rewrite Hc, IH.
Qed.

(** *** C7: idempotence of [normalize_name] *)

(** C7, as stated, fails on [merge_rankings.normalize_name]: only one leading
    article is removed, so "the the x" normalises to "the x", and that to
    "x". *)
Lemma normalize_name_not_idempotent :
  MergeRankings.normalize_name (VStr "the the x") = "the x"
  /\ MergeRankings.normalize_name (VStr (MergeRankings.normalize_name (VStr "the the x")))
     = "x"
  /\ ~ (forall x : value,
          MergeRankings.normalize_name (VStr (MergeRankings.normalize_name x))
          = MergeRankings.normalize_name x).
Proof.
  split; [reflexivity|]. split; [reflexivity|].
  intros H. specialize (H (VStr "the the x")). vm_compute in H. discriminate.
Qed.

(** C7 (amended): a second application of [merge_rankings.normalize_name]
    removes one more leading "the " and changes nothing else, so the function
    is idempotent on every input whose normalised form does not begin with
    "the "; [merge_uni.normalize_name] is idempotent on every string, given
    that the ASCII transliteration returns ASCII text and leaves ASCII text
    alone. *)
Theorem normalize_name_idempotent_up_to_article
    (to_ascii : chars -> chars)
    (H1 : forall l, Forall (fun c => MergeUni.is_ascii c = true) (to_ascii l))
    (H2 : forall l, Forall (fun c => MergeUni.is_ascii c = true) l -> to_ascii l = l)
    (x : value) :
  MergeRankings.normalize_name (VStr (MergeRankings.normalize_name x))
  = of_chars (MergeRankings.strip_the (to_chars (MergeRankings.normalize_name x)))
  /\ ((forall rest, MergeRankings.normalize_name x <> String.append "the " rest) ->
      MergeRankings.normalize_name (VStr (MergeRankings.normalize_name x))
      = MergeRankings.normalize_name x)
  /\ (forall y, MergeUni.normalize_name to_ascii x = Ok y ->
                MergeUni.normalize_name to_ascii (VStr y) = Ok y).
Proof.
  assert (MergeRankings.normalize_name (VStr (MergeRankings.normalize_name x))
          = of_chars (MergeRankings.strip_the
                        (to_chars (MergeRankings.normalize_name x)))) as Heq.
  { destruct (normalize_name_chars x) as [l ->].
    by rewrite normalize_name_str, to_of_chars, normalize_chars_twice. }
  split; [exact Heq|]. split.
  - intros Hne. rewrite Heq.
    destruct (normalize_name_chars x) as [l Hl]. rewrite Hl in *.
    rewrite to_of_chars, strip_the_id; [done|apply normalize_chars_normal|].
    intros rest Hrest. apply (Hne (of_chars rest)). by rewrite Hrest.
  - intros y Hy. destruct x as [| |s|]; simpl in Hy; try discriminate.
    injection Hy as <-. simpl. f_equal.
    by rewrite to_of_chars, uni_normalize_chars_idem.
Qed.

Lemma normalize_name_idempotent_up_to_article_witness :
  (forall rest, MergeRankings.normalize_name (VStr " The  University of X, Y ")
                <> String.append "the " rest)
  /\ MergeRankings.normalize_name
       (VStr (MergeRankings.normalize_name (VStr " The  University of X, Y ")))
     = MergeRankings.normalize_name (VStr " The  University of X, Y ")
  /\ MergeUni.normalize_name MergeUni.ascii_only (VStr "university of x y")
     = Ok "university of x y".
Proof.
  assert (forall rest, MergeRankings.normalize_name (VStr " The  University of X, Y ")
                       <> String.append "the " rest) as Hne.
  { intros rest. vm_compute. discriminate. }
  split; [exact Hne|].
  destruct (normalize_name_idempotent_up_to_article MergeUni.ascii_only
              ascii_only_is_ascii ascii_only_on_ascii
              (VStr " The  University of X, Y ")) as (_ & Hidem & Huni).
  split; [exact (Hidem Hne)|].
  apply (normalize_name_idempotent_up_to_article MergeUni.ascii_only
           ascii_only_is_ascii ascii_only_on_ascii
           (VStr " University of X, Y. ")).
  reflexivity.
Defined.

(** ** The bracket-aware matcher *)

Section MatcherFacts.
Import Matcher.

Lemma in_list_In (s : string) (l : list string) : in_list s l = true <-> In s l.
Proof.
  unfold in_list. rewrite existsb_exists. split.
  - intros (x & Hx & Heq). apply String.eqb_eq in Heq. by subst.
  - intros H. exists s. split; [done|apply String.eqb_refl].
Qed.

Lemma only_common_words_generic (key : string) :
  only_common_words key = true <-> generic_key key.
Proof.
  unfold only_common_words, generic_key. rewrite forallb_forall.
  split; intros H w Hw; apply in_list_In; auto.
Qed.

Lemma substantial_exists (X : gset string) :
  existsb (fun key => negb (only_common_words key)) (elements X) = true
  <-> exists key, key ∈ X /\ ~ generic_key key.
Proof.
  rewrite existsb_exists. split.
  - intros (k & Hk & Hn). exists k. split.
    + apply elem_of_elements. by apply list_elem_of_In.
    + rewrite <- only_common_words_generic. by destruct (only_common_words k).
  - intros (k & Hk & Hn). exists k. split.
    + apply list_elem_of_In. by apply elem_of_elements.
    + rewrite <- only_common_words_generic in Hn.
      by destruct (only_common_words k).
Qed.

(** The decision of [is_same_university], in logical form *)
Lemma is_same_university_spec (a b : drow) :
  is_same_university a b = true
  <-> country_text a <> ""
      /\ country_text a = country_text b
      /\ exists key, key ∈ shared_keys a b /\ ~ generic_key key.
Proof.
  unfold is_same_university, shared_keys.
  destruct (String.eqb_spec (country_text a) "") as [Ha|Ha]; simpl.
  { split; [done|]. by intros (? & _). }
  destruct (String.eqb_spec (country_text b) "") as [Hb|Hb]; simpl.
  { split; [done|]. intros (_ & Heq & _). congruence. }
  destruct (String.eqb_spec (country_text a) (country_text b)) as [Hab|Hab]; simpl.
  2:{ split; [done|]. by intros (_ & ? & _). }
  destruct (Nat.eqb_spec (size (_name_keys a ∩ _name_keys b)) 0) as [Hz|Hz].
  { apply size_empty_inv in Hz. split; [done|].
    intros (_ & _ & k & Hk & _). by apply Hz in Hk. }
  rewrite substantial_exists. tauto.
Qed.

End MatcherFacts.

Ltac by_compute := vm_compute; first [reflexivity | exact I | discriminate].

Ltac not_generic :=
  rewrite <- only_common_words_generic; vm_compute; discriminate.

Ltac in_keys := apply (bool_decide_unpack _); vm_compute; exact I.

(** *** C1: when the matcher declares two rows candidate duplicates *)

(** C1, as stated, fails: two rows whose Country is the empty string have
    equal country texts and share the substantial key "mit", and the matcher
    rejects them. *)
Lemma is_same_university_rejects_blank_country :
  let a := Dedup.with_keys
             {[ "Name" := VStr "Massachusetts Institute of Technology (MIT)";
                "Country" := VStr "" ]} in
  let b := Dedup.with_keys {[ "Name" := VStr "MIT"; "Country" := VStr "" ]} in
  same_country_text a b
  /\ (exists key, key ∈ shared_keys a b /\ ~ generic_key key)
  /\ Matcher.is_same_university a b = false.
Proof.
  cbv zeta. split; [reflexivity|]. split; [|by_compute].
  exists "mit". split; [in_keys|not_generic].
Qed.

(** C1 (amended): the matcher declares two rows candidate duplicates if and
    only if their country texts are non-empty and equal, and their key sets
    share a key that is not made of generic words only. The country text of
    a row is empty when its Country cell is missing, [None], the empty
    string or zero, "nan" when the cell is NaN, and the text of the cell
    trimmed and lower-cased otherwise. Two rows whose only common key is
    "university" never match. *)
Theorem is_same_university_iff (a b : Matcher.drow) :
  (Matcher.is_same_university a b = true
   <-> country_of (Matcher.cells a !! "Country") <> ""
       /\ country_of (Matcher.cells a !! "Country")
          = country_of (Matcher.cells b !! "Country")
       /\ exists key, key ∈ shared_keys a b /\ ~ generic_key key)
  /\ Matcher.country_text a = country_of (Matcher.cells a !! "Country")
  /\ (forall s, Matcher.get a "Country" = VStr s ->
                Matcher.country_text a = py_lower (py_strip s))
  /\ (shared_keys a b = {[ "university" ]} -> Matcher.is_same_university a b = false).
Proof.
  assert (Htext : forall r, Matcher.country_text r
                            = country_of (Matcher.cells r !! "Country")).
  { intros r. unfold Matcher.country_text, Matcher.get, country_of.
    destruct (Matcher.cells r !! "Country") as [[| |s|z]|]; simpl; try done.
    - by destruct s.
    - by destruct (z =? 0)%Z. }
  split; [rewrite <- !Htext; apply is_same_university_spec|].
  split; [apply Htext|]. split.
  - intros s Hs. unfold Matcher.country_text. rewrite Hs. simpl.
    by destruct (String.eqb_spec s "") as [->|].
  - intros Hshared. apply not_true_is_false. rewrite is_same_university_spec.
    intros (_ & _ & key & Hkey & Hgen). rewrite Hshared in Hkey.
    apply elem_of_singleton in Hkey. subst key. apply Hgen.
    apply only_common_words_generic. reflexivity.
Qed.

Lemma is_same_university_iff_witness :
  let a := Dedup.with_keys
             {[ "Name" := VStr "University"; "Country" := VStr "France" ]} in
  let b := Dedup.with_keys
             {[ "Name" := VStr "University (Sorbonne)"; "Country" := VStr "France" ]} in
  (shared_keys a b = {[ "university" ]} /\ Matcher.is_same_university a b = false)
  /\ Matcher.country_text (fst nan_country_pair) = "nan"
  /\ Matcher.is_same_university (fst nan_country_pair) (snd nan_country_pair) = true.
Proof.
  cbv zeta.
  assert (shared_keys
            (Dedup.with_keys
               {[ "Name" := VStr "University"; "Country" := VStr "France" ]})
            (Dedup.with_keys
               {[ "Name" := VStr "University (Sorbonne)"; "Country" := VStr "France" ]})
          = {[ "university" ]}) as H by (vm_compute; reflexivity).
  split; [split; [exact H|]|split].
  - exact (proj2 (proj2 (proj2 (is_same_university_iff _ _))) H).
  - rewrite (proj1 (proj2 (is_same_university_iff (fst nan_country_pair)
                             (snd nan_country_pair)))).
    reflexivity.
  - apply (proj1 (is_same_university_iff (fst nan_country_pair)
                    (snd nan_country_pair))).
    split; [discriminate|]. split; [reflexivity|].
    exists "mit". split; [in_keys|not_generic].
Defined.

(** *** C6: the two bracket examples *)

Lemma py_lower_nil (s : string) : py_lower s = "" -> s = "".
Proof.
  unfold py_lower, Py.lower. intros H. apply of_chars_nil_iff in H.
  apply map_eq_nil in H. rewrite <- (of_to_chars s). by rewrite H.
Qed.

Lemma country_text_str (r : Matcher.drow) (c : string) :
  Matcher.cells r !! "Country" = Some (VStr c) ->
  Matcher.country_text r = py_lower (py_strip c).
Proof.
  intros H. unfold Matcher.country_text, Matcher.get. rewrite H. simpl.
  by destruct (String.eqb_spec c "") as [->|].
Qed.

(** C6: with the same (non-blank) country, "Massachusetts Institute of
    Technology (MIT)" and "MIT" are matched; for "University of South Alabama
    (USA)" the alias "usa" is discarded, "usa" is not one of its keys, and a
    row can only match it by sharing one of its two name keys, so a row that
    merely carries "USA" does not. *)
Theorem bracket_alias_examples (ra rb : gmap string value) (c : string) :
  ra !! "Name" = Some (VStr "Massachusetts Institute of Technology (MIT)") ->
  rb !! "Name" = Some (VStr "MIT") ->
  ra !! "Country" = Some (VStr c) ->
  rb !! "Country" = Some (VStr c) ->
  py_strip c <> "" ->
  Matcher.is_same_university (Dedup.with_keys ra) (Dedup.with_keys rb) = true
  /\ Matcher.extract_base_and_alias south_alabama = ("university of south alabama", "")
  /\ Matcher.build_name_keys south_alabama
     = {[ "university of south alabama (usa)"; "university of south alabama" ]}
  /\ ("usa" ∉ Matcher.build_name_keys south_alabama)
  /\ (forall rs other : gmap string value,
        rs !! "Name" = Some south_alabama ->
        Matcher.is_same_university (Dedup.with_keys rs) (Dedup.with_keys other) = true ->
        ("university of south alabama (usa)" ∈ Matcher._name_keys (Dedup.with_keys other))
        \/ ("university of south alabama" ∈ Matcher._name_keys (Dedup.with_keys other)))
  /\ (forall rs other : gmap string value,
        rs !! "Name" = Some south_alabama ->
        other !! "Name" = Some (VStr "USA") ->
        Matcher.is_same_university (Dedup.with_keys rs) (Dedup.with_keys other) = false).
Proof.
  intros Ha Hb Hca Hcb Hc.
  assert (Hkeys : Matcher.build_name_keys south_alabama
                  = {[ "university of south alabama (usa)";
                       "university of south alabama" ]}) by (vm_compute; reflexivity).
  assert (Hmatch : forall rs other : gmap string value,
            rs !! "Name" = Some south_alabama ->
            Matcher.is_same_university (Dedup.with_keys rs) (Dedup.with_keys other) = true ->
            ("university of south alabama (usa)" ∈ Matcher._name_keys (Dedup.with_keys other))
            \/ ("university of south alabama" ∈ Matcher._name_keys (Dedup.with_keys other))).
  { intros rs other Hn Hm. apply is_same_university_spec in Hm as (_ & _ & k & Hk & _).
    unfold shared_keys in Hk. apply elem_of_intersection in Hk as [Hk1 Hk2].
    unfold Dedup.with_keys in Hk1. simpl in Hk1. rewrite Hn in Hk1. simpl in Hk1.
    rewrite Hkeys in Hk1. apply elem_of_union in Hk1 as [Hk1|Hk1];
      apply elem_of_singleton in Hk1; subst k; auto. }
  split; [|split; [|split; [|split; [|split]]]].
  - apply is_same_university_spec. split; [|split].
    + rewrite (country_text_str _ c) by done. intros H. by apply py_lower_nil in H.
    + by rewrite !(country_text_str _ c).
    + exists "mit". split; [|not_generic].
      unfold shared_keys, Dedup.with_keys. simpl. rewrite Ha, Hb. in_keys.
  - by_compute.
  - exact Hkeys.
  - rewrite Hkeys. intros H. apply elem_of_union in H as [H|H];
      apply elem_of_singleton in H; discriminate.
  - exact Hmatch.
  - intros rs other Hn Ho. apply not_true_is_false. intros Hm.
    destruct (Hmatch rs other Hn Hm) as [H|H];
      unfold Dedup.with_keys in H; simpl in H; rewrite Ho in H;
      revert H; apply (bool_decide_unpack _); vm_compute; exact I.
Qed.

Lemma bracket_alias_examples_witness :
  let ra : gmap string value :=
    {[ "Name" := VStr "Massachusetts Institute of Technology (MIT)";
       "Country" := VStr "United States of America" ]} in
  let rb : gmap string value :=
    {[ "Name" := VStr "MIT"; "Country" := VStr "United States of America" ]} in
  py_strip "United States of America" <> ""
  /\ Matcher.is_same_university (Dedup.with_keys ra) (Dedup.with_keys rb) = true.
Proof.
  cbv zeta.
  assert (py_strip "United States of America" <> "") as Hc by (vm_compute; discriminate).
  split; [exact Hc|].
  refine (proj1 (bracket_alias_examples _ _ "United States of America" _ _ _ _ Hc));
    reflexivity.
Defined.

(** *** C10: a short alias and its expansion *)

Lemma abbreviations_not_fixed (a e : string) :
  Matcher.abbreviations !! a = Some e -> a <> e.
Proof.
  unfold Matcher.abbreviations. intros H.
  apply elem_of_list_to_map_2 in H.
  repeat (apply elem_of_cons in H as [H|H]; [injection H as -> ->; discriminate|]).
  by apply elem_of_nil in H.
Qed.

(** C10, as stated, fails: in "UC (UC)" the alias "uc" survives the stoplist
    and has two characters, and "uc" is a key all the same, as the
    normalised base name. *)
Lemma short_alias_is_key_as_base :
  Matcher.extract_base_and_alias (VStr "UC (UC)") = ("uc", "uc")
  /\ MergeRankings.normalize_name (VStr "uc") = "uc"
  /\ py_len "uc" = 2
  /\ ("uc" ∈ Matcher.build_name_keys (VStr "UC (UC)")).
Proof.
  split; [by_compute|]. split; [by_compute|]. split; [by_compute|]. in_keys.
Qed.

(** C10 (amended): when the alias that survives the stoplist normalises to 2
    or fewer characters, [build_name_keys] adds no key for the alias itself:
    the key set is made of the normalised full name and base, and of the
    table's expansion if the alias is a key of the abbreviation table. The
    alias is then a key only if it is equal to the normalised base or full
    name. *)
Theorem short_alias_keys (name : value) (base alias : string) :
  Matcher.extract_base_and_alias name = (base, alias) ->
  alias <> "" ->
  py_len (MergeRankings.normalize_name (VStr alias)) <= 2 ->
  let alias_norm := MergeRankings.normalize_name (VStr alias) in
  Matcher.build_name_keys name = name_and_base_keys name base ∪ expansion_keys alias_norm
  /\ (alias_norm ∈ Matcher.build_name_keys name ->
      alias_norm = MergeRankings.normalize_name (VStr base)
      \/ alias_norm = MergeRankings.normalize_name name)
  /\ (forall expansion, Matcher.abbreviations !! alias_norm = Some expansion ->
                        expansion ∈ Matcher.build_name_keys name).
Proof.
  intros Hex Halias Hlen alias_norm.
  assert (Matcher.build_name_keys name
          = name_and_base_keys name base ∪ expansion_keys alias_norm) as Hkeys.
  { unfold Matcher.build_name_keys. rewrite Hex.
    destruct (String.eqb_spec alias "") as [|_]; [done|].
    fold alias_norm. unfold name_and_base_keys, expansion_keys.
    destruct (String.eqb_spec alias_norm "") as [He|He]; simpl.
    - rewrite He. change (Matcher.abbreviations !! "") with (@None string).
      cbv beta iota. by rewrite (right_id_L ∅ (∪)).
    - assert ((0 <? py_len alias_norm)%nat = true) as ->.
      { apply Nat.ltb_lt. destruct alias_norm; [done|simpl; lia]. }
      assert ((2 <? py_len alias_norm)%nat = false) as ->.
      { apply Nat.ltb_ge. exact Hlen. }
      destruct (Matcher.abbreviations !! alias_norm); [done|].
      by rewrite (right_id_L ∅ (∪)). }
  split; [exact Hkeys|]. split.
  - rewrite Hkeys. intros H. apply elem_of_union in H as [H|H].
    + unfold name_and_base_keys, Matcher.add_nonempty in H.
      repeat match type of H with
             | context [String.eqb ?x ""] => destruct (String.eqb x "")
             end;
        repeat (apply elem_of_union in H as [H|H]);
        try (apply elem_of_singleton in H); try (by apply elem_of_empty in H); auto.
    + unfold expansion_keys in H.
      destruct (Matcher.abbreviations !! alias_norm) as [e|] eqn:He;
        [|by apply elem_of_empty in H].
      apply elem_of_singleton in H. by apply abbreviations_not_fixed in He.
  - intros e He. rewrite Hkeys. apply elem_of_union_r.
    unfold expansion_keys. rewrite He. by apply elem_of_singleton.
Qed.

Lemma short_alias_keys_witness :
  let name := VStr "University of California (UC)" in
  Matcher.extract_base_and_alias name = ("university of california", "uc")
  /\ ("uc" ∉ Matcher.build_name_keys name)
  /\ ("university of california" ∈ Matcher.build_name_keys name).
Proof.
  cbv zeta.
  assert (Matcher.extract_base_and_alias (VStr "University of California (UC)")
          = ("university of california", "uc")) as Hex by (vm_compute; reflexivity).
  assert ("uc" <> "") as Hne by discriminate.
  assert (py_len (MergeRankings.normalize_name (VStr "uc")) <= 2) as Hlen
      by (vm_compute; lia).
  destruct (short_alias_keys _ _ _ Hex Hne Hlen) as (_ & Hin & Hexp).
  split; [exact Hex|]. split.
  - intros H. destruct (Hin H) as [H'|H']; vm_compute in H'; discriminate.
  - apply Hexp. vm_compute. reflexivity.
Defined.

(** *** C8: the normalisers on missing and non-string values *)

(** C8: on a missing value ([None] or NaN) the normalisers of
    [merge_rankings.py] return the empty string, and [None] for the status; on
    every value they return. [merge_uni.normalize_name] has no such guard: on
    every value that is not a string it raises [AttributeError]. *)
Theorem normalizers_on_missing_values (to_ascii : chars -> chars) (v : value) :
  (isna v = true ->
   MergeRankings.normalize_name v = ""
   /\ Normalizer.normalize_country v = ""
   /\ Normalizer.normalize_nature_of_running v = VNone)
  /\ (forall z, MergeRankings.normalize_name (VInt z)
                = if (z =? 0)%Z then ""
                  else of_chars (MergeRankings.normalize_chars (to_chars (pretty z))))
  /\ ((forall s, v <> VStr s) ->
      MergeUni.normalize_name to_ascii v = Raise AttributeError)
  /\ MergeUni.normalize_name to_ascii VNaN = Raise AttributeError
  /\ MergeUni.normalize_name to_ascii VNone = Raise AttributeError.
Proof.
  split; [|split; [|split; [|split]]]; try reflexivity.
  - intros Hv. by destruct v.
  - intros z. unfold MergeRankings.normalize_name. simpl. by destruct (z =? 0)%Z.
  - intros Hv. destruct v as [| |s|]; try reflexivity. by destruct (Hv s).
Qed.

Lemma normalizers_on_missing_values_witness :
  isna VNaN = true
  /\ (forall s, VNaN <> VStr s)
  /\ MergeRankings.normalize_name VNaN = ""
  /\ MergeUni.normalize_name MergeUni.ascii_only VNaN = Raise AttributeError.
Proof.
  assert (isna VNaN = true) as H1 by reflexivity.
  assert (forall s, VNaN <> VStr s) as H2 by (intros s; discriminate).
  destruct (normalizers_on_missing_values MergeUni.ascii_only VNaN)
    as (Hm & _ & Hu & _).
  split; [exact H1|]. split; [exact H2|].
  split; [exact (proj1 (Hm H1))|exact (Hu H2)].
Defined.

(** ** The grouping of the deduplication pass *)

Section GroupingFacts.
Import Matcher Dedup.
Variable df : list drow.

Lemma filter_ext_in_bool {A} (f g : A -> bool) (l : list A) :
  (forall x, In x l -> f x = g x) -> List.filter f l = List.filter g l.
Proof.
  induction l as [|x r IH]; intros H; simpl; [done|].
  rewrite (H x) by (by left). rewrite IH; [done|]. intros y Hy. apply H. by right.
Qed.

Lemma inner_step_eq (row_i : drow) (used : gset nat) (group : list nat) (j : nat) :
  inner_step df row_i (used, group) j
  = if joins_seed df row_i (fun j => bool_decide (j ∈ used)) j
    then (used ∪ {[ j ]}, group ++ [j])
    else (used, group).
Proof.
  unfold inner_step, joins_seed. destruct (bool_decide (j ∈ used)); simpl; [done|].
  destruct (df !! j) as [row_j|]; [|done].
  by destruct (is_same_university row_i row_j).
Qed.

(** The inner loop collects, in order, the unconsumed matches of the seed. *)
Lemma inner_loop (row_i : drow) (js : list nat) :
  NoDup js ->
  forall (used : gset nat) (group : list nat),
    let M := List.filter (joins_seed df row_i (fun j => bool_decide (j ∈ used))) js in
    foldl (inner_step df row_i) (used, group) js
    = (used ∪ list_to_set M, group ++ M).
Proof.
  induction 1 as [|j r Hj Hr IH]; intros used group; cbv zeta.
  { cbn. by rewrite (right_id_L ∅ (∪)), app_nil_r. }
  cbn [foldl List.filter]. rewrite inner_step_eq.
  destruct (joins_seed df row_i (fun j0 => bool_decide (j0 ∈ used)) j); [|apply IH].
  rewrite IH. cbv zeta.
  assert (List.filter (joins_seed df row_i (fun j0 => bool_decide (j0 ∈ used ∪ {[j]}))) r
          = List.filter (joins_seed df row_i (fun j0 => bool_decide (j0 ∈ used))) r)
    as ->.
  { apply filter_ext_in_bool. intros x Hx. unfold joins_seed. f_equal. f_equal.
    apply bool_decide_ext. apply list_elem_of_In in Hx.
    rewrite elem_of_union, elem_of_singleton. split; [|tauto].
    intros [? | ->]; [done|]. by destruct Hj. }
  rewrite list_to_set_cons, (assoc_L (∪)), <- app_assoc. done.
Qed.

(** One turn of the outer loop on an unconsumed seed *)
Lemma outer_step_seed (used : gset nat) (groups : list (list nat)) (i : nat)
    (row_i : drow) :
  i ∉ used -> df !! i = Some row_i ->
  let g := seed_group df (fun j => bool_decide (j ∈ used)) i row_i in
  outer_step df (used, groups) i = (used ∪ list_to_set g, groups ++ [g]).
Proof.
  intros Hi Hrow. cbv zeta. unfold outer_step, seed_group.
  rewrite bool_decide_eq_false_2 by done. rewrite Hrow.
  rewrite inner_loop by apply NoDup_ListNoDup, List.seq_NoDup. cbv zeta.
  assert (List.filter (joins_seed df row_i (fun j => bool_decide (j ∈ used ∪ {[i]})))
            (seq (S i) (length df - S i))
          = List.filter (joins_seed df row_i (fun j => bool_decide (j ∈ used)))
              (seq (S i) (length df - S i))) as ->.
  { apply filter_ext_in_bool. intros x Hx. unfold joins_seed. f_equal. f_equal.
    apply bool_decide_ext. apply in_seq in Hx.
    rewrite elem_of_union, elem_of_singleton. split; [|tauto].
    intros [? | ->]; [done|lia]. }
  f_equal. rewrite list_to_set_cons, (assoc_L (∪)). done.
Qed.

Lemma outer_step_consumed (used : gset nat) (groups : list (list nat)) (i : nat) :
  i ∈ used -> outer_step df (used, groups) i = (used, groups).
Proof. intros Hi. unfold outer_step. by rewrite bool_decide_eq_true_2. Qed.

Lemma one_pass_group_snoc (groups : list (list nat)) (g' : list nat) (n : nat)
    (g : list nat) :
  n <= length groups ->
  one_pass_group df groups n g -> one_pass_group df (groups ++ [g']) n g.
Proof.
  intros Hn (i & row_i & H1 & H2 & H3 & H4).
  exists i, row_i. unfold consumed_before in *.
  rewrite take_app_le by done. done.
Qed.

(** The state of the outer loop after the records [0 .. k-1] *)
Lemma outer_loop (k : nat) :
  k <= length df ->
  exists used groups,
    foldl (outer_step df) (∅, []) (seq 0 k) = (used, groups)
    /\ used = list_to_set (concat groups)
    /\ (forall i', i' < k -> i' ∈ used)
    /\ (forall n g, groups !! n = Some g -> one_pass_group df groups n g).
Proof.
  induction k as [|k IH]; intros Hk.
  { exists ∅, []. repeat split; [intros; lia|]. intros n g H. by destruct n. }
  destruct IH as (used & groups & Hfold & Hused & Hlt & Hgroups); [lia|].
  rewrite seq_S, foldl_app, Hfold. cbn [foldl Nat.add].
  destruct (decide (k ∈ used)) as [Hin|Hout].
  - rewrite outer_step_consumed by done. exists used, groups.
    repeat split; try done. intros i' Hi'.
    destruct (decide (i' = k)) as [->|]; [done|apply Hlt; lia].
  - destruct (lookup_lt_is_Some_2 df k) as [row_k Hrow]; [lia|].
    rewrite (outer_step_seed _ _ _ row_k) by done. cbv zeta.
    set (g := seed_group df (fun j => bool_decide (j ∈ used)) k row_k).
    exists (used ∪ list_to_set g), (groups ++ [g]).
    split; [done|]. split; [|split].
    + rewrite concat_app, list_to_set_app_L, Hused. simpl. by rewrite app_nil_r.
    + intros i' Hi'. destruct (decide (i' = k)) as [->|].
      * apply elem_of_union_r, elem_of_list_to_set. unfold g, seed_group. by left.
      * apply elem_of_union_l, Hlt. lia.
    + intros n g0 Hn. apply lookup_snoc_Some in Hn as [[Hn Hg]|[-> <-]].
      * apply one_pass_group_snoc; [lia|auto].
      * exists k, row_k. unfold consumed_before. rewrite take_app_length.
        assert (forall j, bool_decide (j ∈ concat groups) = bool_decide (j ∈ used))
          as Hsame.
        { intros j. apply bool_decide_ext. by rewrite Hused, elem_of_list_to_set. }
        split; [done|]. split; [|split].
        -- rewrite Hsame. by apply bool_decide_eq_false_2.
        -- intros i' Hi'. rewrite Hsame. by apply bool_decide_eq_true_2, Hlt.
        -- unfold g, seed_group. f_equal. apply filter_ext_in_bool.
           intros x _. unfold joins_seed. by rewrite Hsame.
Qed.

Lemma group_records_one_pass (n : nat) (g : list nat) :
  group_records df !! n = Some g -> one_pass_group df (group_records df) n g.
Proof.
  unfold group_records.
  destruct (outer_loop (length df)) as (used & groups & -> & _ & _ & H); [lia|].
  apply H.
Qed.

End GroupingFacts.

(** *** C5: the grouping is one pass over seeds, and not transitive *)

(** C5: every group of the final pass is a seed, the earliest record not
    consumed by an earlier group, followed by exactly the later unconsumed
    records that the matcher accepts against the seed; so every other member
    of a group matches the seed directly, and a record that matches a grouped
    record but not the seed stays out of the group: in [chain_example] the
    groups are [[0; 1]] and [[2]] although records 1 and 2 match. *)
Theorem grouping_is_one_pass (df : list Matcher.drow) :
  (forall n g, Dedup.group_records df !! n = Some g ->
               one_pass_group df (Dedup.group_records df) n g)
  /\ (forall n g i j,
        Dedup.group_records df !! n = Some g -> head g = Some i -> j ∈ g -> j <> i ->
        exists row_i row_j,
          df !! i = Some row_i /\ df !! j = Some row_j /\ i < j
          /\ Matcher.is_same_university row_i row_j = true)
  /\ (exists a b c,
        map Dedup.with_keys chain_example = [a; b; c]
        /\ Matcher.is_same_university a b = true
        /\ Matcher.is_same_university b c = true
        /\ Matcher.is_same_university a c = false
        /\ Dedup.group_records [a; b; c] = [[0; 1]; [2]]).
Proof.
  split; [apply group_records_one_pass|]. split.
  - intros n g i j Hg Hhead Hj Hne.
    apply group_records_one_pass in Hg as (i0 & row_i & Hrow & _ & _ & ->).
    unfold seed_group in *. simpl in Hhead. injection Hhead as ->.
    apply elem_of_cons in Hj as [Hj|Hj]; [done|].
    apply list_elem_of_In, filter_In in Hj as [Hseq Hjoin].
    apply in_seq in Hseq. unfold joins_seed in Hjoin.
    apply andb_prop in Hjoin as [_ Hjoin].
    destruct (df !! j) as [row_j|] eqn:Hrj; [|done].
    exists row_i, row_j. repeat split; [done|lia|done].
  - eexists _, _, _. split; [reflexivity|].
    split; [by_compute|]. split; [by_compute|]. split; by_compute.
Qed.

Lemma grouping_is_one_pass_witness :
  Dedup.group_records (map Dedup.with_keys chain_example) !! 0 = Some [0; 1]
  /\ one_pass_group (map Dedup.with_keys chain_example)
       (Dedup.group_records (map Dedup.with_keys chain_example)) 0 [0; 1].
Proof.
  assert (Dedup.group_records (map Dedup.with_keys chain_example) !! 0 = Some [0; 1])
    as H by (vm_compute; reflexivity).
  split; [exact H|].
  exact (proj1 (grouping_is_one_pass (map Dedup.with_keys chain_example)) 0 [0; 1] H).
Defined.

(** ** The representative of a group and its filling *)

Section MergeGroupFacts.
Import Matcher Dedup.





(** The head of the stable descending sort is the first entry of maximal
    score, and the rest is the sort of the others. *)
Lemma sort_desc_head (l : list scored) :
  l <> [] ->
  exists pre rep post,
    l = pre ++ rep :: post
    /\ sort_desc l = rep :: sort_desc (pre ++ post)
    /\ Forall (fun y => s_score y < s_score rep) pre
    /\ Forall (fun y => s_score y <= s_score rep) post.
Proof.
  induction l as [|x r IH]; [done|]. intros _.
  destruct r as [|x' r'].
  { exists [], x, []. by repeat split. }
  destruct IH as (pre & rep & post & Hr & Hsort & Hpre & Hpost); [done|].
  change (sort_desc (x :: x' :: r')) with (insert_desc x (sort_desc (x' :: r'))).
  rewrite Hsort. simpl insert_desc.
  destruct (Nat.ltb_spec (s_score x) (s_score rep)) as [Hlt|Hge].
  - exists (x :: pre), rep, post. rewrite Hr.
    split; [done|]. split; [done|]. split; [by constructor|done].
  - exists [], x, (x' :: r'). simpl app. rewrite Hsort.
    split; [done|]. split; [done|]. split; [constructor|].
    rewrite Hr. apply Forall_app. split.
    + eapply Forall_impl; [exact Hpre|]. simpl. intros; lia.
    + constructor; [done|]. eapply Forall_impl; [exact Hpost|]. simpl. intros; lia.
Qed.

(** The score of a row is its count of non-null fields, and one for the
    cell of the key set. *)
Lemma score_count (cols : list string) (r : drow) :
  score cols r = non_null_count cols r + 1.
Proof.
  unfold score, non_null_count. do 2 f_equal. apply filter_ext.
  intros c. unfold notna, isna. by destruct (get r c).
Qed.


Lemma has_content_spec (v : value) : has_content v = gives_value v.
Proof. by destruct v. Qed.


Lemma group_with_scores_entries (cols : list string) (df : list drow) (group : list nat) :
  (forall idx, idx ∈ group -> idx < length df) ->
  map s_idx (group_with_scores cols df group) = group
  /\ Forall (entry_of cols df) (group_with_scores cols df group).
Proof.
  unfold group_with_scores. induction group as [|idx r IH]; intros Hv; [by split|].
  destruct (lookup_lt_is_Some_2 df idx) as [row Hrow]; [apply Hv; by left|].
  destruct IH as [IH1 IH2]; [intros; apply Hv; by right|].
  cbn. rewrite Hrow. cbn. split; [f_equal; exact IH1|].
  constructor; [|exact IH2]. split; [done|]. apply score_count.
Qed.

Lemma has_content_not_blank (v : value) : has_content v = true -> is_blank v = false.
Proof.
  unfold has_content, is_blank, notna. destruct v as [| |s|z]; simpl; try done.
  by destruct s.
Qed.

Lemma first_content_Some (alts : list scored) (col : string) (i : nat) (v : value) :
  first_content alts col = Some (i, v) -> filled_from alts col v.
Proof.
  induction alts as [|a r IH]; simpl; [done|].
  destruct (has_content (get (s_row a) col)) eqn:Ha.
  - intros [= <- <-]. rewrite has_content_spec in Ha. exists [], a, r.
    by repeat split.
  - intros H. destruct (IH H) as (b & a' & af & -> & Hb & Ha' & ->).
    rewrite has_content_spec in Ha.
    exists (a :: b), a', af. repeat split; [by constructor|done].
Qed.



Lemma fill_col_lookup (alts : list scored) (m : gmap string value) (col c : string) :
  fill_col alts m col !! c
  = if decide (c = col) then fill_val alts col (m !! col) else m !! c.
Proof.
  unfold fill_col, fill_val. destruct (decide (c = col)) as [->|Hne].
  - destruct (skipped col); [done|].
    destruct (is_blank (default VNone (m !! col))); [|done].
    destruct (first_content alts col) as [[i v]|]; [|done].
    apply lookup_insert_eq.
  - destruct (skipped col); [done|].
    destruct (is_blank (default VNone (m !! col))); [|done].
    destruct (first_content alts col) as [[i v]|]; [|done].
    by rewrite lookup_insert_ne.
Qed.

Lemma fill_val_idem (alts : list scored) (col : string) (o : option value) :
  fill_val alts col (fill_val alts col o) = fill_val alts col o.
Proof.
  unfold fill_val. destruct (skipped col); [done|].
  destruct (is_blank (default VNone o)) eqn:Hb; [|by rewrite Hb].
  destruct (first_content alts col) as [[i v]|] eqn:Hf; [|by rewrite Hb].
  simpl. apply first_content_Some in Hf as (b & a & af & _ & _ & Ha & ->).
  rewrite <- has_content_spec in Ha. by rewrite has_content_not_blank.
Qed.

Lemma fill_loop_lookup (alts : list scored) (cols : list string)
    (m : gmap string value) (c : string) :
  foldl (fill_col alts) m cols !! c
  = if bool_decide (c ∈ cols) then fill_val alts c (m !! c) else m !! c.
Proof.
  revert m. induction cols as [|x r IH]; intros m; [done|].
  cbn [foldl]. rewrite IH, fill_col_lookup.
  destruct (decide (c = x)) as [->|Hne].
  - rewrite (bool_decide_eq_true_2 (x ∈ x :: r)) by (by left).
    rewrite fill_val_idem. by destruct (bool_decide (x ∈ r)).
  - destruct (bool_decide (c ∈ r)) eqn:Hr.
    + apply bool_decide_eq_true_1 in Hr.
      by rewrite bool_decide_eq_true_2 by (by right).
    + apply bool_decide_eq_false_1 in Hr.
      rewrite bool_decide_eq_false_2; [done|].
      intros H. apply elem_of_cons in H as [?|?]; done.
Qed.

End MergeGroupFacts.

(** *** C3: the representative of a group, and what is filled into it *)




(** ** The exact-key merge of the ranking tables *)

Section MergerFacts.
Import Merger.

Lemma create_lookup_map_snoc (l : list record) (r : record) :
  create_lookup_map (l ++ [r]) = <[ record_key r := length l ]> (create_lookup_map l).
Proof.
  unfold create_lookup_map. rewrite imap_app, foldl_app. simpl.
  by rewrite Nat.add_0_r.
Qed.

Lemma create_lookup_map_Some (l : list record) (k : key) (i : nat) :
  create_lookup_map l !! k = Some i <-> last_with_key l k i.
Proof.
  unfold last_with_key. revert i.
  induction l as [|r l IH] using rev_ind; intros i.
  { split; [done|]. by intros [(r & Hr & _) _]. }
  rewrite create_lookup_map_snoc.
  destruct (decide (record_key r = k)) as [Hk|Hk].
  - rewrite Hk, lookup_insert_eq. split.
    + intros [= <-]. split.
      * exists r. split; [|done]. by rewrite list_lookup_middle.
      * intros j r' Hj _. apply lookup_lt_Some in Hj.
        rewrite length_app in Hj. simpl in Hj. lia.
    + intros [(r0 & Hr0 & _) Hmax].
      apply lookup_lt_Some in Hr0. rewrite length_app in Hr0. simpl in Hr0.
      assert (length l <= i); [|f_equal; lia].
      apply (Hmax _ r); [|done]. by rewrite list_lookup_middle.
  - rewrite lookup_insert_ne by done. rewrite IH. split.
    + intros [(r0 & Hr0 & Hk0) Hmax]. split.
      * exists r0. split; [|done]. rewrite lookup_app_l; [done|].
        by apply lookup_lt_Some in Hr0.
      * intros j r' Hj Hkj. apply lookup_snoc_Some in Hj as [[Hlt Hj]|[_ <-]];
          [eauto|done].
    + intros [(r0 & Hr0 & Hk0) Hmax].
      apply lookup_snoc_Some in Hr0 as [[Hlt Hr0]|[_ <-]]; [|done].
      split; [eauto|]. intros j r' Hj Hkj. apply (Hmax j r'); [|done].
      rewrite lookup_app_l; [done|]. by apply lookup_lt_Some in Hj.
Qed.

Lemma create_lookup_map_None (l : list record) (k : key) :
  create_lookup_map l !! k = None <-> ~ has_key l k.
Proof.
  unfold has_key. induction l as [|r l IH] using rev_ind.
  { split; [|done]. intros _ (r & Hr & _). by apply elem_of_nil in Hr. }
  rewrite create_lookup_map_snoc.
  destruct (decide (record_key r = k)) as [Hk|Hk].
  - rewrite Hk, lookup_insert_eq. split; [done|]. intros H. destruct H.
    exists r. split; [|done]. apply elem_of_app. right. by left.
  - rewrite lookup_insert_ne by done. rewrite IH. split.
    + intros H (r0 & Hr0 & Hk0). apply elem_of_app in Hr0 as [Hr0|Hr0].
      * apply H. eauto.
      * apply list_elem_of_singleton in Hr0. by subst.
    + intros H (r0 & Hr0 & Hk0). apply H. exists r0. split; [|done].
      apply elem_of_app. by left.
Qed.

Lemma create_lookup_map_bound (l : list record) (k : key) (i : nat) :
  create_lookup_map l !! k = Some i -> i < length l.
Proof.
  intros H. apply create_lookup_map_Some in H as [(r & Hr & _) _].
  by apply lookup_lt_Some in Hr.
Qed.

Lemma has_key_dec (l : list record) (k : key) : has_key l k \/ ~ has_key l k.
Proof.
  destruct (create_lookup_map l !! k) as [i|] eqn:H.
  - left. apply create_lookup_map_Some in H as [(r & Hr & Hk) _].
    exists r. split; [|done]. by apply list_elem_of_lookup_2 in Hr.
  - right. by apply create_lookup_map_None.
Qed.

Lemma qs_record_key (q : qs_row) :
  record_key (qs_to_dict q) = (VStr (q_country q), VStr (q_name_normalized q)).
Proof. reflexivity. Qed.

Lemma the_new_row_key (t : src_row) : record_key (the_new_row t) = row_key t.
Proof. reflexivity. Qed.

Lemma usnews_new_row_key (t : src_row) : record_key (usnews_new_row t) = row_key t.
Proof. reflexivity. Qed.

End MergerFacts.

Section MergeTableFacts.
Import Merger.
Variable rank_col : string.
Variable new_row : src_row -> record.

Lemma merge_table_snoc (base : list record) (pre : list src_row) (t : src_row) :
  merge_table rank_col new_row base (pre ++ [t])
  = merge_row rank_col new_row (create_lookup_map base)
      (merge_table rank_col new_row base pre) t.
Proof. unfold merge_table. by rewrite foldl_app. Qed.

Lemma merge_row_hit (lookup : gmap key nat) (ml : list record) (t : src_row) (i : nat) :
  lookup !! row_key t = Some i ->
  merge_row rank_col new_row lookup ml t
  = alter (fun r => <[ rank_col := s_rank t ]> r) i ml.
Proof. intros H. unfold merge_row. by rewrite H. Qed.

Lemma merge_row_miss (lookup : gmap key nat) (ml : list record) (t : src_row) :
  lookup !! row_key t = None ->
  merge_row rank_col new_row lookup ml t = ml ++ [new_row t].
Proof. intros H. unfold merge_row. by rewrite H. Qed.

Lemma merge_row_length (lookup : gmap key nat) (ml : list record) (t : src_row) :
  length ml <= length (merge_row rank_col new_row lookup ml t).
Proof.
  unfold merge_row. destruct (lookup !! row_key t).
  - by rewrite length_alter.
  - rewrite length_app. lia.
Qed.

Lemma merge_table_length (base : list record) (table : list src_row) :
  length base <= length (merge_table rank_col new_row base table).
Proof.
  induction table as [|t pre IH] using rev_ind; [done|].
  rewrite merge_table_snoc. etrans; [exact IH|apply merge_row_length].
Qed.

(** A row whose key the base lacks is appended, and stays: later rows of the
    same table only alter positions of the base. *)
Lemma merge_table_appended (base : list record) (table : list src_row) (t : src_row) :
  ~ has_key base (row_key t) -> t ∈ table ->
  new_row t ∈ drop (length base) (merge_table rank_col new_row base table).
Proof.
  intros Hmiss. induction table as [|x pre IH] using rev_ind; intros Hin.
  { by apply elem_of_nil in Hin. }
  rewrite merge_table_snoc.
  pose proof (merge_table_length base pre) as Hlen.
  destruct (create_lookup_map base !! row_key x) as [i|] eqn:Hx.
  - rewrite (merge_row_hit _ _ _ i) by done.
    rewrite drop_alter_lt by (by apply create_lookup_map_bound in Hx).
    apply IH. apply elem_of_app in Hin as [Hin|Hin]; [done|].
    apply list_elem_of_singleton in Hin. subst x.
    apply create_lookup_map_None in Hmiss. congruence.
  - rewrite merge_row_miss by done. rewrite drop_app_le by done.
    apply elem_of_app. apply elem_of_app in Hin as [Hin|Hin]; [left; auto|].
    apply list_elem_of_singleton in Hin. subst x. right. by left.
Qed.

(** A property of a record that the rank column does not bear on survives
    the merge of a row, and of a table. *)
Lemma merge_row_preserves (P : record -> Prop) (lookup : gmap key nat)
    (ml : list record) (t : src_row) :
  (forall r v, P r -> P (<[ rank_col := v ]> r)) ->
  (exists r, r ∈ ml /\ P r) ->
  exists r, r ∈ merge_row rank_col new_row lookup ml t /\ P r.
Proof.
  intros Hstable (r & Hr & HP). unfold merge_row.
  destruct (lookup !! row_key t) as [i|].
  - apply list_elem_of_lookup in Hr as [j Hj].
    destruct (decide (i = j)) as [->|Hne].
    + exists (<[ rank_col := s_rank t ]> r). split; [|auto].
      apply (list_elem_of_lookup_2 _ j). by rewrite list_lookup_alter_eq, Hj.
    + exists r. split; [|done].
      apply (list_elem_of_lookup_2 _ j). by rewrite list_lookup_alter_ne.
  - exists r. split; [|done]. apply elem_of_app. by left.
Qed.

Lemma merge_table_preserves (P : record -> Prop) (base : list record)
    (table : list src_row) :
  (forall r v, P r -> P (<[ rank_col := v ]> r)) ->
  (exists r, r ∈ base /\ P r) ->
  exists r, r ∈ merge_table rank_col new_row base table /\ P r.
Proof.
  intros Hstable Hbase. induction table as [|t pre IH] using rev_ind; [done|].
  rewrite merge_table_snoc. by apply merge_row_preserves.
Qed.

(** The frame of a hit: one cell of one row changes. *)
Lemma alter_rank_frame (ml : list record) (t : src_row) (i j : nat) (r : record) :
  ml !! j = Some r ->
  exists r',
    alter (fun r => <[ rank_col := s_rank t ]> r) i ml !! j = Some r'
    /\ (j <> i -> r' = r)
    /\ (j = i -> r' = <[ rank_col := s_rank t ]> r)
    /\ forall k, k <> rank_col -> r' !! k = r !! k.
Proof.
  intros Hj. destruct (decide (i = j)) as [->|Hne].
  - exists (<[ rank_col := s_rank t ]> r). rewrite list_lookup_alter_eq, Hj.
    repeat split; [done|]. intros k Hk. by rewrite lookup_insert_ne.
  - exists r. rewrite list_lookup_alter_ne by done.
    repeat split; [done|]. intros ->. done.
Qed.

(** One row of a pass, against the table as it was when the pass began *)
Lemma merge_table_step (base : list record) (pre : list src_row) (t : src_row) :
  let before := merge_table rank_col new_row base pre in
  let after := merge_table rank_col new_row base (pre ++ [t]) in
  (has_key base (row_key t) ->
   exists i, last_with_key base (row_key t) i
             /\ after = alter (fun r => <[ rank_col := s_rank t ]> r) i before)
  /\ (~ has_key base (row_key t) -> after = before ++ [new_row t])
  /\ (length after = length before <-> has_key base (row_key t)).
Proof.
  cbv zeta. rewrite merge_table_snoc.
  assert (Hhit : has_key base (row_key t) ->
                 exists i, last_with_key base (row_key t) i
                           /\ create_lookup_map base !! row_key t = Some i).
  { intros Hk. destruct (create_lookup_map base !! row_key t) as [i|] eqn:H.
    - exists i. split; [by apply create_lookup_map_Some|done].
    - by apply create_lookup_map_None in H. }
  split; [|split].
  - intros Hk. destruct (Hhit Hk) as (i & Hlast & Hi).
    exists i. split; [done|]. by apply merge_row_hit.
  - intros Hk. apply merge_row_miss. by apply create_lookup_map_None.
  - split.
    + intros Hlen. destruct (has_key_dec base (row_key t)) as [Hk|Hk]; [done|].
      rewrite merge_row_miss in Hlen by (by apply create_lookup_map_None).
      rewrite length_app in Hlen. simpl in Hlen. lia.
    + intros Hk. destruct (Hhit Hk) as (i & _ & Hi).
      rewrite (merge_row_hit _ _ _ i) by done. apply length_alter.
Qed.

End MergeTableFacts.

(** *** C2: which rows the exact-key strategy merges *)

(** C2, as stated, fails: two rows of the THE table with the same
    (country, normalized name), absent from QS, are not merged; each becomes a
    row of its own. *)
Lemma same_table_rows_not_merged :
  Merger.row_key cornell_1 = Merger.row_key cornell_2
  /\ Merger.merge_datasets [] [cornell_1; cornell_2] []
     = [Merger.the_new_row cornell_1; Merger.the_new_row cornell_2]
  /\ length (Merger.merge_datasets [] [cornell_1; cornell_2] []) = 2.
Proof. split; [reflexivity|]. split; by_compute. Qed.

(** C2 (amended): in the pass over a source table, a row is merged into an
    existing row if and only if some row accumulated before the pass began
    has the identical (country, normalized name); it then goes to the last
    such row, and otherwise it is appended as a new row, with no fuzzy
    fallback. A QS row that differs in country has a different key. Rows of
    one table are not matched against each other. *)
Theorem exact_key_merge
    (rank_col : string) (new_row : Merger.src_row -> Merger.record)
    (base : list Merger.record) (pre : list Merger.src_row) (t : Merger.src_row) :
  let before := Merger.merge_table rank_col new_row base pre in
  let after := Merger.merge_table rank_col new_row base (pre ++ [t]) in
  (has_key base (Merger.row_key t) ->
   exists i, last_with_key base (Merger.row_key t) i
             /\ after = alter (fun r => <[ rank_col := Merger.s_rank t ]> r) i before)
  /\ (~ has_key base (Merger.row_key t) -> after = before ++ [new_row t])
  /\ (length after = length before <-> has_key base (Merger.row_key t))
  /\ (forall q, Merger.q_country q <> Merger.s_country t ->
                Merger.record_key (Merger.qs_to_dict q) <> Merger.row_key t).
Proof.
  cbv zeta.
  destruct (merge_table_step rank_col new_row base pre t) as (Hhit & Hmiss & Hlen).
  split; [exact Hhit|]. split; [exact Hmiss|]. split; [exact Hlen|].
  intros q Hq. rewrite qs_record_key. unfold Merger.row_key. congruence.
Qed.

Lemma exact_key_merge_witness :
  has_key [Merger.qs_to_dict mit_qs] (Merger.row_key mit_the)
  /\ Merger.merge_the [Merger.qs_to_dict mit_qs] [mit_the]
     = [<[ "the_rank" := VInt 2 ]> (Merger.qs_to_dict mit_qs)]
  /\ (~ has_key [] (Merger.row_key mit_the))
  /\ Merger.merge_the [] [mit_the] = [Merger.the_new_row mit_the].
Proof.
  assert (has_key [Merger.qs_to_dict mit_qs] (Merger.row_key mit_the)) as Hk.
  { exists (Merger.qs_to_dict mit_qs). split; [by left|reflexivity]. }
  assert (~ has_key [] (Merger.row_key mit_the)) as Hn.
  { intros (r & Hr & _). by apply elem_of_nil in Hr. }
  split; [exact Hk|]. split; [|split; [exact Hn|]].
  - destruct (exact_key_merge "the_rank" Merger.the_new_row
                [Merger.qs_to_dict mit_qs] [] mit_the) as (Hhit & _).
    destruct (Hhit Hk) as (i & [(r & Hr & _) _] & Hafter).
    destruct i as [|i]; [|by destruct i]. exact Hafter.
  - exact (proj1 (proj2 (exact_key_merge "the_rank" Merger.the_new_row [] [] mit_the)) Hn).
Defined.

(** *** C4: what a row of a source table changes *)

Lemma the_only_row_new (t : Merger.src_row) : the_only_row t (Merger.the_new_row t).
Proof. by repeat split. Qed.

Lemma the_only_row_stable (t : Merger.src_row) (r : Merger.record) (v : value) :
  the_only_row t r -> the_only_row t (<[ "usnews_rank" := v ]> r).
Proof.
  intros (H1 & H2 & H3 & H4 & H5).
  repeat split; by rewrite lookup_insert_ne.
Qed.

Lemma elem_of_drop_elem {A} (n : nat) (l : list A) (x : A) : x ∈ drop n l -> x ∈ l.
Proof.
  intros H. apply list_elem_of_lookup in H as [i Hi].
  rewrite lookup_drop in Hi. by apply list_elem_of_lookup_2 in Hi.
Qed.

Lemma merge_table_hit_frame
    (rank_col : string) (new_row : Merger.src_row -> Merger.record)
    (base : list Merger.record) (pre : list Merger.src_row) (t : Merger.src_row) :
  has_key base (Merger.row_key t) ->
  exists i,
    last_with_key base (Merger.row_key t) i
    /\ hit_frame rank_col (Merger.s_rank t) i
         (Merger.merge_table rank_col new_row base pre)
         (Merger.merge_table rank_col new_row base (pre ++ [t])).
Proof.
  intros Hk.
  destruct (merge_table_step rank_col new_row base pre t) as (Hhit & _ & Hlen).
  destruct (Hhit Hk) as (i & Hlast & Heq). exists i. split; [done|].
  split; [by apply Hlen|]. intros j r Hj. rewrite Heq.
  destruct (alter_rank_frame rank_col _ t i j r Hj) as (r' & Hr' & Hne & He & Hframe).
  exists r'. split; [done|]. split; [done|]. split; [|done].
  intros ->. rewrite He by done. apply lookup_insert_eq.
Qed.

Lemma the_new_row_fresh (t : Merger.src_row) :
  fresh_rank_row "the_rank" t (Merger.the_new_row t).
Proof.
  split; [reflexivity|]. split; [reflexivity|]. split; [reflexivity|].
  intros k Hk Hne.
  repeat (apply elem_of_cons in Hk as [-> | Hk]; [first [done | reflexivity]|]).
  by apply elem_of_nil in Hk.
Qed.

Lemma usnews_new_row_fresh (t : Merger.src_row) :
  fresh_rank_row "usnews_rank" t (Merger.usnews_new_row t).
Proof.
  split; [reflexivity|]. split; [reflexivity|]. split; [reflexivity|].
  intros k Hk Hne.
  repeat (apply elem_of_cons in Hk as [-> | Hk]; [first [done | reflexivity]|]).
  by apply elem_of_nil in Hk.
Qed.

(** C4: in the THE pass and in the US News pass alike, a row that hits
    changes one cell, the pass's own rank column of the row it is matched
    with: the length of the list, every other row and every other cell of
    that row (the other rank columns, name, country, status, coordinates)
    are unchanged; a row that misses is appended as a new row whose own rank
    is the row's and whose other rank cells, status and coordinates are
    [None]. The same holds of [merge_datasets], whose result is the two
    passes in turn: an institution that the THE table lists and QS does not
    appears in the output with [qs_rank] [None] and [the_rank] its THE value,
    and one that only the US News table lists appears with its
    [usnews_rank] alone. *)
Theorem rank_merge_frame
    (base : list Merger.record) (pre : list Merger.src_row) (t : Merger.src_row) :
  (has_key base (Merger.row_key t) ->
   (exists i,
      last_with_key base (Merger.row_key t) i
      /\ hit_frame "the_rank" (Merger.s_rank t) i
           (Merger.merge_the base pre) (Merger.merge_the base (pre ++ [t])))
   /\ (exists i,
         last_with_key base (Merger.row_key t) i
         /\ hit_frame "usnews_rank" (Merger.s_rank t) i
              (Merger.merge_usnews base pre) (Merger.merge_usnews base (pre ++ [t]))))
  /\ (~ has_key base (Merger.row_key t) ->
      exists r_the r_usnews,
        Merger.merge_the base (pre ++ [t]) = Merger.merge_the base pre ++ [r_the]
        /\ fresh_rank_row "the_rank" t r_the
        /\ Merger.merge_usnews base (pre ++ [t])
           = Merger.merge_usnews base pre ++ [r_usnews]
        /\ fresh_rank_row "usnews_rank" t r_usnews)
  /\ (forall qs_df the_df,
        let merged_the := Merger.merge_the (map Merger.qs_to_dict qs_df) the_df in
        (has_key merged_the (Merger.row_key t) ->
         exists i,
           last_with_key merged_the (Merger.row_key t) i
           /\ hit_frame "usnews_rank" (Merger.s_rank t) i
                (Merger.merge_datasets qs_df the_df pre)
                (Merger.merge_datasets qs_df the_df (pre ++ [t])))
        /\ (~ has_key merged_the (Merger.row_key t) ->
            exists r, Merger.merge_datasets qs_df the_df (pre ++ [t])
                      = Merger.merge_datasets qs_df the_df pre ++ [r]
                      /\ fresh_rank_row "usnews_rank" t r))
  /\ (forall qs_df the_df usnews_df,
        t ∈ the_df ->
        (forall q, q ∈ qs_df ->
           (Merger.q_country q, Merger.q_name_normalized q)
           <> (Merger.s_country t, Merger.s_name_normalized t)) ->
        exists r, r ∈ Merger.merge_datasets qs_df the_df usnews_df
                  /\ the_only_row t r
                  /\ Merger.frame_cell r "qs_rank" = VNone
                  /\ Merger.frame_cell r "the_rank" = Merger.s_rank t)
  /\ (forall qs_df the_df usnews_df,
        t ∈ usnews_df ->
        ~ has_key (Merger.merge_the (map Merger.qs_to_dict qs_df) the_df)
                  (Merger.row_key t) ->
        exists r, r ∈ Merger.merge_datasets qs_df the_df usnews_df
                  /\ fresh_rank_row "usnews_rank" t r
                  /\ Merger.frame_cell r "qs_rank" = VNone
                  /\ Merger.frame_cell r "the_rank" = VNone
                  /\ Merger.frame_cell r "usnews_rank" = Merger.s_rank t).
Proof.
  split; [|split; [|split; [|split]]].
  - intros Hk. split; by apply merge_table_hit_frame.
  - intros Hk.
    destruct (merge_table_step "the_rank" Merger.the_new_row base pre t)
      as (_ & Hthe & _).
    destruct (merge_table_step "usnews_rank" Merger.usnews_new_row base pre t)
      as (_ & Hus & _).
    exists (Merger.the_new_row t), (Merger.usnews_new_row t).
    split; [by apply Hthe|]. split; [apply the_new_row_fresh|].
    split; [by apply Hus|apply usnews_new_row_fresh].
  - intros qs_df the_df. cbv zeta. unfold Merger.merge_datasets. split.
    + intros Hk. by apply merge_table_hit_frame.
    + intros Hk.
      destruct (merge_table_step "usnews_rank" Merger.usnews_new_row
                  (Merger.merge_the (map Merger.qs_to_dict qs_df) the_df) pre t)
        as (_ & Hus & _).
      exists (Merger.usnews_new_row t). split; [by apply Hus|].
      apply usnews_new_row_fresh.
  - intros qs_df the_df usnews_df Hin Hqs.
    assert (~ has_key (map Merger.qs_to_dict qs_df) (Merger.row_key t)) as Hno.
    { intros (r & Hr & Hkey). apply list_elem_of_fmap in Hr as (q & -> & Hq).
      rewrite qs_record_key in Hkey. unfold Merger.row_key in Hkey.
      apply (Hqs q Hq). congruence. }
    pose proof (merge_table_appended "the_rank" Merger.the_new_row _ _ _ Hno Hin) as Hthe.
    apply elem_of_drop_elem in Hthe.
    destruct (merge_table_preserves "usnews_rank" Merger.usnews_new_row
                (the_only_row t) (Merger.merge_the (map Merger.qs_to_dict qs_df) the_df)
                usnews_df) as (r & Hr & HP).
    { intros r v. apply the_only_row_stable. }
    { exists (Merger.the_new_row t). split; [exact Hthe|apply the_only_row_new]. }
    exists r. split; [exact Hr|]. split; [exact HP|].
    destruct HP as (_ & _ & _ & Hq & Ht). unfold Merger.frame_cell.
    by rewrite Hq, Ht.
  - intros qs_df the_df usnews_df Hin Hno.
    pose proof (merge_table_appended "usnews_rank" Merger.usnews_new_row _ _ _ Hno Hin)
      as Hus.
    apply elem_of_drop_elem in Hus.
    exists (Merger.usnews_new_row t). split; [exact Hus|].
    split; [apply usnews_new_row_fresh|]. by repeat split.
Qed.

Lemma rank_merge_frame_witness :
  has_key [Merger.qs_to_dict mit_qs] (Merger.row_key mit_the)
  /\ (exists r',
        Merger.merge_the [Merger.qs_to_dict mit_qs] [mit_the] !! 0 = Some r'
        /\ r' !! "the_rank" = Some (VInt 2)
        /\ r' !! "qs_rank" = Some (VInt 1)
        /\ r' !! "status" = Some (VStr "Private"))
  /\ oxford_the ∈ [mit_the; oxford_the]
  /\ (forall q, q ∈ [mit_qs] ->
        (Merger.q_country q, Merger.q_name_normalized q)
        <> (Merger.s_country oxford_the, Merger.s_name_normalized oxford_the))
  /\ exists r, r ∈ Merger.merge_datasets [mit_qs] [mit_the; oxford_the]
                     [mit_usnews; williams_usnews]
               /\ Merger.frame_cell r "qs_rank" = VNone
               /\ Merger.frame_cell r "the_rank" = VInt 1.
Proof.
  assert (has_key [Merger.qs_to_dict mit_qs] (Merger.row_key mit_the)) as Hk.
  { exists (Merger.qs_to_dict mit_qs). split; [by left|reflexivity]. }
  assert (oxford_the ∈ [mit_the; oxford_the]) as H1.
  { apply elem_of_cons. right. by left. }
  assert (forall q, q ∈ [mit_qs] ->
            (Merger.q_country q, Merger.q_name_normalized q)
            <> (Merger.s_country oxford_the, Merger.s_name_normalized oxford_the)) as H2.
  { intros q Hq. apply list_elem_of_singleton in Hq. subst q. discriminate. }
  split; [exact Hk|]. split; [|split; [exact H1|split; [exact H2|]]].
  - destruct (proj1 (proj1 (rank_merge_frame [Merger.qs_to_dict mit_qs] [] mit_the) Hk))
      as (i & [(r0 & Hi & _) _] & _ & Hframe).
    assert (i = 0) as -> by (destruct i; [done|by destruct i]).
    destruct (Hframe 0 (Merger.qs_to_dict mit_qs) eq_refl) as (r' & Hr' & _ & Hrank & Hk').
    exists r'. split; [exact Hr'|]. split; [by apply Hrank|].
    split; by rewrite Hk'.
  - destruct (proj1 (proj2 (proj2 (proj2 (rank_merge_frame [] [] oxford_the))))
                _ _ [mit_usnews; williams_usnews] H1 H2)
      as (r & Hr & _ & Hq & Ht).
    exists r. by repeat split.
Defined.

(** ** The fuzzy name unifier *)

Section UnifierFacts.
Import MergeUni.
Variable ratio : string -> string -> Q.

Lemma find_match_Some (n : string) (seen_names : list string) (e : string) :
  find_match ratio n seen_names = Some e <-> first_similar ratio n seen_names e.
Proof.
  unfold first_similar. induction seen_names as [|x r IH]; simpl.
  { split; [done|]. intros (b & a & H & _). by destruct b. }
  destruct (Qle_bool similarity_threshold (ratio n x)) eqn:Hx.
  - split.
    + intros [= <-]. exists [], r. by repeat split.
    + intros (b & a & Hl & Hb & He). destruct b as [|y b]; simpl in Hl.
      * by injection Hl as -> _.
      * injection Hl as -> _. apply Forall_inv in Hb. congruence.
  - rewrite IH. split.
    + intros (b & a & -> & Hb & He). exists (x :: b), a.
      repeat split; [by constructor|done].
    + intros (b & a & Hl & Hb & He). destruct b as [|y b]; simpl in Hl.
      * injection Hl as -> _. congruence.
      * injection Hl as -> ->. exists b, a. repeat split; [|done].
        by apply Forall_inv_tail in Hb.
Qed.

Lemma find_match_None (n : string) (seen_names : list string) :
  find_match ratio n seen_names = None
  <-> Forall (fun x => Qle_bool similarity_threshold (ratio n x) = false) seen_names.
Proof.
  induction seen_names as [|x r IH]; simpl; [by split|].
  destruct (Qle_bool similarity_threshold (ratio n x)) eqn:Hx.
  - split; [done|]. intros H. apply Forall_inv in H. congruence.
  - rewrite IH. split; [by constructor|apply Forall_inv_tail].
Qed.

(** One row of the loop: a row joins the first similar accepted name when
    that name is not the empty string, and starts a new canonical name when
    no accepted name is similar, or when the first similar one is empty. *)
Lemma step_cases (seen_names : list string) (unique_records : list urecord) (r : row) :
  (forall e, first_similar ratio (r_name_normalized r) seen_names e -> e <> "" ->
     step ratio (seen_names, unique_records) r
     = (seen_names, update_record e (r_country r) (r_source r) unique_records))
  /\ (Forall (fun x => Qle_bool similarity_threshold
                         (ratio (r_name_normalized r) x) = false) seen_names ->
      step ratio (seen_names, unique_records) r
      = (seen_names ++ [r_name_normalized r], unique_records ++ [fresh_record r]))
  /\ (first_similar ratio (r_name_normalized r) seen_names "" ->
      step ratio (seen_names, unique_records) r
      = (seen_names ++ [r_name_normalized r], unique_records ++ [fresh_record r])).
Proof.
  unfold step. split; [|split].
  - intros e He Hne. apply find_match_Some in He. rewrite He. simpl.
    by destruct (String.eqb_spec e "").
  - intros H. apply find_match_None in H. by rewrite H.
  - intros H. apply find_match_Some in H. by rewrite H.
Qed.

End UnifierFacts.

(** *** C9: the greedy first-match clustering *)

(** C9 at its failing input: once the empty string is an accepted canonical
    name, a second row whose normalised name is empty finds it as its first
    similar name (the similarity of two empty strings reaches the threshold),
    and is nevertheless appended as a new canonical name: [if matched_name:]
    tests the truth value of the matched string. *)
Theorem empty_names_are_not_merged
    (ratio : string -> string -> Q) (r1 r2 : MergeUni.row) :
  Qle_bool MergeUni.similarity_threshold (ratio "" "") = true ->
  MergeUni.r_name_normalized r1 = "" ->
  MergeUni.r_name_normalized r2 = "" ->
  MergeUni.deduplicate ratio [r1] = ([""], [fresh_record r1])
  /\ first_similar ratio (MergeUni.r_name_normalized r2) [""] ""
  /\ MergeUni.deduplicate ratio [r1; r2]
     = ([""; ""], [fresh_record r1; fresh_record r2]).
Proof.
  intros Hratio H1 H2.
  assert (MergeUni.deduplicate ratio [r1] = ([""], [fresh_record r1])) as Hfirst.
  { unfold MergeUni.deduplicate. simpl. unfold fresh_record. by rewrite H1. }
  assert (first_similar ratio (MergeUni.r_name_normalized r2) [""] "") as Hsim.
  { exists [], []. rewrite H2. by repeat split. }
  split; [exact Hfirst|]. split; [exact Hsim|].
  change (MergeUni.deduplicate ratio [r1; r2])
    with (MergeUni.step ratio (MergeUni.deduplicate ratio [r1]) r2).
  rewrite Hfirst.
  destruct (step_cases ratio [""] [fresh_record r1] r2) as (_ & _ & Hempty).
  rewrite (Hempty Hsim). by rewrite H2.
Qed.

Lemma empty_names_are_not_merged_witness :
  Qle_bool MergeUni.similarity_threshold (MergeUni.indel_ratio "" "") = true
  /\ MergeUni.normalize_name MergeUni.ascii_only (MergeUni.r_name punctuation_1)
     = Ok (MergeUni.r_name_normalized punctuation_1)
  /\ MergeUni.normalize_name MergeUni.ascii_only (MergeUni.r_name punctuation_2)
     = Ok (MergeUni.r_name_normalized punctuation_2)
  /\ MergeUni.deduplicate MergeUni.indel_ratio [punctuation_1; punctuation_2]
     = ([""; ""], [fresh_record punctuation_1; fresh_record punctuation_2]).
Proof.
  assert (Qle_bool MergeUni.similarity_threshold (MergeUni.indel_ratio "" "") = true)
    as Hratio by reflexivity.
  split; [exact Hratio|]. split; [reflexivity|]. split; [reflexivity|].
  exact (proj2 (proj2 (empty_names_are_not_merged MergeUni.indel_ratio
                         punctuation_1 punctuation_2 Hratio eq_refl eq_refl))).
Defined.

(** * Further properties of the code *)

(** ** Trimming and case *)

Section MoreStringFacts.

Lemma rstrip_idem (l : chars) : Py.rstrip (Py.rstrip l) = Py.rstrip l.
Proof.
  induction l as [|c r IH]; [done|].
  rewrite rstrip_cons. destruct (Py.rstrip r) as [|d r'] eqn:Hr.
  - destruct (isspace c) eqn:Hc; [done|]. simpl. by rewrite Hc.
  - rewrite rstrip_cons, IH. done.
Qed.

Lemma lstrip_is_headed (l : chars) : headed (Py.lstrip l) = true.
Proof.
  unfold Py.lstrip. induction l as [|c r IH]; [done|].
  simpl. destruct (isspace c) eqn:Hc; [done|]. simpl. by rewrite Hc.
Qed.

Lemma strip_idem (l : chars) : Py.strip (Py.strip l) = Py.strip l.
Proof.
  unfold Py.strip.
  rewrite (lstrip_headed_id (Py.rstrip (Py.lstrip l)))
    by apply rstrip_headed, lstrip_is_headed.
  apply rstrip_idem.
Qed.

Lemma lstrip_lower (l : chars) : Py.lstrip (Py.lower l) = Py.lower (Py.lstrip l).
Proof.
  unfold Py.lstrip, Py.lower. induction l as [|c r IH]; [done|].
  simpl. rewrite lower_char_space. by destruct (isspace c).
Qed.

Lemma rstrip_lower (l : chars) : Py.rstrip (Py.lower l) = Py.lower (Py.rstrip l).
Proof.
  unfold Py.lower. induction l as [|c r IH]; [done|].
  cbn [map]. rewrite !rstrip_cons, IH, lower_char_space.
  destruct (Py.rstrip r); [by destruct (isspace c)|done].
Qed.

Lemma strip_lower (l : chars) : Py.strip (Py.lower l) = Py.lower (Py.strip l).
Proof. unfold Py.strip. by rewrite lstrip_lower, rstrip_lower. Qed.

Lemma lower_idem (l : chars) : Py.lower (Py.lower l) = Py.lower l.
Proof.
  unfold Py.lower. induction l as [|c r IH]; [done|].
  simpl. by rewrite lower_char_idem, IH.
Qed.

Lemma py_strip_idem (s : string) : py_strip (py_strip s) = py_strip s.
Proof. unfold py_strip. by rewrite to_of_chars, strip_idem. Qed.

Lemma py_strip_lower (s : string) : py_strip (py_lower s) = py_lower (py_strip s).
Proof. unfold py_strip, py_lower. by rewrite !to_of_chars, strip_lower. Qed.

Lemma py_lower_idem (s : string) : py_lower (py_lower s) = py_lower s.
Proof. unfold py_lower. by rewrite to_of_chars, lower_idem. Qed.

End MoreStringFacts.

(** ** The normalisers *)

Ltac map_cases H :=
  apply elem_of_list_to_map_2 in H;
  repeat (apply elem_of_cons in H as [H | H];
          [first [discriminate H | injection H as -> ->]|]);
  [..|by apply elem_of_nil in H].

(** X1: [normalize_country] is idempotent, and what it returns has no
    whitespace around it. *)
Theorem normalize_country_idempotent (country : value) :
  Normalizer.normalize_country (VStr (Normalizer.normalize_country country))
  = Normalizer.normalize_country country
  /\ py_strip (Normalizer.normalize_country country)
     = Normalizer.normalize_country country.
Proof.
  unfold Normalizer.normalize_country.
  destruct (isna country) eqn:Hna; [by split|]. simpl isna. cbv iota.
  set (c := py_strip (py_str country)).
  assert (py_strip c = c) as Hc by apply py_strip_idem.
  destruct (Normalizer.country_map !! c) as [x|] eqn:Hx; simpl default.
  - unfold Normalizer.country_map in Hx. clearbody c. clear Hc.
    map_cases Hx; split; vm_compute; reflexivity.
  - rewrite Hc. simpl py_str. rewrite Hc, Hx. simpl. by rewrite Hc.
Qed.

(** X2: the filter on China-related regions works on the raw region, trimmed
    and compared as it is written; a region that passes it is never
    normalised to an excluded country, so no row of the cleaned QS and THE
    tables has one, and every row of the cleaned US News table has the
    country "United States of America". *)
Theorem cleaned_tables_exclude_china
    (qs : list Rankings.raw_qs) (the : list Rankings.raw_the)
    (usnews : list Rankings.raw_usnews) :
  (forall region,
     Rankings.is_china_related region = false ->
     ~ In (Normalizer.normalize_country region) Rankings.EXCLUDE_COUNTRIES)
  /\ (forall q, q ∈ Rankings.load_and_clean_qs qs ->
                ~ In (Merger.q_country q) Rankings.EXCLUDE_COUNTRIES)
  /\ (forall t, t ∈ Rankings.load_and_clean_the the ->
                ~ In (Merger.s_country t) Rankings.EXCLUDE_COUNTRIES)
  /\ (forall t, t ∈ Rankings.load_and_clean_usnews usnews ->
                Merger.s_country t = "United States of America")
  /\ Rankings.is_china_related (VStr " Hong Kong ") = true
  /\ Rankings.is_china_related (VStr "china") = false
  /\ Rankings.is_china_related VNaN = false.
Proof.
  assert (Hkey : forall region,
             Rankings.is_china_related region = false ->
             ~ In (Normalizer.normalize_country region) Rankings.EXCLUDE_COUNTRIES).
  { intros region H. rewrite <- in_list_In.
    unfold Rankings.is_china_related, Normalizer.normalize_country in *.
    destruct (isna region); [by_compute|].
    set (c := py_strip (py_str region)) in *.
    assert (py_strip c = c) as Hc by apply py_strip_idem.
    destruct (Normalizer.country_map !! c) as [x|] eqn:Hx; simpl default.
    - unfold Normalizer.country_map in Hx. clearbody c. clear Hc.
      map_cases Hx; first [by_compute | vm_compute in H; discriminate].
    - rewrite Hc. by rewrite H. }
  split; [exact Hkey|]. split; [|split; [|split]].
  - intros q Hq. unfold Rankings.load_and_clean_qs in Hq.
    apply list_elem_of_fmap in Hq as (r & -> & Hr).
    apply list_elem_of_In, filter_In in Hr as [_ Hr]. simpl.
    apply Hkey. by apply negb_true_iff in Hr.
  - intros t Ht. unfold Rankings.load_and_clean_the in Ht.
    apply list_elem_of_fmap in Ht as (r & -> & Hr).
    apply list_elem_of_In, filter_In in Hr as [_ Hr]. simpl.
    apply Hkey. by apply negb_true_iff in Hr.
  - intros t Ht. unfold Rankings.load_and_clean_usnews in Ht.
    by apply list_elem_of_fmap in Ht as (r & -> & Hr).
  - repeat split.
Qed.

Lemma normalize_nature_str (s : string) :
  Normalizer.normalize_nature_of_running (VStr s)
  = if existsb (fun term => py_contains (py_lower (py_strip s)) term)
              Normalizer.private_terms
    then VStr "Private"
    else if existsb (fun term => py_contains (py_lower (py_strip s)) term)
                   Normalizer.public_terms
    then VStr "Public"
    else VNone.
Proof. reflexivity. Qed.

(** X3: [normalize_nature_of_running] returns "Private", "Public" or [None];
    its answer does not depend on the case of the status nor on the whitespace
    around it; a status that contains a private indicator is "Private"
    whatever else it contains. *)
Theorem normalize_nature_cases (status : value) :
  (Normalizer.normalize_nature_of_running status = VStr "Private"
   \/ Normalizer.normalize_nature_of_running status = VStr "Public"
   \/ Normalizer.normalize_nature_of_running status = VNone)
  /\ (forall s, Normalizer.normalize_nature_of_running (VStr (py_lower s))
                = Normalizer.normalize_nature_of_running (VStr s))
  /\ (forall s, Normalizer.normalize_nature_of_running (VStr (py_strip s))
                = Normalizer.normalize_nature_of_running (VStr s))
  /\ (forall s term,
        In term Normalizer.private_terms ->
        py_contains (py_lower (py_strip s)) term = true ->
        Normalizer.normalize_nature_of_running (VStr s) = VStr "Private").
Proof.
  split; [|split; [|split]].
  - unfold Normalizer.normalize_nature_of_running.
    destruct (isna status); [auto|].
    destruct (existsb _ Normalizer.private_terms); [auto|].
    destruct (existsb _ Normalizer.public_terms); auto.
  - intros s. rewrite !normalize_nature_str.
    by rewrite py_strip_lower, py_lower_idem.
  - intros s. rewrite !normalize_nature_str. by rewrite py_strip_idem.
  - intros s term Hin Hc. rewrite normalize_nature_str.
    assert (existsb (fun term => py_contains (py_lower (py_strip s)) term)
                    Normalizer.private_terms = true) as ->; [|done].
    apply existsb_exists. eauto.
Qed.

Lemma normalize_nature_cases_witness :
  In "not for profit" Normalizer.private_terms
  /\ py_contains (py_lower (py_strip " Public, Not For Profit ")) "not for profit" = true
  /\ Normalizer.normalize_nature_of_running (VStr " Public, Not For Profit ")
     = VStr "Private".
Proof.
  assert (In "not for profit" Normalizer.private_terms) as H1 by (right; left; reflexivity).
  assert (py_contains (py_lower (py_strip " Public, Not For Profit ")) "not for profit"
          = true) as H2 by reflexivity.
  split; [exact H1|]. split; [exact H2|].
  exact (proj2 (proj2 (proj2 (normalize_nature_cases VNone))) _ _ H1 H2).
Defined.

(** X4: a normalised name is a fixed point of every cleaning step: trimming,
    lower-casing, the replacement of commas and the collapsing of whitespace
    leave it as it is; and [normalize_name] does not depend on the case of
    the name nor on the whitespace around it. *)
Theorem normalize_name_shape (name : value) :
  let n := MergeRankings.normalize_name name in
  (py_strip n = n /\ py_lower n = n
   /\ Py.replace_comma (to_chars n) = to_chars n
   /\ Py.collapse_ws (to_chars n) = to_chars n)
  /\ (forall s, MergeRankings.normalize_name (VStr (py_lower s))
                = MergeRankings.normalize_name (VStr s))
  /\ (forall s, MergeRankings.normalize_name (VStr (py_strip s))
                = MergeRankings.normalize_name (VStr s)).
Proof.
  cbv zeta. split; [|split].
  - destruct (normalize_name_chars name) as [l ->].
    destruct (normalize_chars_normal l) as (Ht & Hh & Hs).
    unfold py_strip, py_lower. rewrite !to_of_chars.
    rewrite strip_clean_id, lower_settled_id, replace_comma_settled_id,
      collapse_clean_id by done.
    done.
  - intros s. rewrite !normalize_name_str. f_equal.
    unfold py_lower. rewrite to_of_chars.
    unfold MergeRankings.normalize_chars.
    by rewrite strip_lower, lower_idem.
  - intros s. rewrite !normalize_name_str. f_equal.
    unfold py_strip. rewrite to_of_chars.
    unfold MergeRankings.normalize_chars. by rewrite strip_idem.
Qed.

(** ** Names and keys *)

Lemma normalize_name_clean (name : value) :
  py_strip (MergeRankings.normalize_name name) = MergeRankings.normalize_name name
  /\ py_lower (MergeRankings.normalize_name name) = MergeRankings.normalize_name name.
Proof.
  destruct (normalize_name_chars name) as [l ->].
  destruct (normalize_chars_normal l) as (Ht & Hh & Hs).
  unfold py_strip, py_lower. rewrite !to_of_chars.
  by rewrite strip_clean_id, lower_settled_id.
Qed.

Lemma add_nonempty_elem (k x : string) (X : gset string) :
  k ∈ Matcher.add_nonempty x X <-> (k = x /\ x <> "") \/ k ∈ X.
Proof.
  unfold Matcher.add_nonempty. destruct (String.eqb_spec x "") as [->|Hx].
  - split; [auto|]. by intros [[_ ?]|?].
  - rewrite elem_of_union, elem_of_singleton. tauto.
Qed.

Lemma alias_norm_eq (alias : string) :
  (if String.eqb alias "" then "" else MergeRankings.normalize_name (VStr alias))
  = MergeRankings.normalize_name (VStr alias).
Proof. by destruct (String.eqb_spec alias "") as [->|]. Qed.

(** Where a key of [build_name_keys] comes from *)
Lemma build_name_keys_origin (name : value) (k : string) :
  k ∈ Matcher.build_name_keys name ->
  k <> ""
  /\ (k = MergeRankings.normalize_name name
      \/ k = MergeRankings.normalize_name (VStr (fst (Matcher.extract_base_and_alias name)))
      \/ k = MergeRankings.normalize_name (VStr (snd (Matcher.extract_base_and_alias name)))
      \/ exists a, Matcher.abbreviations !! a = Some k).
Proof.
  unfold Matcher.build_name_keys.
  destruct (Matcher.extract_base_and_alias name) as [base alias]. simpl fst. simpl snd.
  rewrite alias_norm_eq.
  set (an := MergeRankings.normalize_name (VStr alias)).
  set (base_keys := Matcher.add_nonempty _ (Matcher.add_nonempty _ ∅)).
  assert (Hbase : k ∈ base_keys ->
                  k <> "" /\ (k = MergeRankings.normalize_name name
                              \/ k = MergeRankings.normalize_name (VStr base))).
  { unfold base_keys. rewrite !add_nonempty_elem.
    intros [[-> ?]|[[-> ?]|H]]; [auto|auto|by apply elem_of_empty in H]. }
  assert (Hexp : forall a e, Matcher.abbreviations !! a = Some e -> e <> "").
  { intros a e He ->. unfold Matcher.abbreviations in He. map_cases He. }
  destruct (String.eqb_spec an "") as [Han|Han]; simpl.
  { intros H. destruct (Hbase H) as [? [?|?]]; auto. }
  destruct (0 <? py_len an)%nat.
  2:{ intros H. destruct (Hbase H) as [? [?|?]]; auto. }
  assert (Hmid : k ∈ (if (2 <? py_len an)%nat
                      then if negb (Matcher.in_list (py_lower an) Matcher.disallowed_short)
                           then base_keys ∪ {[an]} else base_keys
                      else base_keys) ->
                 k <> "" /\ (k = MergeRankings.normalize_name name
                             \/ k = MergeRankings.normalize_name (VStr base)
                             \/ k = an)).
  { destruct (2 <? py_len an)%nat;
      [destruct (negb (Matcher.in_list (py_lower an) Matcher.disallowed_short))|];
      intros H; try (apply elem_of_union in H as [H|H]);
      try (apply elem_of_singleton in H; subst k; by auto);
      destruct (Hbase H) as [? [?|?]]; auto. }
  destruct (Matcher.abbreviations !! an) as [e|] eqn:He.
  - intros H. apply elem_of_union in H as [H|H].
    + destruct (Hmid H) as [? [?|[?|?]]]; auto.
    + apply elem_of_singleton in H. subst k. split; [by eapply Hexp|eauto 6].
  - intros H. destruct (Hmid H) as [? [?|[?|?]]]; auto.
Qed.

Lemma full_name_is_key (name : value) :
  MergeRankings.normalize_name name <> "" ->
  MergeRankings.normalize_name name ∈ Matcher.build_name_keys name.
Proof.
  intros Hn. unfold Matcher.build_name_keys.
  destruct (Matcher.extract_base_and_alias name) as [base alias].
  unfold Matcher.add_nonempty.
  destruct (String.eqb_spec (MergeRankings.normalize_name name) "") as [|_]; [done|].
  repeat match goal with
         | |- context [if ?x then _ else _] => destruct x
         | |- context [match ?x with Some _ => _ | None => _ end] => destruct x
         end; set_solver.
Qed.

Lemma abbreviations_clean (a e : string) :
  Matcher.abbreviations !! a = Some e -> py_strip e = e /\ py_lower e = e.
Proof.
  unfold Matcher.abbreviations. intros H. map_cases H; by split.
Qed.

(** X5: the keys of a name are in normal form and never empty: no key is
    the empty string, every key is unchanged by trimming and lower-casing,
    and the normalised full name is a key whenever it is not empty. *)
Theorem build_name_keys_invariants (name : value) :
  ("" ∉ Matcher.build_name_keys name)
  /\ (forall k, k ∈ Matcher.build_name_keys name -> py_strip k = k /\ py_lower k = k)
  /\ (MergeRankings.normalize_name name <> "" ->
      MergeRankings.normalize_name name ∈ Matcher.build_name_keys name)
  /\ (MergeRankings.normalize_name name = "" ->
      (forall s, name <> VStr s) ->
      Matcher.build_name_keys name = ∅).
Proof.
  split; [|split; [|split]].
  - intros H. by apply build_name_keys_origin in H as [H _].
  - intros k Hk. apply build_name_keys_origin in Hk as [_ [->|[->|[->|[a Ha]]]]];
      try apply normalize_name_clean. by apply abbreviations_clean in Ha.
  - apply full_name_is_key.
  - intros Hn Hs. unfold Matcher.build_name_keys.
    assert (Matcher.extract_base_and_alias name = ("", "")) as ->.
    { destruct name as [| |s|]; try reflexivity. by destruct (Hs s). }
    rewrite Hn. reflexivity.
Qed.

Lemma build_name_keys_invariants_witness :
  MergeRankings.normalize_name (VStr "The University of Georgia") <> ""
  /\ ("university of georgia" ∈ Matcher.build_name_keys (VStr "The University of Georgia"))
  /\ MergeRankings.normalize_name VNaN = ""
  /\ Matcher.build_name_keys VNaN = ∅.
Proof.
  assert (MergeRankings.normalize_name (VStr "The University of Georgia") <> "") as H1
      by (vm_compute; discriminate).
  assert (MergeRankings.normalize_name VNaN = "") as H2 by reflexivity.
  assert (forall s, VNaN <> VStr s) as H3 by (intros s; discriminate).
  split; [exact H1|]. split; [|split; [exact H2|]].
  - exact (proj1 (proj2 (proj2 (build_name_keys_invariants _))) H1).
  - exact (proj2 (proj2 (proj2 (build_name_keys_invariants VNaN))) H2 H3).
Defined.

(** X6: [exact_name_match] is symmetric and transitive, and a name matches
    itself exactly when its normalised form is not empty; two names that
    match exactly share a key, so two rows of the same non-blank country
    whose names match exactly are the same university for the bracket-aware
    matcher, unless the normalised name is made of generic words only. *)
Theorem exact_name_match_relation (n1 n2 n3 : value) :
  Rankings.exact_name_match n1 n2 = Rankings.exact_name_match n2 n1
  /\ (Rankings.exact_name_match n1 n2 = true ->
      Rankings.exact_name_match n2 n3 = true ->
      Rankings.exact_name_match n1 n3 = true)
  /\ (Rankings.exact_name_match n1 n1 = true <-> MergeRankings.normalize_name n1 <> "")
  /\ (Rankings.exact_name_match n1 n2 = true ->
      MergeRankings.normalize_name n1
      ∈ Matcher.build_name_keys n1 ∩ Matcher.build_name_keys n2)
  /\ (forall a b : gmap string value,
        a !! "Name" = Some n1 -> b !! "Name" = Some n2 ->
        Rankings.exact_name_match n1 n2 = true ->
        Matcher.country_text (Dedup.with_keys a) <> "" ->
        Matcher.country_text (Dedup.with_keys a)
        = Matcher.country_text (Dedup.with_keys b) ->
        ~ generic_key (MergeRankings.normalize_name n1) ->
        Matcher.is_same_university (Dedup.with_keys a) (Dedup.with_keys b) = true).
Proof.
  unfold Rankings.exact_name_match.
  assert (Hshare : String.eqb (MergeRankings.normalize_name n1)
                              (MergeRankings.normalize_name n2)
                   && negb (String.eqb (MergeRankings.normalize_name n1) "") = true ->
                   MergeRankings.normalize_name n1
                   ∈ Matcher.build_name_keys n1 ∩ Matcher.build_name_keys n2).
  { intros H. apply andb_prop in H as [He Hn].
    apply String.eqb_eq in He. apply negb_true_iff, String.eqb_neq in Hn.
    apply elem_of_intersection. split; [by apply full_name_is_key|].
    rewrite He. apply full_name_is_key. by rewrite <- He. }
  split; [|split; [|split; [|split]]].
  - destruct (String.eqb_spec (MergeRankings.normalize_name n1)
                              (MergeRankings.normalize_name n2)) as [->|Hne].
    + by rewrite String.eqb_refl.
    + simpl. destruct (String.eqb_spec (MergeRankings.normalize_name n2)
                                       (MergeRankings.normalize_name n1)); [|done].
      by destruct Hne.
  - intros H12 H23. apply andb_prop in H12 as [H12 Hn1].
    apply andb_prop in H23 as [H23 _].
    apply String.eqb_eq in H12, H23. rewrite Hn1, andb_true_r.
    apply String.eqb_eq. congruence.
  - rewrite String.eqb_refl. simpl. rewrite negb_true_iff. apply String.eqb_neq.
  - exact Hshare.
  - intros a b Ha Hb Hm Hca Hcab Hgen.
    apply is_same_university_spec. split; [done|]. split; [done|].
    exists (MergeRankings.normalize_name n1). split; [|done].
    unfold shared_keys, Dedup.with_keys. simpl. rewrite Ha, Hb. simpl.
    by apply Hshare.
Qed.

Lemma exact_name_match_relation_witness :
  let a : gmap string value :=
    {[ "Name" := VStr "The University of Georgia"; "Country" := VStr "USA" ]} in
  let b : gmap string value :=
    {[ "Name" := VStr "university  of georgia"; "Country" := VStr "usa " ]} in
  Rankings.exact_name_match (VStr "The University of Georgia")
                            (VStr "university  of georgia") = true
  /\ Matcher.is_same_university (Dedup.with_keys a) (Dedup.with_keys b) = true.
Proof.
  cbv zeta.
  assert (Rankings.exact_name_match (VStr "The University of Georgia")
                                    (VStr "university  of georgia") = true) as Hm
      by reflexivity.
  split; [exact Hm|].
  refine (proj2 (proj2 (proj2 (proj2
            (exact_name_match_relation (VStr "The University of Georgia")
               (VStr "university  of georgia") VNone)))) _ _ _ _ Hm _ _ _).
  - reflexivity.
  - reflexivity.
  - vm_compute. discriminate.
  - reflexivity.
  - not_generic.
Defined.

(** X7: the bracket-aware matcher is symmetric, and a row matches itself
    exactly when its country text is not empty and one of its keys is not
    made of generic words only. *)
Theorem is_same_university_symmetric (a b : Matcher.drow) :
  Matcher.is_same_university a b = Matcher.is_same_university b a
  /\ (Matcher.is_same_university a a = true
      <-> Matcher.country_text a <> ""
          /\ exists key, key ∈ Matcher._name_keys a /\ ~ generic_key key).
Proof.
  split.
  - apply eq_true_iff_eq. rewrite !is_same_university_spec. unfold shared_keys.
    split; intros (Hc & Hcc & k & Hk & Hg);
      apply elem_of_intersection in Hk as [Hk1 Hk2].
    + split; [congruence|]. split; [done|]. exists k.
      split; [by apply elem_of_intersection|done].
    + split; [congruence|]. split; [done|]. exists k.
      split; [by apply elem_of_intersection|done].
  - rewrite is_same_university_spec. unfold shared_keys. split.
    + intros (Hc & _ & k & Hk & Hg). apply elem_of_intersection in Hk as [Hk _].
      split; [done|]. by exists k.
    + intros (Hc & k & Hk & Hg). split; [done|]. split; [done|].
      exists k. split; [by apply elem_of_intersection|done].
Qed.

(** ** The bracket pattern *)

Section BracketFacts.
Import Matcher.

Lemma drop_while_split (p : ascii -> bool) (l : chars) :
  exists ws, l = ws ++ Py.drop_while p l /\ Forall (fun c => p c = true) ws.
Proof.
  induction l as [|c r (ws & Hr & Hws)]; [by exists []|].
  simpl. destruct (p c) eqn:Hc.
  - exists (c :: ws). split; [simpl; by f_equal|by constructor].
  - by exists [].
Qed.

Lemma rstrip_split (l : chars) :
  exists trail, l = Py.rstrip l ++ trail /\ Forall (fun c => isspace c = true) trail.
Proof.
  induction l as [|c r (trail & Hr & Ht)]; [by exists []|].
  rewrite rstrip_cons. destruct (Py.rstrip r) as [|d r'] eqn:E.
  - simpl in Hr. subst r. destruct (isspace c) eqn:Hc.
    + exists (c :: trail). split; [done|by constructor].
    + by exists trail.
  - exists trail. split; [|done]. simpl. by f_equal.
Qed.

Lemma match_tail_sound (r a : chars) :
  match_tail r = Some a ->
  exists trail,
    r = a ++ ")"%char :: trail
    /\ Forall (fun c => isspace c = true) trail
    /\ Forall (fun c => is_newline c = false) a.
Proof.
  unfold match_tail. destruct (rstrip_split r) as (trail & Hr & Ht).
  destruct (rev (Py.rstrip r)) as [|c a'] eqn:E; [done|].
  destruct (Ascii.eqb_spec c ")") as [->|Hc].
  2:{ destruct c as [[|] [|] [|] [|] [|] [|] [|] [|]]; try done; by destruct Hc. }
  destruct (existsb is_newline a') eqn:Hnl; [done|]. intros [= <-].
  exists trail. split; [|split; [done|]].
  - rewrite Hr at 1. rewrite <- (rev_involutive (Py.rstrip r)), E. simpl.
    by rewrite <- app_assoc.
  - apply Forall_forall. intros x Hx. apply list_elem_of_In, in_rev in Hx.
    destruct (is_newline x) eqn:Hxn; [|done].
    assert (existsb is_newline a' = true); [|congruence].
    apply existsb_exists. eauto.
Qed.

Lemma match_here_sound (s a : chars) :
  match_here s = Some a ->
  exists ws trail,
    s = ws ++ "("%char :: a ++ ")"%char :: trail
    /\ Forall (fun c => isspace c = true) ws
    /\ Forall (fun c => isspace c = true) trail
    /\ Forall (fun c => is_newline c = false) a.
Proof.
  unfold match_here. destruct (drop_while_split isspace s) as (ws & Hs & Hws).
  destruct (Py.drop_while isspace s) as [|c r] eqn:E; [done|].
  destruct (Ascii.eqb_spec c "(") as [->|Hc].
  2:{ destruct c as [[|] [|] [|] [|] [|] [|] [|] [|]]; try done; by destruct Hc. }
  intros H. apply match_tail_sound in H as (trail & -> & Ht & Ha).
  by exists ws, trail.
Qed.

Lemma match_from_sound (s p g1 a : chars) :
  match_from p s = Some (g1, a) ->
  exists s1 ws trail,
    s = s1 ++ ws ++ "("%char :: a ++ ")"%char :: trail
    /\ g1 = rev p ++ s1
    /\ Forall (fun c => is_newline c = false) s1
    /\ Forall (fun c => isspace c = true) ws
    /\ Forall (fun c => isspace c = true) trail
    /\ Forall (fun c => is_newline c = false) a.
Proof.
  revert p. induction s as [|c r IH]; intros p; [done|].
  cbn [match_from].
  - destruct (match_here (c :: r)) as [x|] eqn:E.
    + intros [= <- <-]. apply match_here_sound in E as (ws & trail & Hs & Hw & Ht & Ha).
      exists [], ws, trail. rewrite app_nil_r. by repeat split.
    + destruct (is_newline c) eqn:Hc; [done|]. intros H.
      apply IH in H as (s1 & ws & trail & -> & -> & H1 & Hw & Ht & Ha).
      exists (c :: s1), ws, trail. simpl. rewrite <- app_assoc. simpl.
      repeat split; try done. by constructor.
Qed.

End BracketFacts.

(** X8: when the bracket pattern matches, its two groups reassemble the
    text: the text is the first group, whitespace, an opening parenthesis,
    the second group, a closing parenthesis and whitespace, and neither group
    holds a newline. So a name without an opening parenthesis is never
    split: [extract_base_and_alias] returns it trimmed and lower-cased, with
    an empty alias. *)
Theorem bracket_match_reassembles (s g1 g2 : chars) :
  (Matcher.re_match_bracket s = Some (g1, g2) ->
   exists ws trail,
     s = g1 ++ ws ++ "("%char :: g2 ++ ")"%char :: trail
     /\ Forall (fun c => isspace c = true) ws
     /\ Forall (fun c => isspace c = true) trail
     /\ Forall (fun c => is_newline c = false) g1
     /\ Forall (fun c => is_newline c = false) g2)
  /\ ("("%char ∉ s -> Matcher.re_match_bracket s = None)
  /\ (forall name,
        "("%char ∉ to_chars (py_lower (py_strip name)) ->
        Matcher.extract_base_and_alias (VStr name) = (py_lower (py_strip name), "")).
Proof.
  assert (Hsound : forall s g1 g2,
             Matcher.re_match_bracket s = Some (g1, g2) ->
             exists ws trail,
               s = g1 ++ ws ++ "("%char :: g2 ++ ")"%char :: trail
               /\ Forall (fun c => isspace c = true) ws
               /\ Forall (fun c => isspace c = true) trail
               /\ Forall (fun c => is_newline c = false) g1
               /\ Forall (fun c => is_newline c = false) g2).
  { clear. intros s g1 g2 H. unfold Matcher.re_match_bracket in H.
    apply match_from_sound in H as (s1 & ws & trail & -> & -> & H1 & Hw & Ht & Ha).
    by exists ws, trail. }
  assert (Hnone : forall s, "("%char ∉ s -> Matcher.re_match_bracket s = None).
  { clear -Hsound. intros s Hs.
    destruct (Matcher.re_match_bracket s) as [[g1 g2]|] eqn:E; [|done].
    apply Hsound in E as (ws & trail & -> & _). destruct Hs.
    apply elem_of_app. right. apply elem_of_app. right. by left. }
  split; [apply Hsound|]. split; [apply Hnone|].
  intros name Hname. unfold Matcher.extract_base_and_alias.
  by rewrite Hnone.
Qed.

Lemma bracket_match_reassembles_witness :
  Matcher.re_match_bracket (to_chars "eth zurich  (swiss federal institute) ")
  = Some (to_chars "eth zurich", to_chars "swiss federal institute")
  /\ exists ws trail,
       to_chars "eth zurich  (swiss federal institute) "
       = to_chars "eth zurich" ++ ws
         ++ "("%char :: to_chars "swiss federal institute" ++ ")"%char :: trail.
Proof.
  assert (Matcher.re_match_bracket (to_chars "eth zurich  (swiss federal institute) ")
          = Some (to_chars "eth zurich", to_chars "swiss federal institute")) as H
      by reflexivity.
  split; [exact H|].
  destruct (proj1 (bracket_match_reassembles _ _ _) H) as (ws & trail & Heq & _).
  by exists ws, trail.
Defined.

(** ** The groups of the deduplication pass as a whole *)

Section PartitionFacts.
Import Matcher Dedup.

Lemma seed_group_members (df : list drow) (consumed : nat -> bool) (i : nat)
    (row_i : drow) (x : nat) :
  df !! i = Some row_i ->
  x ∈ seed_group df consumed i row_i ->
  x < length df /\ i <= x /\ (x <> i -> consumed x = false).
Proof.
  intros Hi Hx. apply lookup_lt_Some in Hi. unfold seed_group in Hx.
  apply elem_of_cons in Hx as [->|Hx]; [split; [done|split; [lia|done]]|].
  apply list_elem_of_In, filter_In in Hx as [Hseq Hjoin].
  apply in_seq in Hseq. unfold joins_seed in Hjoin.
  apply andb_prop in Hjoin as [Hc _]. apply negb_true_iff in Hc.
  split; [lia|]. split; [lia|done].
Qed.

Lemma filter_seq_sorted (f : nat -> bool) (start len : nat) :
  StronglySorted lt (List.filter f (seq start len)).
Proof.
  revert start. induction len as [|len IH]; intros start; simpl; [constructor|].
  destruct (f start); [|apply IH].
  constructor; [apply IH|].
  apply Forall_forall. intros x Hx.
  apply list_elem_of_In, filter_In in Hx as [Hx _]. apply in_seq in Hx. lia.
Qed.

Lemma seed_group_sorted (df : list drow) (consumed : nat -> bool) (i : nat)
    (row_i : drow) :
  StronglySorted lt (seed_group df consumed i row_i).
Proof.
  unfold seed_group. constructor; [apply filter_seq_sorted|].
  apply Forall_forall. intros x Hx.
  apply list_elem_of_In, filter_In in Hx as [Hx _]. apply in_seq in Hx. lia.
Qed.

Lemma sorted_lt_NoDup (l : list nat) : StronglySorted lt l -> NoDup l.
Proof.
  induction 1 as [|x r Hr IH Hx]; constructor; [|done].
  intros Hin. rewrite Forall_forall in Hx. specialize (Hx x Hin). lia.
Qed.

Lemma concat_groups_NoDup (groups : list (list nat)) :
  (forall n g, groups !! n = Some g ->
               NoDup g /\ forall x, x ∈ g -> x ∉ concat (take n groups)) ->
  NoDup (concat groups).
Proof.
  induction groups as [|g gs IH] using rev_ind; intros H; [constructor|].
  rewrite concat_app. simpl. rewrite app_nil_r.
  destruct (H (length gs) g) as [Hg Hdis]; [by rewrite list_lookup_middle|].
  rewrite take_app_length in Hdis.
  apply NoDup_app. split; [|split; [|done]].
  - apply IH. intros n g' Hn.
    destruct (H n g') as [Hg' Hd'].
    { rewrite lookup_app_l; [done|]. by apply lookup_lt_Some in Hn. }
    split; [done|]. intros x Hx.
    rewrite take_app_le in Hd' by (apply lookup_lt_Some in Hn; lia). auto.
  - intros x Hx Hxg. by apply (Hdis x).
Qed.

(** The groups cover the positions of the table, each once. *)
Lemma group_records_cover (df : list drow) :
  NoDup (concat (group_records df))
  /\ (forall x, x ∈ concat (group_records df) <-> x < length df)
  /\ Forall (fun g => g <> [] /\ StronglySorted lt g) (group_records df).
Proof.
  unfold group_records.
  destruct (outer_loop df (length df)) as (used & groups & -> & Hused & Hall & Hg);
    [lia|]. simpl.
  assert (Hgroup : forall n g, groups !! n = Some g ->
            g <> [] /\ StronglySorted lt g
            /\ (forall x, x ∈ g -> x < length df)
            /\ (forall x, x ∈ g -> x ∉ concat (take n groups))).
  { intros n g Hn. destruct (Hg n g Hn) as (i & row_i & Hi & Hci & _ & ->).
    split; [done|]. split; [apply seed_group_sorted|]. split.
    - intros x Hx. by apply (seed_group_members df _ i row_i x Hi) in Hx as [? _].
    - intros x Hx. destruct (seed_group_members df _ i row_i x Hi Hx) as (_ & _ & Hc).
      unfold consumed_before in *.
      destruct (decide (x = i)) as [->|Hne].
      + by rewrite bool_decide_eq_false in Hci.
      + specialize (Hc Hne). by rewrite bool_decide_eq_false in Hc. }
  split; [|split].
  - apply concat_groups_NoDup. intros n g Hn.
    destruct (Hgroup n g Hn) as (_ & Hs & _ & Hd).
    split; [by apply sorted_lt_NoDup|done].
  - intros x. split.
    + intros Hx. apply list_elem_of_In, in_concat in Hx as (g & Hgin & Hxg).
      apply list_elem_of_In, list_elem_of_lookup in Hgin as [n Hn].
      destruct (Hgroup n g Hn) as (_ & _ & Hb & _). apply Hb.
      by apply list_elem_of_In.
    + intros Hx. apply Hall in Hx. rewrite Hused in Hx.
      by apply elem_of_list_to_set in Hx.
  - apply Forall_forall. intros g Hgin.
    apply list_elem_of_lookup in Hgin as [n Hn].
    destruct (Hgroup n g Hn) as (? & ? & _). done.
Qed.

Lemma group_records_perm (df : list drow) :
  concat (group_records df) ≡ₚ seq 0 (length df).
Proof.
  destruct (group_records_cover df) as (Hnd & Hcov & _).
  apply NoDup_Permutation; [done|apply NoDup_ListNoDup, List.seq_NoDup|].
  intros x. rewrite Hcov, list_elem_of_In, in_seq. lia.
Qed.

Lemma group_records_count (df : list drow) : length (group_records df) <= length df.
Proof.
  assert (length (concat (group_records df)) = length df) as <-.
  { rewrite group_records_perm. apply length_seq. }
  destruct (group_records_cover df) as (_ & _ & Hgs).
  induction Hgs as [|g gs [Hg _] _ IH]; [done|].
  simpl. rewrite length_app. destruct g; [done|]. simpl. lia.
Qed.

End PartitionFacts.

(** X9: the groups of the final pass partition the table: every position of
    the table is in exactly one group, no group is empty, and a group lists
    its positions in increasing order, the seed first. *)
Theorem group_records_partition (df : list Matcher.drow) :
  concat (Dedup.group_records df) ≡ₚ seq 0 (length df)
  /\ Forall (fun g => g <> [] /\ StronglySorted lt g) (Dedup.group_records df)
  /\ length (Dedup.group_records df) <= length df.
Proof.
  split; [apply group_records_perm|]. split; [|apply group_records_count].
  by destruct (group_records_cover df) as (_ & _ & Hgs).
Qed.

(** ** What the deduplication pass returns *)

Section DedupOutputFacts.
Import Matcher Dedup.

Lemma valid_indices (df : list drow) (g : list nat) :
  (forall idx, idx ∈ g -> idx < length df) ->
  forallb (fun idx => Nat.ltb idx (length df)) g = true.
Proof.
  intros Hg. apply forallb_forall. intros idx Hin.
  apply Nat.ltb_lt, Hg. by apply list_elem_of_In.
Qed.

(** The log line goes through exactly when the names of the group are
    strings. *)
Lemma names_join_spec (df : list drow) (g : list nat) :
  (forall idx, idx ∈ g -> idx < length df) ->
  names_join df g = true <-> names_are_strings df g.
Proof.
  intros Hvalid. unfold names_join, names_are_strings. rewrite forallb_forall. split.
  - intros H idx row Hin Hrow. specialize (H idx ltac:(by apply list_elem_of_In)).
    rewrite Hrow in H. destruct (get row "Name") as [| |s|z]; try done. by exists s.
  - intros H idx Hin. apply list_elem_of_In in Hin.
    destruct (lookup_lt_is_Some_2 df idx (Hvalid idx Hin)) as [row Hrow].
    rewrite Hrow. by destruct (H idx row Hin Hrow) as [s ->].
Qed.

(** The row kept for a group is a row of the group as far as its name, its
    country and its keys go; the only exception a group of the table can
    raise is the [TypeError] of the log line. *)
Lemma merge_group_cases (cols : list string) (df : list drow) (group : list nat) :
  group <> [] ->
  (forall idx, idx ∈ group -> idx < length df) ->
  (exists merged idx row,
     merge_group cols df group = Ok merged
     /\ idx ∈ group /\ df !! idx = Some row
     /\ cells merged !! "Name" = cells row !! "Name"
     /\ cells merged !! "Country" = cells row !! "Country"
     /\ _name_keys merged = _name_keys row
     /\ (2 <= length group -> names_join df group = true))
  \/ (merge_group cols df group = Raise TypeError
      /\ 2 <= length group /\ names_join df group = false).
Proof.
  intros Hne Hvalid.
  destruct group as [|i [|j r]]; [done| |].
  - left. destruct (lookup_lt_is_Some_2 df i) as [row Hrow]; [apply Hvalid; by left|].
    exists row, i, row. unfold merge_group, iloc. rewrite Hrow.
    split; [done|]. split; [by left|]. repeat split. simpl. lia.
  - set (group := i :: j :: r) in *.
    destruct (group_with_scores_entries cols df group Hvalid) as [Hidx Hentries].
    destruct (sort_desc_head (group_with_scores cols df group))
      as (pre & rep & post & Hgws & Hsort & _ & _).
    { intros Hnil. rewrite Hnil in Hidx. done. }
    destruct rep as [[ridx rrow] rscore].
    assert (merge_group cols df group
            = if names_join df group
              then Ok (DRow (foldl (fill_col (sort_desc (pre ++ post))) (cells rrow)
                                   (cols ++ ["_name_keys"])) (_name_keys rrow))
              else Raise TypeError) as Hmg.
    { unfold merge_group. fold group.
      rewrite (valid_indices df group Hvalid). cbn [negb]. by rewrite Hsort. }
    rewrite Hmg. destruct (names_join df group) eqn:Hj.
    2:{ right. split; [done|]. split; [simpl; lia|done]. }
    left. eexists _, ridx, rrow. split; [reflexivity|].
    rewrite Hgws in Hidx, Hentries.
    split; [|split; [|split; [|split; [|split]]]].
    + rewrite <- Hidx. rewrite map_app. apply elem_of_app. right. by left.
    + apply Forall_app in Hentries as [_ He]. apply Forall_inv in He. by destruct He.
    + simpl. rewrite fill_loop_lookup. unfold fill_val.
      by destruct (bool_decide _).
    + simpl. rewrite fill_loop_lookup. unfold fill_val.
      by destruct (bool_decide _).
    + done.
    + done.
Qed.

Lemma public_cells_lookup (r : gmap string value) (c : string) :
  public_cells r !! c = if py_startswith c "_" then None else r !! c.
Proof.
  unfold public_cells. destruct (py_startswith c "_") eqn:Hc.
  - apply map_lookup_filter_None. right. intros x _. simpl. congruence.
  - destruct (r !! c) as [x|] eqn:Hx.
    + by apply map_lookup_filter_Some.
    + apply map_lookup_filter_None. by left.
Qed.

Lemma keep_rows_inv (cols : list string) (df : list drow)
    (groups : list (list nat)) (kept : list drow) :
  keep_rows cols df groups = Ok kept ->
  Forall2 (fun g m => merge_group cols df g = Ok m) groups kept.
Proof.
  revert kept. induction groups as [|g gs IH]; intros kept; simpl.
  { intros [= <-]. constructor. }
  destruct (merge_group cols df g) as [m|e] eqn:Hm; [|done].
  destruct (keep_rows cols df gs) as [ms|e]; [|done].
  intros [= <-]. constructor; [done|by apply IH].
Qed.

Lemma keep_rows_all (cols : list string) (df : list drow) (groups : list (list nat)) :
  Forall (fun g => exists m, merge_group cols df g = Ok m) groups ->
  exists kept, keep_rows cols df groups = Ok kept /\ length kept = length groups.
Proof.
  induction 1 as [|g gs [m Hm] _ (ms & Hms & Hlen)]; simpl.
  { by exists []. }
  rewrite Hm, Hms. exists (m :: ms). split; [done|]. simpl. by rewrite Hlen.
Qed.

Lemma keep_rows_raises (cols : list string) (df : list drow)
    (groups : list (list nat)) (e : exn) :
  Forall (fun g => (exists m, merge_group cols df g = Ok m)
                   \/ merge_group cols df g = Raise e) groups ->
  Exists (fun g => merge_group cols df g = Raise e) groups ->
  keep_rows cols df groups = Raise e.
Proof.
  induction 1 as [|g gs Hg Hgs IH]; intros Hex; [by apply Exists_nil in Hex|].
  simpl. destruct Hg as [[m Hm]|Hr]; [|by rewrite Hr].
  rewrite Hm. apply Exists_cons in Hex as [Hex|Hex]; [congruence|].
  by rewrite IH.
Qed.

(** The table returned for the rows kept; [pd.DataFrame([])] has no
    columns. *)
Lemma deduplicate_fuzzy_kept (df : dataframe) (kept : list drow) :
  in_list "Name" (columns df) = true ->
  keep_rows (columns df) (map with_keys (rows df))
            (group_records (map with_keys (rows df))) = Ok kept ->
  deduplicate_fuzzy df
  = Ok (match kept with
        | [] => DataFrame [] []
        | _ => DataFrame (drop_private (columns df))
                         (map (fun r => public_cells (cells r)) kept)
        end).
Proof.
  intros H Hk. unfold deduplicate_fuzzy. rewrite H. cbn [negb]. cbv zeta.
  rewrite Hk. by destruct kept.
Qed.

Lemma deduplicate_fuzzy_inv (df out : dataframe) :
  deduplicate_fuzzy df = Ok out ->
  in_list "Name" (columns df) = true
  /\ exists kept,
       keep_rows (columns df) (map with_keys (rows df))
                 (group_records (map with_keys (rows df))) = Ok kept
       /\ rows out = map (fun r => public_cells (cells r)) kept.
Proof.
  unfold deduplicate_fuzzy.
  destruct (in_list "Name" (columns df)); [|done]. cbn [negb]. cbv zeta.
  destruct (keep_rows _ _ _) as [kept|e]; [|done].
  intros H. split; [done|]. exists kept. split; [done|].
  destruct kept; by injection H as <-.
Qed.

Lemma groups_valid (table : list drow) :
  Forall (fun g => g <> [] /\ forall idx, idx ∈ g -> idx < length table)
         (group_records table).
Proof.
  destruct (group_records_cover table) as (_ & Hcov & Hgs).
  apply Forall_forall. intros g Hg. split.
  - rewrite Forall_forall in Hgs. by destruct (Hgs g Hg).
  - intros idx Hidx. apply Hcov. apply list_elem_of_In, in_concat.
    exists g. split; by apply list_elem_of_In.
Qed.

Lemma group_records_nonempty (table : list drow) :
  table <> [] -> group_records table <> [].
Proof.
  intros Hne Hnil. destruct (group_records_cover table) as (_ & Hcov & _).
  assert (0 ∈ concat (group_records table)) as H0.
  { apply Hcov. destruct table; [done|simpl; lia]. }
  rewrite Hnil in H0. by apply elem_of_nil in H0.
Qed.

(** A row that shares a key with another has a key, so that its name is
    not a missing value. *)
Lemma keyed_name (r : gmap string value) (k : string) :
  k ∈ _name_keys (with_keys r) ->
  (forall z, r !! "Name" <> Some (VInt z)) ->
  exists s, get (with_keys r) "Name" = VStr s.
Proof.
  unfold with_keys, get. simpl. intros Hk Htext.
  destruct (r !! "Name") as [[| |s|z]|] eqn:Hn; simpl in *.
  - by apply elem_of_empty in Hk.
  - by apply elem_of_empty in Hk.
  - by exists s.
  - by destruct (Htext z).
  - by apply elem_of_empty in Hk.
Qed.

(** In a group of two or more rows every row shares a key with the seed:
    when no name is a number, the names of the group are strings. *)
Lemma grouped_names_are_strings (rows : list (gmap string value)) (g : list nat) :
  names_are_text rows ->
  g ∈ group_records (map with_keys rows) ->
  2 <= length g ->
  names_are_strings (map with_keys rows) g.
Proof.
  intros Htext Hg Hlen. apply list_elem_of_lookup in Hg as [n Hn].
  set (table := map with_keys rows) in *.
  destruct (group_records_one_pass table n g Hn) as (i & row_i & Hi & _ & _ & ->).
  set (consumed := consumed_before (group_records table) n) in *.
  assert (Hjoin : forall x, In x (List.filter (joins_seed table row_i consumed)
                                     (seq (S i) (length table - S i))) ->
                            exists row_x key,
                              table !! x = Some row_x
                              /\ key ∈ _name_keys row_i /\ key ∈ _name_keys row_x).
  { intros x Hx. apply filter_In in Hx as [_ Hx]. unfold joins_seed in Hx.
    apply andb_prop in Hx as [_ Hx].
    destruct (table !! x) as [row_x|]; [|done].
    apply is_same_university_spec in Hx as (_ & _ & key & Hkey & _).
    unfold shared_keys in Hkey. apply elem_of_intersection in Hkey as [? ?].
    by exists row_x, key. }
  assert (Hseed : exists key, key ∈ _name_keys row_i).
  { unfold seed_group in Hlen. simpl in Hlen.
    destruct (List.filter _ _) as [|x rest] eqn:Hf; [simpl in Hlen; lia|].
    destruct (Hjoin x ltac:(by left)) as (_ & key & _ & Hk & _). by exists key. }
  assert (Hrow : forall x row_x key, table !! x = Some row_x -> key ∈ _name_keys row_x ->
                                     exists s, get row_x "Name" = VStr s).
  { intros x row_x key Hx Hk. unfold table in Hx. rewrite list_lookup_fmap in Hx.
    destruct (rows !! x) as [r|] eqn:Hr; [|done]. injection Hx as <-.
    apply (keyed_name r key Hk). unfold names_are_text in Htext.
    rewrite Forall_forall in Htext. apply Htext. by apply list_elem_of_lookup_2 in Hr. }
  intros idx row Hin Hidx. unfold seed_group in Hin.
  apply elem_of_cons in Hin as [->|Hin].
  - destruct Hseed as [key Hk]. rewrite Hi in Hidx. injection Hidx as <-.
    by apply (Hrow i row_i key).
  - apply list_elem_of_In in Hin. destruct (Hjoin idx Hin) as (row_x & key & Hx & _ & Hk).
    rewrite Hidx in Hx. injection Hx as <-. by apply (Hrow idx row key).
Qed.

End DedupOutputFacts.

(** X10: without a Name column the deduplication pass raises [KeyError].
    With one, an empty table gives a frame without columns or rows; a table
    with rows whose names are text or missing gives a table whose columns
    are the columns of the input that do not begin with an underscore, with
    one row per group: at least one row, and never more than the input; and
    a table in which a group of two or more rows has a name that is not a
    string raises [TypeError], at the log line that joins the names of the
    group. *)
Theorem deduplicate_fuzzy_shape (df : Dedup.dataframe) :
  (Matcher.in_list "Name" (Dedup.columns df) = false ->
   Dedup.deduplicate_fuzzy df = Raise KeyError)
  /\ (Matcher.in_list "Name" (Dedup.columns df) = true ->
      Dedup.rows df = [] ->
      Dedup.deduplicate_fuzzy df = Ok (Dedup.DataFrame [] []))
  /\ (Matcher.in_list "Name" (Dedup.columns df) = true ->
      names_are_text (Dedup.rows df) ->
      Dedup.rows df <> [] ->
      exists out,
        Dedup.deduplicate_fuzzy df = Ok out
        /\ Dedup.columns out = Dedup.drop_private (Dedup.columns df)
        /\ Forall (fun c => py_startswith c "_" = false /\ c ∈ Dedup.columns df)
                  (Dedup.columns out)
        /\ length (Dedup.rows out)
           = length (Dedup.group_records (map Dedup.with_keys (Dedup.rows df)))
        /\ 1 <= length (Dedup.rows out) <= length (Dedup.rows df))
  /\ (Matcher.in_list "Name" (Dedup.columns df) = true ->
      (exists g, g ∈ Dedup.group_records (map Dedup.with_keys (Dedup.rows df))
                 /\ 2 <= length g
                 /\ ~ names_are_strings (map Dedup.with_keys (Dedup.rows df)) g) ->
      Dedup.deduplicate_fuzzy df = Raise TypeError).
Proof.
  split; [|split; [|split]].
  { intros H. unfold Dedup.deduplicate_fuzzy. by rewrite H. }
  { intros H Hrows. unfold Dedup.deduplicate_fuzzy. rewrite H, Hrows. reflexivity. }
  - intros H Htext Hne.
    set (table := map Dedup.with_keys (Dedup.rows df)).
    pose proof (groups_valid table) as Hvalid.
    destruct (keep_rows_all (Dedup.columns df) table (Dedup.group_records table))
      as (kept & Hkept & Hlen).
    { apply Forall_forall. intros g Hg. rewrite Forall_forall in Hvalid.
      destruct (Hvalid g Hg) as [Hgne Hgv].
      destruct (merge_group_cases (Dedup.columns df) table g Hgne Hgv)
        as [(m & _ & _ & Hm & _)|(_ & Hlen & Hj)]; [by exists m|].
      assert (Dedup.names_join table g = true) as Hj'.
      { apply names_join_spec; [done|].
        by apply grouped_names_are_strings. }
      congruence. }
    assert (Dedup.group_records table <> []) as Hgne.
    { apply group_records_nonempty. unfold table. by destruct (Dedup.rows df). }
    pose proof (group_records_count table) as Hle.
    unfold table in Hle. rewrite length_map in Hle. fold table in Hle.
    rewrite (deduplicate_fuzzy_kept df kept H Hkept).
    destruct kept as [|m ms].
    { simpl in Hlen. by destruct (Dedup.group_records table). }
    eexists. split; [reflexivity|]. cbn [Dedup.columns Dedup.rows].
    split; [done|]. split; [|split].
    + unfold Dedup.drop_private. apply Forall_forall. intros c Hc.
      apply list_elem_of_In, filter_In in Hc as [Hin Hc].
      split; [by apply negb_true_iff in Hc|by apply list_elem_of_In].
    + by rewrite length_map.
    + rewrite length_map, Hlen. split; [|done].
      destruct (Dedup.group_records table); [done|simpl; lia].
  - intros H (g & Hg & Hlen & Hnames).
    set (table := map Dedup.with_keys (Dedup.rows df)) in *.
    pose proof (groups_valid table) as Hvalid. rewrite Forall_forall in Hvalid.
    unfold Dedup.deduplicate_fuzzy. rewrite H. cbn [negb]. cbv zeta. fold table.
    rewrite (keep_rows_raises (Dedup.columns df) table _ TypeError); [done| |].
    + apply Forall_forall. intros g' Hg'. destruct (Hvalid g' Hg') as [Hgne Hgv].
      destruct (merge_group_cases (Dedup.columns df) table g' Hgne Hgv)
        as [(m & _ & _ & Hm & _)|(Hm & _)]; [left; by exists m|by right].
    + apply Exists_exists. exists g. split; [done|].
      destruct (Hvalid g Hg) as [Hgne Hgv].
      destruct (merge_group_cases (Dedup.columns df) table g Hgne Hgv)
        as [(m & idx & row & _ & _ & _ & _ & _ & _ & Hj)|(Hm & _)]; [|done].
      destruct Hnames. apply names_join_spec; [done|]. by apply Hj.
Qed.

Lemma deduplicate_fuzzy_shape_witness :
  Matcher.in_list "Name" output_columns = true
  /\ names_are_text mit_pair
  /\ mit_pair <> []
  /\ exists out,
       Dedup.deduplicate_fuzzy (Dedup.DataFrame output_columns mit_pair) = Ok out
       /\ length (Dedup.rows out) = 1.
Proof.
  assert (Matcher.in_list "Name" output_columns = true) as H by reflexivity.
  assert (names_are_text mit_pair) as Htext.
  { repeat constructor; intros z; vm_compute; discriminate. }
  assert (mit_pair <> []) as Hne by discriminate.
  split; [exact H|]. split; [exact Htext|]. split; [exact Hne|].
  destruct (proj1 (proj2 (proj2 (deduplicate_fuzzy_shape
                                   (Dedup.DataFrame output_columns mit_pair))))
              H Htext Hne)
    as (out & Hout & _ & _ & Hlen & _).
  exists out. split; [exact Hout|]. rewrite Hlen. vm_compute. reflexivity.
Defined.

(** X11: a row that the deduplication pass returns has the name and the
    country of a row of the input, and no cell in a column that begins with
    an underscore. *)
Theorem deduplicate_fuzzy_keeps_identity (df out : Dedup.dataframe)
    (o : gmap string value) :
  Dedup.deduplicate_fuzzy df = Ok out ->
  o ∈ Dedup.rows out ->
  (exists r, r ∈ Dedup.rows df
             /\ o !! "Name" = r !! "Name" /\ o !! "Country" = r !! "Country")
  /\ (forall c, py_startswith c "_" = true -> o !! c = None).
Proof.
  intros Hout Ho.
  apply deduplicate_fuzzy_inv in Hout as (Hname & kept & Hkept & Hrows).
  rewrite Hrows in Ho. apply list_elem_of_fmap in Ho as (m & -> & Hm).
  set (table := map Dedup.with_keys (Dedup.rows df)) in *.
  apply keep_rows_inv in Hkept.
  apply list_elem_of_lookup in Hm as [n Hn].
  destruct (Forall2_lookup_r _ _ _ _ _ Hkept Hn) as (g & Hgn & Hmg).
  apply list_elem_of_lookup_2 in Hgn.
  pose proof (groups_valid table) as Hvalid. rewrite Forall_forall in Hvalid.
  destruct (Hvalid g Hgn) as [Hne Hv].
  destruct (merge_group_cases (Dedup.columns df) table g Hne Hv)
    as [(m' & idx & row & Hm' & _ & Hrow & HN & HC & _)|(Hm' & _)]; [|congruence].
  rewrite Hmg in Hm'. injection Hm' as <-.
  split.
  - unfold table in Hrow. rewrite list_lookup_fmap in Hrow.
    destruct (Dedup.rows df !! idx) as [r|] eqn:Hr; [|done].
    injection Hrow as <-. exists r. split; [by apply list_elem_of_lookup_2 in Hr|].
    rewrite !public_cells_lookup. simpl in *. by rewrite HN, HC.
  - intros c Hc. by rewrite public_cells_lookup, Hc.
Qed.

Lemma deduplicate_fuzzy_keeps_identity_witness :
  exists out o,
    Dedup.deduplicate_fuzzy (Dedup.DataFrame output_columns mit_pair) = Ok out
    /\ o ∈ Dedup.rows out
    /\ exists r, r ∈ mit_pair /\ o !! "Name" = r !! "Name".
Proof.
  assert (exists out, Dedup.deduplicate_fuzzy (Dedup.DataFrame output_columns mit_pair)
                      = Ok out /\ length (Dedup.rows out) = 1) as (out & Hout & Hlen).
  { eexists. split; [vm_compute; reflexivity|]. reflexivity. }
  assert (exists o, o ∈ Dedup.rows out) as [o Ho].
  { destruct (Dedup.rows out) as [|o os]; [done|]. exists o. by left. }
  exists out, o. split; [exact Hout|]. split; [exact Ho|].
  destruct (deduplicate_fuzzy_keeps_identity _ _ _ Hout Ho) as [(r & Hr & HN & _) _].
  exists r. split; [exact Hr|exact HN].
Defined.

Section DuplicateFreeFacts.
Import Matcher Dedup.

Lemma filter_none {A} (f : A -> bool) (l : list A) :
  (forall x, In x l -> f x = false) -> List.filter f l = [].
Proof.
  induction l as [|x r IH]; intros H; [done|].
  simpl. rewrite (H x) by (by left). apply IH. intros y Hy. apply H. by right.
Qed.

Lemma duplicate_free_loop (table : list drow) (k : nat) :
  duplicate_free table -> k <= length table ->
  foldl (outer_step table) (∅, []) (seq 0 k)
  = (list_to_set (seq 0 k), map (fun i => [i]) (seq 0 k)).
Proof.
  intros Hfree. induction k as [|k IH]; intros Hk; [done|].
  rewrite seq_S, foldl_app, IH by lia. cbn [foldl Nat.add].
  destruct (lookup_lt_is_Some_2 table k) as [row_k Hrow]; [lia|].
  rewrite (outer_step_seed table _ _ k row_k); [|by rewrite elem_of_list_to_set,
    list_elem_of_In, in_seq; lia|done].
  cbv zeta.
  assert (seed_group table (fun j => bool_decide (j ∈ list_to_set (C:=gset nat) (seq 0 k)))
                     k row_k = [k]) as ->.
  { unfold seed_group. f_equal. apply filter_none. intros j Hj.
    apply in_seq in Hj. unfold joins_seed.
    destruct (table !! j) as [row_j|] eqn:Hrj; [|by rewrite andb_false_r].
    rewrite (Hfree k j row_k row_j) by (done || lia). apply andb_false_r. }
  f_equal.
  - by rewrite list_to_set_app_L.
  - by rewrite map_app.
Qed.

Lemma keep_rows_app (cols : list string) (df : list drow)
    (gs1 gs2 : list (list nat)) (k1 k2 : list drow) :
  keep_rows cols df gs1 = Ok k1 -> keep_rows cols df gs2 = Ok k2 ->
  keep_rows cols df (gs1 ++ gs2) = Ok (k1 ++ k2).
Proof.
  revert k1. induction gs1 as [|g gs IH]; intros k1; simpl.
  { by intros [= <-]. }
  destruct (merge_group cols df g) as [m|e]; [|done].
  destruct (keep_rows cols df gs) as [ms|e]; [|done].
  intros [= <-] H2. by rewrite (IH ms eq_refl H2).
Qed.

Lemma singleton_groups_merge (cols : list string) (table : list drow) (k : nat) :
  k <= length table ->
  keep_rows cols table (map (fun i => [i]) (seq 0 k)) = Ok (take k table).
Proof.
  induction k as [|k IH]; intros Hk; [done|].
  destruct (lookup_lt_is_Some_2 table k) as [row_k Hrow]; [lia|].
  rewrite seq_S, map_app, (take_S_r _ _ row_k) by done.
  apply keep_rows_app; [apply IH; lia|].
  simpl. unfold iloc. by rewrite Hrow.
Qed.

End DuplicateFreeFacts.

(** X12: on a table with a Name column in which no row matches a later one,
    every row is a group of its own and the deduplication pass returns the
    rows of the input, in their order, without their underscore columns; for
    the table without rows, the frame without columns. *)
Theorem deduplicate_fuzzy_duplicate_free
    (cols : list string) (rows : list (gmap string value)) :
  Matcher.in_list "Name" cols = true ->
  duplicate_free (map Dedup.with_keys rows) ->
  Dedup.group_records (map Dedup.with_keys rows)
  = map (fun i => [i]) (seq 0 (length rows))
  /\ Dedup.deduplicate_fuzzy (Dedup.DataFrame cols rows)
     = Ok (match rows with
           | [] => Dedup.DataFrame [] []
           | _ => Dedup.DataFrame (Dedup.drop_private cols) (map public_cells rows)
           end).
Proof.
  intros Hname Hfree.
  assert (Dedup.group_records (map Dedup.with_keys rows)
          = map (fun i => [i]) (seq 0 (length rows))) as Hgroups.
  { unfold Dedup.group_records.
    rewrite (duplicate_free_loop _ (length (map Dedup.with_keys rows))) by done.
    simpl. by rewrite length_map. }
  split; [exact Hgroups|].
  rewrite (deduplicate_fuzzy_kept _ (map Dedup.with_keys rows)); [|done|].
  - destruct rows as [|r rs]; [done|]. cbn [Dedup.columns].
    rewrite map_map. reflexivity.
  - cbn [Dedup.columns Dedup.rows]. rewrite Hgroups.
    rewrite <- (length_map Dedup.with_keys rows).
    rewrite singleton_groups_merge by done. by rewrite firstn_all.
Qed.

Lemma deduplicate_fuzzy_duplicate_free_witness :
  Matcher.in_list "Name" ["Name"; "Country"; "_note"] = true
  /\ duplicate_free (map Dedup.with_keys oxbridge)
  /\ Dedup.deduplicate_fuzzy (Dedup.DataFrame ["Name"; "Country"; "_note"] oxbridge)
     = Ok (Dedup.DataFrame ["Name"; "Country"] (map public_cells oxbridge)).
Proof.
  assert (Matcher.in_list "Name" ["Name"; "Country"; "_note"] = true) as H1
      by reflexivity.
  assert (duplicate_free (map Dedup.with_keys oxbridge)) as H2.
  { intros i j ri rj Hij Hi Hj.
    destruct i as [|[|i]]; destruct j as [|[|j]]; try lia; try done.
    injection Hi as <-. injection Hj as <-. vm_compute. reflexivity. }
  split; [exact H1|]. split; [exact H2|].
  exact (proj2 (deduplicate_fuzzy_duplicate_free _ oxbridge H1 H2)).
Defined.

(** ** The merged list as a whole *)

(** X13: the lookup map sends a key to the position of the last record that
    has it, a position of the list, and holds no key that no record has. *)
Theorem lookup_map_last_position (records : list Merger.record) (k : Merger.key) :
  (forall i, Merger.create_lookup_map records !! k = Some i
             <-> last_with_key records k i)
  /\ (Merger.create_lookup_map records !! k = None <-> ~ has_key records k)
  /\ (forall i, Merger.create_lookup_map records !! k = Some i -> i < length records)
  /\ (forall r, Merger.create_lookup_map (records ++ [r]) !! Merger.record_key r
                = Some (length records)).
Proof.
  split; [intros i; apply create_lookup_map_Some|].
  split; [apply create_lookup_map_None|].
  split; [intros i; apply create_lookup_map_bound|].
  intros r. rewrite create_lookup_map_snoc. apply lookup_insert_eq.
Qed.

Section MergedListFacts.
Import Merger.
Variable rank_col : string.
Variable new_row : src_row -> record.

Lemma has_key_elem (base : list record) (k : key) :
  has_key base k <-> k ∈ map record_key base.
Proof.
  unfold has_key. rewrite list_elem_of_fmap. split.
  - intros (r & Hr & <-). eauto.
  - intros (r & -> & Hr). eauto.
Qed.

Lemma merge_row_keeps (lookup : gmap key nat) (ml : list record) (t : src_row)
    (i : nat) (r0 : record) :
  ml !! i = Some r0 ->
  exists r, merge_row rank_col new_row lookup ml t !! i = Some r
            /\ forall k, k <> rank_col -> r !! k = r0 !! k.
Proof.
  intros Hi. unfold merge_row. destruct (lookup !! row_key t) as [j|].
  - destruct (alter_rank_frame rank_col ml t j i r0 Hi) as (r & Hr & _ & _ & Hk).
    by exists r.
  - exists r0. split; [|done]. rewrite lookup_app_l; [done|].
    by apply lookup_lt_Some in Hi.
Qed.

Lemma merge_table_keeps (base : list record) (table : list src_row)
    (i : nat) (r0 : record) :
  base !! i = Some r0 ->
  exists r, merge_table rank_col new_row base table !! i = Some r
            /\ forall k, k <> rank_col -> r !! k = r0 !! k.
Proof.
  intros Hi. induction table as [|t pre (r1 & Hr1 & Hk1)] using rev_ind.
  { exists r0. split; [exact Hi|done]. }
  rewrite merge_table_snoc.
  destruct (merge_row_keeps (create_lookup_map base) _ t i r1 Hr1) as (r & Hr & Hk).
  exists r. split; [done|]. intros k Hne. by rewrite Hk, Hk1.
Qed.

Lemma merge_table_count (base : list record) (table : list src_row) :
  length (merge_table rank_col new_row base table)
  = length base + length (missing_rows base table).
Proof.
  induction table as [|t pre IH] using rev_ind;
    [unfold merge_table, missing_rows; simpl; lia|].
  rewrite merge_table_snoc. unfold missing_rows in *.
  rewrite List.filter_app, length_app. simpl.
  destruct (create_lookup_map base !! row_key t) as [i|] eqn:Ht.
  - rewrite (merge_row_hit _ _ _ _ _ i) by done. rewrite length_alter, IH.
    rewrite bool_decide_eq_true_2; [simpl; lia|].
    apply has_key_elem. destruct (has_key_dec base (row_key t)) as [|Hn]; [done|].
    apply create_lookup_map_None in Hn. congruence.
  - rewrite merge_row_miss by done. rewrite length_app, IH.
    rewrite bool_decide_eq_false_2; [simpl; lia|].
    rewrite <- has_key_elem. by apply create_lookup_map_None.
Qed.

Lemma merge_table_all (P : record -> Prop) (base : list record)
    (table : list src_row) :
  (forall r v, P r -> P (<[ rank_col := v ]> r)) ->
  (forall t, P (new_row t)) ->
  Forall P base -> Forall P (merge_table rank_col new_row base table).
Proof.
  intros Hstable Hnew Hbase. induction table as [|t pre IH] using rev_ind; [done|].
  rewrite merge_table_snoc. unfold merge_row.
  destruct (create_lookup_map base !! row_key t) as [i|].
  - apply Forall_forall. intros r Hr. apply list_elem_of_lookup in Hr as [j Hj].
    rewrite Forall_forall in IH.
    destruct (decide (i = j)) as [->|Hne].
    + rewrite list_lookup_alter_eq in Hj.
      destruct (merge_table rank_col new_row base pre !! j) as [r0|] eqn:E; [|done].
      injection Hj as <-. apply Hstable, IH. by apply list_elem_of_lookup_2 in E.
    + rewrite list_lookup_alter_ne in Hj by done.
      apply IH. by apply list_elem_of_lookup_2 in Hj.
  - apply Forall_app. split; [done|]. constructor; [apply Hnew|constructor].
Qed.

(** The last row of the table with a key that hits decides the rank cell. *)
Lemma merge_table_last_write (base : list record) (pre post : list src_row)
    (t : src_row) (i : nat) :
  last_with_key base (row_key t) i ->
  Forall (fun t' => row_key t' <> row_key t) post ->
  exists r, merge_table rank_col new_row base (pre ++ t :: post) !! i = Some r
            /\ r !! rank_col = Some (s_rank t).
Proof.
  intros Hlast Hpost. apply create_lookup_map_Some in Hlast as Hi.
  induction post as [|t' post IH] using rev_ind.
  - rewrite merge_table_snoc, (merge_row_hit _ _ _ _ _ i) by done.
    pose proof (create_lookup_map_bound _ _ _ Hi) as Hb.
    pose proof (merge_table_length rank_col new_row base pre) as Hlen.
    destruct (lookup_lt_is_Some_2 (merge_table rank_col new_row base pre) i)
      as [r0 Hr0]; [lia|].
    exists (<[ rank_col := s_rank t ]> r0).
    rewrite list_lookup_alter_eq, Hr0. split; [done|apply lookup_insert_eq].
  - apply Forall_app in Hpost as [Hpost Ht']. apply Forall_inv in Ht'.
    destruct (IH Hpost) as (r & Hr & Hrank).
    replace (pre ++ t :: post ++ [t']) with ((pre ++ t :: post) ++ [t'])
      by (by rewrite <- app_assoc).
    rewrite merge_table_snoc. unfold merge_row.
    destruct (create_lookup_map base !! row_key t') as [j|] eqn:Hj.
    + assert (j <> i) as Hne.
      { intros ->. apply create_lookup_map_Some in Hj as [(r1 & Hr1 & Hk1) _].
        destruct Hlast as [(r2 & Hr2 & Hk2) _]. congruence. }
      exists r. by rewrite list_lookup_alter_ne.
    + exists r. split; [|done]. rewrite lookup_app_l; [done|].
      by apply lookup_lt_Some in Hr.
Qed.

End MergedListFacts.

(** X14: the merge keeps every QS row where it was: the record at a position
    of the QS table is the row's own dict but for its [the_rank] and
    [usnews_rank] cells, whatever the two other tables hold. *)
Theorem merge_datasets_keeps_qs_rows
    (qs_df : list Merger.qs_row) (the_df usnews_df : list Merger.src_row)
    (i : nat) (q : Merger.qs_row) :
  qs_df !! i = Some q ->
  exists r,
    Merger.merge_datasets qs_df the_df usnews_df !! i = Some r
    /\ (forall k, k <> "the_rank" -> k <> "usnews_rank" ->
                  r !! k = Merger.qs_to_dict q !! k)
    /\ r !! "Name" = Some (Merger.q_Name q)
    /\ r !! "qs_rank" = Some (Merger.q_qs_rank q)
    /\ Merger.record_key r
       = (VStr (Merger.q_country q), VStr (Merger.q_name_normalized q)).
Proof.
  intros Hq. unfold Merger.merge_datasets, Merger.merge_the, Merger.merge_usnews.
  assert (map Merger.qs_to_dict qs_df !! i = Some (Merger.qs_to_dict q)) as H0.
  { by rewrite list_lookup_fmap, Hq. }
  destruct (merge_table_keeps "the_rank" Merger.the_new_row _ the_df i _ H0)
    as (r1 & Hr1 & Hk1).
  destruct (merge_table_keeps "usnews_rank" Merger.usnews_new_row _ usnews_df i _ Hr1)
    as (r & Hr & Hk).
  assert (Hframe : forall k, k <> "the_rank" -> k <> "usnews_rank" ->
                             r !! k = Merger.qs_to_dict q !! k).
  { intros k H1 H2. by rewrite Hk, Hk1. }
  exists r. split; [exact Hr|]. split; [exact Hframe|].
  split; [by rewrite Hframe|]. split; [by rewrite Hframe|].
  unfold Merger.record_key. rewrite !lookup_total_alt, !Hframe by done.
  reflexivity.
Qed.

Lemma merge_datasets_keeps_qs_rows_witness :
  [mit_qs] !! 0 = Some mit_qs
  /\ exists r,
       Merger.merge_datasets [mit_qs] [mit_the; oxford_the] [oxford_the] !! 0 = Some r
       /\ r !! "Name" = Some (VStr "Massachusetts Institute of Technology (MIT)")
       /\ r !! "qs_rank" = Some (VInt 1).
Proof.
  assert ([mit_qs] !! 0 = Some mit_qs) as H by reflexivity.
  split; [exact H|].
  destruct (merge_datasets_keeps_qs_rows [mit_qs] [mit_the; oxford_the] [oxford_the]
              0 mit_qs H) as (r & Hr & _ & HN & HQ & _).
  exists r. split; [exact Hr|]. split; [exact HN|exact HQ].
Defined.

(** X15: the merged list has one record per QS row and one per row of a
    later table whose key no record had when the pass over that table began:
    it is never shorter than the QS table and never longer than the three
    tables together. *)
Theorem merge_datasets_count
    (qs_df : list Merger.qs_row) (the_df usnews_df : list Merger.src_row) :
  let base := map Merger.qs_to_dict qs_df in
  let after_the := Merger.merge_the base the_df in
  length after_the = length qs_df + length (missing_rows base the_df)
  /\ length (Merger.merge_datasets qs_df the_df usnews_df)
     = length after_the + length (missing_rows after_the usnews_df)
  /\ length qs_df <= length (Merger.merge_datasets qs_df the_df usnews_df)
  /\ length (Merger.merge_datasets qs_df the_df usnews_df)
     <= length qs_df + length the_df + length usnews_df.
Proof.
  cbv zeta. unfold Merger.merge_datasets, Merger.merge_the, Merger.merge_usnews.
  rewrite !merge_table_count, length_map.
  pose proof (List.filter_length_le
                (fun t => negb (bool_decide
                   (Merger.row_key t ∈ map Merger.record_key (map Merger.qs_to_dict qs_df))))
                the_df) as H1.
  unfold missing_rows at 1 3 4 5.
  split; [done|]. split; [done|].
  unfold missing_rows.
  match goal with
  | |- context [List.filter ?f usnews_df] =>
      pose proof (List.filter_length_le f usnews_df) as H2
  end.
  lia.
Qed.

(** X16: when several rows of one source table hit the same record, the
    last of them decides its rank cell. *)
Theorem last_row_decides_rank
    (rank_col : string) (new_row : Merger.src_row -> Merger.record)
    (base : list Merger.record) (pre post : list Merger.src_row)
    (t : Merger.src_row) (i : nat) :
  last_with_key base (Merger.row_key t) i ->
  Forall (fun t' => Merger.row_key t' <> Merger.row_key t) post ->
  exists r,
    Merger.merge_table rank_col new_row base (pre ++ t :: post) !! i = Some r
    /\ r !! rank_col = Some (Merger.s_rank t).
Proof. apply merge_table_last_write. Qed.

Lemma last_row_decides_rank_witness :
  last_with_key [Merger.qs_to_dict mit_qs] (Merger.row_key mit_the_again) 0
  /\ exists r,
       Merger.merge_the [Merger.qs_to_dict mit_qs] [mit_the; mit_the_again; oxford_the]
       !! 0 = Some r
       /\ r !! "the_rank" = Some (VInt 3).
Proof.
  assert (last_with_key [Merger.qs_to_dict mit_qs] (Merger.row_key mit_the_again) 0)
    as Hlast.
  { split; [by exists (Merger.qs_to_dict mit_qs)|].
    intros j r' Hj _. destruct j; [lia|by destruct j]. }
  assert (Forall (fun t' => Merger.row_key t' <> Merger.row_key mit_the_again)
                 [oxford_the]) as Hpost.
  { constructor; [discriminate|constructor]. }
  split; [exact Hlast|].
  exact (last_row_decides_rank "the_rank" Merger.the_new_row _ [mit_the] [oxford_the]
           mit_the_again 0 Hlast Hpost).
Defined.

(** X17: every record of the merged list has its Name cell and string
    [country] and [name_normalized] cells, so reading the key of a record
    never fails. *)
Theorem merged_records_identified
    (qs_df : list Merger.qs_row) (the_df usnews_df : list Merger.src_row) :
  Forall identified (Merger.merge_datasets qs_df the_df usnews_df)
  /\ Forall (fun r => exists c n, Merger.record_key r = (VStr c, VStr n))
            (Merger.merge_datasets qs_df the_df usnews_df).
Proof.
  assert (Forall identified (Merger.merge_datasets qs_df the_df usnews_df)) as H.
  { unfold Merger.merge_datasets, Merger.merge_usnews, Merger.merge_the.
    apply merge_table_all.
    - intros r v (HN & (c & Hc) & (n & Hn)).
      split; [|split]; [by rewrite lookup_insert_ne|exists c|exists n];
        by rewrite lookup_insert_ne.
    - intros t. split; [by eexists|]. split; by eexists.
    - apply merge_table_all.
      + intros r v (HN & (c & Hc) & (n & Hn)).
        split; [|split]; [by rewrite lookup_insert_ne|exists c|exists n];
          by rewrite lookup_insert_ne.
      + intros t. split; [by eexists|]. split; by eexists.
      + apply Forall_forall. intros r Hr.
        apply list_elem_of_fmap in Hr as (q & -> & _).
        split; [by eexists|]. split; by eexists. }
  split; [exact H|].
  eapply Forall_impl; [exact H|]. intros r (_ & (c & Hc) & (n & Hn)).
  exists c, n. unfold Merger.record_key. by rewrite !lookup_total_alt, Hc, Hn.
Qed.

(** ** The loop of [merge_uni.py] *)

Section UnifierLoopFacts.
Import MergeUni.
Variable ratio : string -> string -> Q.

Local Ltac sets :=
  solve [ done | apply union_subseteq_l | by apply elem_of_singleton | by etrans
        | match goal with H : _ ⊆ _ |- _ ∈ _ => by apply H end ].

Lemma grows_refl (u : urecord) : grows u u.
Proof. by repeat split. Qed.

Lemma grows_trans (u v w : urecord) : grows u v -> grows v w -> grows u w.
Proof.
  intros (H1 & H2 & H3 & H4) (K1 & K2 & K3 & K4).
  split; [congruence|]. split; [congruence|]. split; [sets|].
  intros Hu. rewrite K4; [by apply H4|]. by rewrite H4.
Qed.

Lemma find_match_elem (n : string) (seen_names : list string) (e : string) :
  find_match ratio n seen_names = Some e -> e ∈ seen_names /\ similar ratio n e.
Proof.
  intros H. apply find_match_Some in H as (b & a & -> & _ & He).
  split; [|exact He]. apply elem_of_app. right. apply elem_of_cons. by left.
Qed.

Lemma update_record_names (e : string) (c : value) (s : string) (recs : list urecord) :
  map u_name_normalized (update_record e c s recs) = map u_name_normalized recs.
Proof.
  induction recs as [|u recs IH]; simpl; [done|].
  destruct (String.eqb (u_name_normalized u) e); simpl; [done|by rewrite IH].
Qed.

Lemma update_record_length (e : string) (c : value) (s : string) (recs : list urecord) :
  length (update_record e c s recs) = length recs.
Proof.
  rewrite <- (length_map u_name_normalized), update_record_names.
  apply length_map.
Qed.

(** What the update does to the record at a position *)
Lemma update_record_lookup (e : string) (c : value) (s : string)
    (recs : list urecord) (i : nat) (u : urecord) :
  recs !! i = Some u ->
  exists u',
    update_record e c s recs !! i = Some u'
    /\ grows u u'
    /\ u_sources u' ⊆ u_sources u ∪ {[ s ]}
    /\ (u_country u' = u_country u \/ u_country u' = c).
Proof.
  revert i. induction recs as [|v recs IH]; intros i Hi; [done|]. simpl.
  destruct (String.eqb (u_name_normalized v) e).
  - destruct i as [|i]; simpl in Hi |- *.
    + injection Hi as ->. eexists. split; [reflexivity|]. simpl.
      split; [|split].
      * split; [done|]. split; [done|]. split; [sets|]. simpl.
        intros Hu. rewrite (bool_decide_eq_false_2 (u_country u = Unknown)) by done.
        by rewrite andb_false_r.
      * sets.
      * destruct (negb _ && _); auto.
    + exists u. split; [done|]. split; [apply grows_refl|]. split; [sets|by left].
  - destruct i as [|i]; simpl in Hi |- *.
    + injection Hi as ->. exists u. split; [done|]. split; [apply grows_refl|].
      split; [sets|by left].
    + by apply IH.
Qed.

(** The update reaches a record once the name is one of the records' *)
Lemma update_record_hit (e : string) (c : value) (s : string) (recs : list urecord) :
  e ∈ map u_name_normalized recs ->
  exists u', u' ∈ update_record e c s recs
             /\ u_name_normalized u' = e /\ s ∈ u_sources u'.
Proof.
  induction recs as [|v recs IH]; simpl; [by intros ?%elem_of_nil|].
  intros H. destruct (String.eqb_spec (u_name_normalized v) e) as [Heq|Hne].
  - eexists. split; [apply elem_of_cons; by left|]. simpl. split; [done|].
    apply elem_of_union. right. by apply elem_of_singleton.
  - apply elem_of_cons in H as [H|H]; [congruence|].
    destruct (IH H) as (u' & Hu' & Hn & Hs). exists u'.
    split; [apply elem_of_cons; by right|done].
Qed.

Lemma deduplicate_snoc (rows : list row) (r : row) :
  deduplicate ratio (rows ++ [r]) = step ratio (deduplicate ratio rows) r.
Proof. unfold deduplicate. by rewrite foldl_app. Qed.

(** [seen_names] lists the normalised names of [unique_records]. *)
Lemma seen_names_mirror (rows : list row) :
  fst (deduplicate ratio rows) = map u_name_normalized (snd (deduplicate ratio rows)).
Proof.
  induction rows as [|r rows IH] using rev_ind; [done|].
  rewrite deduplicate_snoc. destruct (deduplicate ratio rows) as [seen recs].
  simpl in IH. unfold step.
  destruct (matched_truthy (find_match ratio (r_name_normalized r) seen)); simpl.
  - by rewrite update_record_names.
  - by rewrite map_app, IH.
Qed.

(** One more row leaves every record in its place, grown. *)
Lemma step_grows (st : list string * list urecord) (r : row) (i : nat) (u : urecord) :
  snd st !! i = Some u ->
  exists u', snd (step ratio st r) !! i = Some u'
             /\ grows u u'
             /\ u_sources u' ⊆ u_sources u ∪ {[ r_source r ]}
             /\ (u_country u' = u_country u \/ u_country u' = r_country r).
Proof.
  destruct st as [seen recs]. simpl. intros Hi. unfold step.
  destruct (matched_truthy (find_match ratio (r_name_normalized r) seen)); simpl.
  - by apply update_record_lookup.
  - exists u. split; [by apply lookup_app_l_Some|].
    split; [apply grows_refl|]. split; [sets|by left].
Qed.

Lemma step_length (st : list string * list urecord) (r : row) :
  length (snd st) <= length (snd (step ratio st r)) <= S (length (snd st)).
Proof.
  destruct st as [seen recs]. unfold step.
  destruct (matched_truthy (find_match ratio (r_name_normalized r) seen)); simpl.
  - rewrite update_record_length. lia.
  - rewrite length_app. simpl. lia.
Qed.

(** A record the row did not start was there before. *)
Lemma step_elem (st : list string * list urecord) (r : row) (u' : urecord) :
  u' ∈ snd (step ratio st r) ->
  (exists u, u ∈ snd st /\ grows u u'
             /\ u_sources u' ⊆ u_sources u ∪ {[ r_source r ]}
             /\ (u_country u' = u_country u \/ u_country u' = r_country r))
  \/ u' = fresh_record r.
Proof.
  intros H. apply list_elem_of_lookup in H as [i Hi].
  destruct (snd st !! i) as [u|] eqn:Hu.
  - left. destruct (step_grows st r i u Hu) as (u'' & H1 & H2 & H3 & H4).
    rewrite Hi in H1. injection H1 as <-. exists u.
    split; [by eapply list_elem_of_lookup_2|done].
  - right. destruct st as [seen recs]. simpl in Hu. unfold step in Hi.
    destruct (matched_truthy (find_match ratio (r_name_normalized r) seen));
      simpl in Hi.
    + apply lookup_ge_None in Hu. apply lookup_lt_Some in Hi.
      rewrite update_record_length in Hi. lia.
    + apply lookup_ge_None in Hu. rewrite lookup_app_r in Hi by done.
      apply list_lookup_singleton_Some in Hi as [_ <-]. reflexivity.
Qed.

(** The row's source lands in a record of its own name or of a similar one. *)
Lemma step_records_source (st : list string * list urecord) (r : row) :
  fst st = map u_name_normalized (snd st) ->
  exists u, u ∈ snd (step ratio st r)
            /\ r_source r ∈ u_sources u
            /\ (u_name_normalized u = r_name_normalized r
                \/ similar ratio (r_name_normalized r) (u_name_normalized u)).
Proof.
  destruct st as [seen recs]. simpl. intros ->. unfold step.
  destruct (find_match ratio (r_name_normalized r) (map u_name_normalized recs))
    as [e|] eqn:He; simpl.
  - destruct (String.eqb e ""); simpl.
    + exists (fresh_record r). split; [apply elem_of_app; right; by apply list_elem_of_singleton|].
      simpl. split; [sets|by left].
    + apply find_match_elem in He as [Hin Hsim].
      destruct (update_record_hit e (r_country r) (r_source r) recs Hin)
        as (u' & Hu' & Hn & Hs).
      exists u'. split; [done|]. split; [done|]. right. by rewrite Hn.
  - exists (fresh_record r). split; [apply elem_of_app; right; by apply list_elem_of_singleton|].
    simpl. split; [sets|by left].
Qed.

Lemma deduplicate_grows (rows more : list row) (i : nat) (u : urecord) :
  snd (deduplicate ratio rows) !! i = Some u ->
  exists u', snd (deduplicate ratio (rows ++ more)) !! i = Some u' /\ grows u u'.
Proof.
  intros Hi. induction more as [|r more IH] using rev_ind.
  { rewrite app_nil_r. exists u. split; [done|apply grows_refl]. }
  destruct IH as (u1 & H1 & G1). rewrite app_assoc, deduplicate_snoc.
  destruct (step_grows _ r i u1 H1) as (u2 & H2 & G2 & _).
  exists u2. split; [done|]. by eapply grows_trans.
Qed.

Lemma made_of_mono (rows : list row) (r : row) (u : urecord) :
  made_of rows u -> made_of (rows ++ [r]) u.
Proof.
  intros ((r1 & Hr1 & H1) & (r2 & Hr2 & H2) & H3).
  split; [|split].
  - exists r1. split; [apply elem_of_app; by left|done].
  - exists r2. split; [apply elem_of_app; by left|done].
  - intros s Hs. destruct (H3 s Hs) as (r3 & Hr3 & H4). exists r3.
    split; [apply elem_of_app; by left|done].
Qed.

Lemma deduplicate_made_of (rows : list row) :
  Forall (made_of rows) (snd (deduplicate ratio rows)).
Proof.
  induction rows as [|r rows IH] using rev_ind; [constructor|].
  rewrite deduplicate_snoc. apply Forall_forall. intros u' Hu'.
  assert (Hlast : r ∈ rows ++ [r]).
  { apply elem_of_app. right. by apply list_elem_of_singleton. }
  apply step_elem in Hu' as [(u & Hu & (G1 & G2 & G3 & G4) & Hs & Hc)| ->].
  - rewrite Forall_forall in IH. specialize (IH u Hu).
    apply (made_of_mono rows r) in IH.
    destruct IH as ((r1 & Hr1 & K1 & K2 & K3) & (r2 & Hr2 & K4) & K5).
    split; [|split].
    + exists r1. split; [done|]. split; [congruence|]. split; [congruence|sets].
    + destruct Hc as [Hc|Hc]; [exists r2|exists r]; split; congruence || done.
    + intros s Hin. apply Hs in Hin. apply elem_of_union in Hin as [Hin|Hin].
      * by apply K5.
      * apply elem_of_singleton in Hin as ->. by exists r.
  - split; [|split].
    + exists r. split; [done|]. simpl. split; [done|]. split; [done|sets].
    + by exists r.
    + simpl. intros s Hin. apply elem_of_singleton in Hin as ->. by exists r.
Qed.

Lemma deduplicate_length (rows : list row) :
  length (snd (deduplicate ratio rows)) <= length rows.
Proof.
  induction rows as [|r rows IH] using rev_ind; [done|].
  rewrite deduplicate_snoc, length_app. simpl.
  pose proof (step_length (deduplicate ratio rows) r). lia.
Qed.

Lemma deduplicate_records_sources (rows : list row) :
  Forall (fun r => exists u, u ∈ snd (deduplicate ratio rows)
                     /\ r_source r ∈ u_sources u
                     /\ (u_name_normalized u = r_name_normalized r
                         \/ similar ratio (r_name_normalized r) (u_name_normalized u)))
         rows.
Proof.
  induction rows as [|r rows IH] using rev_ind; [constructor|].
  rewrite deduplicate_snoc. apply Forall_app. split.
  - eapply Forall_impl; [exact IH|]. intros r0 (u & Hu & Hs & Hn).
    apply list_elem_of_lookup in Hu as [i Hi].
    destruct (step_grows _ r i u Hi) as (u' & Hi' & (G1 & G2 & G3 & G4) & _).
    exists u'. split; [by eapply list_elem_of_lookup_2|].
    split; [sets|by rewrite G2].
  - constructor; [|constructor].
    apply step_records_source, seen_names_mirror.
Qed.

(** With no empty normalised name, a name is kept only when no kept name is
    similar to it. *)
Lemma seen_names_dissimilar (rows : list row) :
  Forall (fun r => r_name_normalized r <> "") rows ->
  let seen := fst (deduplicate ratio rows) in
  Forall (fun n => n <> "") seen
  /\ forall i j a b, i < j -> seen !! i = Some a -> seen !! j = Some b ->
                     ~ similar ratio b a.
Proof.
  cbv zeta. induction rows as [|r rows IH] using rev_ind; intros Hne.
  { split; [constructor|]. intros i j a b _ Hi. by destruct i. }
  apply Forall_app in Hne as [Hne Hr]. apply Forall_inv in Hr.
  destruct (IH Hne) as [IH1 IH2]. rewrite deduplicate_snoc.
  destruct (deduplicate ratio rows) as [seen recs]. simpl in IH1, IH2. unfold step.
  destruct (find_match ratio (r_name_normalized r) seen) as [e|] eqn:He; simpl.
  - apply find_match_elem in He as [Hin _].
    rewrite Forall_forall in IH1. pose proof (IH1 e Hin) as Hnz.
    destruct (String.eqb_spec e ""); [done|]. simpl.
    split; [by apply Forall_forall|exact IH2].
  - apply find_match_None in He. split.
    + apply Forall_app. split; [done|]. by constructor.
    + intros i j a b Hij Hi Hj.
      destruct (decide (j < length seen)) as [Hlt|Hge].
      * rewrite lookup_app_l in Hi, Hj by lia. exact (IH2 i j a b Hij Hi Hj).
      * rewrite lookup_app_r in Hj by lia.
        apply list_lookup_singleton_Some in Hj as [Hj <-].
        rewrite lookup_app_l in Hi by lia.
        apply list_elem_of_lookup_2 in Hi. rewrite Forall_forall in He.
        unfold similar. by rewrite (He a Hi).
Qed.

End UnifierLoopFacts.

(** X18: the list of seen names is the list of the records' normalised
    names, there are at most as many records as rows, and every record has
    the names of a row of the table with that row's source, a country and
    sources that rows of the table gave. *)
Theorem unique_records_made_of_rows
    (ratio : string -> string -> Q) (all_unis : list MergeUni.row) :
  let seen_names := fst (MergeUni.deduplicate ratio all_unis) in
  let unique_records := snd (MergeUni.deduplicate ratio all_unis) in
  seen_names = map MergeUni.u_name_normalized unique_records
  /\ length unique_records <= length all_unis
  /\ Forall (made_of all_unis) unique_records.
Proof.
  cbv zeta. split; [apply seen_names_mirror|].
  split; [apply deduplicate_length|apply deduplicate_made_of].
Qed.

(** X19: no row is lost: the source of every row is among the sources of a
    record whose normalised name is the row's or one the row's is similar
    to. *)
Theorem every_source_is_recorded
    (ratio : string -> string -> Q) (all_unis : list MergeUni.row) :
  Forall (fun r =>
            exists u,
              u ∈ snd (MergeUni.deduplicate ratio all_unis)
              /\ MergeUni.r_source r ∈ MergeUni.u_sources u
              /\ (MergeUni.u_name_normalized u = MergeUni.r_name_normalized r
                  \/ similar ratio (MergeUni.r_name_normalized r)
                                   (MergeUni.u_name_normalized u)))
         all_unis.
Proof. apply deduplicate_records_sources. Qed.

(** X20: rows read later leave every record in its place with its names;
    they add sources, and set the country only of a record whose country
    was unknown. *)
Theorem records_only_grow
    (ratio : string -> string -> Q) (all_unis more : list MergeUni.row)
    (i : nat) (u : MergeUni.urecord) :
  snd (MergeUni.deduplicate ratio all_unis) !! i = Some u ->
  exists u',
    snd (MergeUni.deduplicate ratio (all_unis ++ more)) !! i = Some u'
    /\ grows u u'.
Proof. apply deduplicate_grows. Qed.

Lemma records_only_grow_witness :
  snd (MergeUni.deduplicate exact_ratio [oxford_world; oxford_arwu]) !! 0
  = Some (MergeUni.URecord (VStr "University of Oxford") "university of oxford"
                           (VStr "United Kingdom") {[ "uniRank-World"; "ARWU" ]})
  /\ exists u',
       snd (MergeUni.deduplicate exact_ratio
              ([oxford_world; oxford_arwu] ++ [oxford_the_row])) !! 0 = Some u'
       /\ MergeUni.u_country u' = VStr "United Kingdom".
Proof.
  assert (snd (MergeUni.deduplicate exact_ratio [oxford_world; oxford_arwu]) !! 0
          = Some (MergeUni.URecord (VStr "University of Oxford") "university of oxford"
                    (VStr "United Kingdom") {[ "uniRank-World"; "ARWU" ]})) as H.
  { reflexivity. }
  split; [exact H|].
  destruct (records_only_grow exact_ratio [oxford_world; oxford_arwu] [oxford_the_row]
              0 _ H) as (u' & Hu' & _ & _ & _ & Hc).
  exists u'. split; [exact Hu'|]. apply Hc. discriminate.
Defined.

(** X21: when no normalised name is empty, a name is kept only if it is
    similar to none of the names kept before it; if moreover every name is
    similar to itself, no name is kept twice. *)
Theorem kept_names_are_dissimilar
    (ratio : string -> string -> Q) (all_unis : list MergeUni.row) :
  Forall (fun r => MergeUni.r_name_normalized r <> "") all_unis ->
  let seen_names := fst (MergeUni.deduplicate ratio all_unis) in
  (forall i j a b, i < j -> seen_names !! i = Some a -> seen_names !! j = Some b ->
                   ~ similar ratio b a)
  /\ ((forall s, similar ratio s s) -> NoDup seen_names).
Proof.
  intros Hne. cbv zeta.
  destruct (seen_names_dissimilar ratio all_unis Hne) as [_ Hpair].
  split; [exact Hpair|]. intros Hrefl. apply NoDup_alt. intros i j x Hi Hj.
  destruct (Nat.lt_trichotomy i j) as [Hlt|[Heq|Hgt]]; [|done|].
  - destruct (Hpair i j x x Hlt Hi Hj). apply Hrefl.
  - destruct (Hpair j i x x Hgt Hj Hi). apply Hrefl.
Qed.

Lemma kept_names_are_dissimilar_witness :
  Forall (fun r => MergeUni.r_name_normalized r <> "")
         [oxford_world; oxford_arwu; oxford_the_row]
  /\ NoDup (fst (MergeUni.deduplicate exact_ratio
                   [oxford_world; oxford_arwu; oxford_the_row])).
Proof.
  assert (Forall (fun r => MergeUni.r_name_normalized r <> "")
                 [oxford_world; oxford_arwu; oxford_the_row]) as H.
  { repeat constructor; discriminate. }
  split; [exact H|].
  apply (kept_names_are_dissimilar exact_ratio _ H).
  intros s. unfold similar, exact_ratio. by rewrite String.eqb_refl.
Defined.

(** ** The helpers of the QS scrapers *)

Section ScraperFacts.
Import QsScraper.

Lemma hyphen_eqb (c : ascii) : Ascii.eqb "-"%char c = is_hyphen c.
Proof. all_chars c. Qed.

Lemma contains_hyphen (l : chars) :
  contains_chars l (to_chars "-") = existsb is_hyphen l.
Proof.
  change (to_chars "-") with ["-"%char].
  induction l as [|c r IH]; [done|].
  cbn [contains_chars existsb Py.startswith]. rewrite IH, hyphen_eqb.
  destruct (is_hyphen c); [by destruct r|done].
Qed.

Lemma before_hyphen_none (l : chars) : existsb is_hyphen (before_hyphen l) = false.
Proof.
  induction l as [|c r IH]; [done|]. simpl.
  destruct (is_hyphen c) eqn:Hc; [done|]. simpl. by rewrite Hc.
Qed.

Lemma before_hyphen_id (l : chars) : existsb is_hyphen l = false -> before_hyphen l = l.
Proof.
  induction l as [|c r IH]; [done|]. simpl.
  destruct (is_hyphen c); [done|]. simpl. intros H. by rewrite IH.
Qed.

Lemma range_start_not_range (rank : rank_cell) : is_range (range_start rank) = false.
Proof.
  destruct rank as [[| |s|z]| |]; try done. simpl. unfold py_contains.
  by rewrite contains_hyphen, to_of_chars, before_hyphen_none.
Qed.

Lemma range_start_id (rank : rank_cell) :
  is_range rank = false -> range_start rank = rank.
Proof.
  destruct rank as [[| |s|z]| |]; try done. simpl. unfold py_contains.
  rewrite contains_hyphen. intros H. by rewrite before_hyphen_id, of_to_chars.
Qed.

Lemma range_start_idem (rank : rank_cell) :
  range_start (range_start rank) = range_start rank.
Proof. apply range_start_id, range_start_not_range. Qed.

(** The number both functions look up: that of the text before the first
    hyphen *)
Lemma parsed_range_start (py_int : string -> option Z) (rank : rank_cell) :
  (if is_range rank then int py_int (range_start rank) else int py_int rank)
  = int py_int (range_start rank).
Proof.
  destruct (is_range rank) eqn:H; [done|]. by rewrite range_start_id.
Qed.

Lemma cache_get_elem (d : url_cache) (k url : string) :
  cache_get d k = Some url -> (k, url) ∈ d.
Proof.
  induction d as [|[name u] d IH]; simpl; [done|].
  destruct (String.eqb_spec name k) as [->|Hne].
  - intros [= ->]. apply elem_of_cons. by left.
  - intros H. apply elem_of_cons. right. by apply IH.
Qed.

Lemma by_rank_Some (d : url_cache) (z : Z) (url : string) :
  by_rank d z = Some url
  <-> (1 <= z <= Z.of_nat (length d))%Z
      /\ exists name, d !! Z.to_nat (z - 1) = Some (name, url).
Proof.
  unfold by_rank.
  destruct (Z.leb_spec 0 (z - 1)) as [Hlo|Hlo];
    destruct (Z.ltb_spec (z - 1) (Z.of_nat (length d))) as [Hhi|Hhi]; simpl.
  - split.
    + intros H. split; [lia|]. destruct (d !! Z.to_nat (z - 1)) as [[n u]|]; [|done].
      injection H as <-. by exists n.
    + intros [_ [name ->]]. done.
  - split; [done|]. intros [? _]. lia.
  - split; [done|]. intros [? _]. lia.
  - split; [done|]. intros [? _]. lia.
Qed.

Lemma slice_chunk {A : Type} (rows : list A) (i chunk_size : nat) :
  slice rows (i * chunk_size) ((i + 1) * chunk_size)
  = take chunk_size (drop (i * chunk_size) rows).
Proof. unfold slice. f_equal. lia. Qed.

(** The first [k] chunks, joined, are the first [k * chunk_size] rows. *)
Lemma concat_slices {A : Type} (rows : list A) (chunk_size k : nat) :
  concat (map (fun i => slice rows (i * chunk_size) ((i + 1) * chunk_size)) (seq 0 k))
  = take (k * chunk_size) rows.
Proof.
  induction k as [|k IH]; [done|].
  rewrite seq_S, map_app, concat_app, IH. simpl. rewrite app_nil_r, slice_chunk.
  rewrite take_take_drop. f_equal. lia.
Qed.

Lemma ceil_div_least (total n : Z) :
  (0 <= total)%Z -> (1 <= n)%Z ->
  (0 <= ceil_div total n)%Z
  /\ (total <= n * ceil_div total n)%Z
  /\ forall s, (total <= n * s)%Z -> (ceil_div total n <= s)%Z.
Proof.
  intros Ht Hn. unfold ceil_div.
  pose proof (Z.div_mod (- total) n ltac:(lia)) as Hdiv.
  pose proof (Z.mod_pos_bound (- total) n ltac:(lia)) as Hmod.
  split; [nia|]. split; [nia|]. intros s Hs. nia.
Qed.

Lemma chunk_rows_Return {A : Type} (rows : list A) (n_chunks : Z) :
  n_chunks <> 0%Z ->
  chunk_rows rows n_chunks
  = Return (map (fun i => slice rows (i * Z.to_nat (ceil_div (Z.of_nat (length rows)) n_chunks))
                                ((i + 1) * Z.to_nat (ceil_div (Z.of_nat (length rows)) n_chunks)))
                (seq 0 (Z.to_nat n_chunks))).
Proof.
  intros H. unfold chunk_rows. by destruct (Z.eqb_spec n_chunks 0).
Qed.

(** The chunks of a positive number of chunks *)
Lemma chunk_rows_cover {A : Type} (rows : list A) (n_chunks : Z) :
  (1 <= n_chunks)%Z ->
  exists chunks,
    chunk_rows rows n_chunks = Return chunks
    /\ length chunks = Z.to_nat n_chunks
    /\ concat chunks = rows
    /\ forall i chunk, chunks !! i = Some chunk ->
         length chunk
         = Nat.min (Z.to_nat (ceil_div (Z.of_nat (length rows)) n_chunks))
                   (length rows - i * Z.to_nat (ceil_div (Z.of_nat (length rows)) n_chunks)).
Proof.
  intros Hn. rewrite chunk_rows_Return by lia.
  destruct (ceil_div_least (Z.of_nat (length rows)) n_chunks ltac:(lia) Hn)
    as (H0 & Hcov & _).
  set (cs := Z.to_nat (ceil_div (Z.of_nat (length rows)) n_chunks)) in *.
  eexists. split; [reflexivity|]. split; [by rewrite length_map, length_seq|].
  split.
  - rewrite concat_slices. apply take_ge. subst cs. nia.
  - intros i chunk Hi. rewrite list_lookup_fmap in Hi.
    destruct (seq 0 (Z.to_nat n_chunks) !! i) as [j|] eqn:Hj; [|done].
    apply lookup_seq in Hj as [-> _]. simpl in Hi. injection Hi as <-.
    rewrite slice_chunk. by rewrite length_take, length_drop.
Qed.

End ScraperFacts.

(** X22: the two versions of the URL lookup give the same answer, except
    for a name that is not in the cache with a rank on which [int] raises
    something else than [ValueError]: on the rank [None] the version of
    [qs_scraper.py] raises [TypeError], on an infinite rank [OverflowError],
    where the other version returns nothing. *)
Theorem find_matching_url_versions_agree
    (py_int : string -> option Z) (d : QsScraper.url_cache) (csv_name : value)
    (rank : QsScraper.rank_cell) :
  (QsScraper.cached d csv_name = None -> rank = QsScraper.Cell VNone ->
   QsScraper.find_matching_url py_int d csv_name rank
   = QsScraper.Raises QsScraper.TypeError
   /\ QsScraper._find_matching_url py_int d csv_name rank = None)
  /\ (QsScraper.cached d csv_name = None ->
      (exists negative, rank = QsScraper.Infinity negative) ->
      QsScraper.find_matching_url py_int d csv_name rank
      = QsScraper.Raises QsScraper.OverflowError
      /\ QsScraper._find_matching_url py_int d csv_name rank = None)
  /\ (QsScraper.cached d csv_name <> None
      \/ (rank <> QsScraper.Cell VNone
          /\ forall negative, rank <> QsScraper.Infinity negative) ->
      QsScraper.find_matching_url py_int d csv_name rank
      = QsScraper.Return (QsScraper._find_matching_url py_int d csv_name rank)).
Proof.
  unfold QsScraper.find_matching_url, QsScraper._find_matching_url.
  split; [|split].
  - intros -> ->. done.
  - intros -> [negative ->]. done.
  - intros H. destruct (QsScraper.cached d csv_name) as [url|]; [done|].
    destruct H as [H|[H1 H2]]; [done|]. cbv zeta. rewrite !parsed_range_start.
    destruct rank as [[| |s|z]|q|negative]; try done; simpl.
    + by destruct (py_int _).
    + by destruct (H2 negative).
Qed.

Lemma find_matching_url_versions_agree_witness :
  QsScraper.find_matching_url small_int three_urls (VStr "Oxford") (QsScraper.Cell VNone)
  = QsScraper.Raises QsScraper.TypeError
  /\ QsScraper.find_matching_url small_int three_urls (VStr "Oxford")
       (QsScraper.Infinity false)
     = QsScraper.Raises QsScraper.OverflowError
  /\ QsScraper.find_matching_url small_int three_urls (VStr "Oxford")
       (QsScraper.Cell (VStr "3"))
     = QsScraper.Return (Some "https://example.org/oxford")
  /\ QsScraper.find_matching_url small_int three_urls (VStr "Oxford")
       (QsScraper.Float (5 # 2))
     = QsScraper.Return (Some "https://example.org/imperial").
Proof.
  split; [|split; [|split]].
  - apply (find_matching_url_versions_agree small_int three_urls (VStr "Oxford")
             (QsScraper.Cell VNone)); reflexivity.
  - apply (find_matching_url_versions_agree small_int three_urls (VStr "Oxford")
             (QsScraper.Infinity false)); [reflexivity|by exists false].
  - apply (find_matching_url_versions_agree small_int three_urls (VStr "Oxford")
             (QsScraper.Cell (VStr "3"))).
    right. by split.
  - apply (find_matching_url_versions_agree small_int three_urls (VStr "Oxford")
             (QsScraper.Float (5 # 2))).
    right. by split.
Defined.

(** X23: of a rank only the text before its first hyphen counts: the range
    [701-710] is looked up as [701], and a rank that starts with a hyphen
    is looked up as the empty text, so it finds nothing for a name that is
    not in the cache. *)
Theorem rank_range_reads_its_start
    (py_int : string -> option Z) (d : QsScraper.url_cache) (csv_name : value)
    (rank : QsScraper.rank_cell) :
  QsScraper._find_matching_url py_int d csv_name rank
  = QsScraper._find_matching_url py_int d csv_name (QsScraper.range_start rank)
  /\ QsScraper.find_matching_url py_int d csv_name rank
     = QsScraper.find_matching_url py_int d csv_name (QsScraper.range_start rank)
  /\ (py_int "" = None -> QsScraper.cached d csv_name = None ->
      forall s, QsScraper._find_matching_url py_int d csv_name
                  (QsScraper.Cell (VStr (String "-"%char s))) = None).
Proof.
  unfold QsScraper.find_matching_url, QsScraper._find_matching_url. cbv zeta.
  rewrite !parsed_range_start, range_start_idem. split; [done|]. split; [done|].
  intros Hint ->. intros s. rewrite parsed_range_start. simpl. by rewrite Hint.
Qed.

(** X24: what the lookup returns is a URL of the cache: the one stored
    under the name, or else the one at the position of the rank, counted
    from one. *)
Theorem found_url_is_cached
    (py_int : string -> option Z) (d : QsScraper.url_cache) (csv_name : value)
    (rank : QsScraper.rank_cell) (url : string) :
  QsScraper._find_matching_url py_int d csv_name rank = Some url ->
  (exists name, csv_name = VStr name /\ (name, url) ∈ d)
  \/ (QsScraper.cached d csv_name = None
      /\ exists z name,
           QsScraper.int py_int (QsScraper.range_start rank) = QsScraper.Return z
           /\ (1 <= z <= Z.of_nat (length d))%Z
           /\ d !! Z.to_nat (z - 1) = Some (name, url)).
Proof.
  unfold QsScraper._find_matching_url. cbv zeta. rewrite parsed_range_start.
  destruct (QsScraper.cached d csv_name) as [u|] eqn:Hc.
  - intros [= ->]. left. destruct csv_name as [| |name|z]; try done.
    exists name. split; [done|]. by apply cache_get_elem.
  - destruct (QsScraper.int py_int (QsScraper.range_start rank)) as [z|e]; [|done].
    intros H. right. split; [done|]. apply by_rank_Some in H as [Hz [name Hn]].
    by exists z, name.
Qed.

Lemma found_url_is_cached_witness :
  QsScraper._find_matching_url small_int three_urls (VStr "Imperial")
    (QsScraper.Cell (VStr "2-3"))
  = Some "https://example.org/imperial"
  /\ three_urls !! 1 = Some ("Imperial College London", "https://example.org/imperial").
Proof.
  assert (QsScraper._find_matching_url small_int three_urls (VStr "Imperial")
            (QsScraper.Cell (VStr "2-3"))
          = Some "https://example.org/imperial") as H by reflexivity.
  split; [exact H|].
  destruct (found_url_is_cached small_int three_urls _ _ _ H)
    as [_|_]; reflexivity.
Defined.

(** X25: for a positive number of chunks, [chunk_rows] returns that many
    chunks, which joined in order are the rows; chunk [i] has [chunk_size]
    rows or what is left after the chunks before it, and [chunk_size] is the
    least size with which the chunks hold all rows. *)
Theorem chunk_rows_partition {A : Type} (rows : list A) (n_chunks : Z) :
  (1 <= n_chunks < QsScraper.float_exact)%Z ->
  (Z.of_nat (length rows) < QsScraper.float_exact)%Z ->
  let chunk_size := Z.to_nat (QsScraper.ceil_div (Z.of_nat (length rows)) n_chunks) in
  (exists chunks,
     QsScraper.chunk_rows rows n_chunks = QsScraper.Return chunks
     /\ length chunks = Z.to_nat n_chunks
     /\ concat chunks = rows
     /\ forall i chunk, chunks !! i = Some chunk ->
          length chunk = Nat.min chunk_size (length rows - i * chunk_size))
  /\ (forall s, length rows <= Z.to_nat n_chunks * s -> chunk_size <= s).
Proof.
  intros [Hn _] _. cbv zeta. split; [by apply chunk_rows_cover|].
  intros s Hs.
  destruct (ceil_div_least (Z.of_nat (length rows)) n_chunks ltac:(lia) Hn)
    as (H0 & _ & Hleast).
  specialize (Hleast (Z.of_nat s) ltac:(nia)). lia.
Qed.

Lemma chunk_rows_partition_witness :
  QsScraper.chunk_rows [1; 2; 3; 4] 3 = QsScraper.Return [[1; 2]; [3; 4]; []].
Proof.
  destruct (chunk_rows_partition [1; 2; 3; 4] 3 ltac:(by vm_compute) ltac:(by vm_compute))
    as [(chunks & H & _) _].
  reflexivity.
Defined.

(** X26: the chunks [main] hands to its workers: between one and three,
    which joined in order are the rows of the table; no division by zero
    occurs, also for an empty table. With no chunk count the division
    raises, and a negative one gives no chunk at all. *)
Theorem main_chunks_cover_table {A : Type} (df : list A) :
  (Z.of_nat (length df) < QsScraper.float_exact)%Z ->
  (exists chunks,
     QsScraper.chunk_rows df (QsScraper.num_workers df) = QsScraper.Return chunks
     /\ 1 <= length chunks <= 3
     /\ length chunks <= Nat.max 1 (length df)
     /\ concat chunks = df)
  /\ QsScraper.chunk_rows df 0 = QsScraper.Raises QsScraper.ZeroDivisionError
  /\ forall n, (n < 0)%Z -> QsScraper.chunk_rows df n = QsScraper.Return [].
Proof.
  intros _. split; [|split].
  - assert (1 <= QsScraper.num_workers df <= 3)%Z as Hw.
    { unfold QsScraper.num_workers, QsScraper.NUM_WORKERS. lia. }
    destruct (chunk_rows_cover df (QsScraper.num_workers df) ltac:(lia))
      as (chunks & H & Hlen & Hcat & _).
    exists chunks. split; [done|]. split; [lia|]. split; [|done].
    rewrite Hlen. unfold QsScraper.num_workers, QsScraper.NUM_WORKERS. lia.
  - reflexivity.
  - intros n Hn. rewrite chunk_rows_Return by lia.
    by replace (Z.to_nat n) with 0 by lia.
Qed.

Lemma main_chunks_cover_table_witness :
  exists chunks,
    QsScraper.chunk_rows ([] : list nat) (QsScraper.num_workers ([] : list nat))
    = QsScraper.Return chunks
    /\ concat chunks = [].
Proof.
  destruct (main_chunks_cover_table ([] : list nat) ltac:(by vm_compute))
    as [(chunks & H & _ & _ & Hc) _].
  exists chunks. by split.
Defined.

(** ** The parser of the US News page *)

Section ParserFacts.
Import UsnewsLac.
Variable py_int : string -> option Z.

Lemma comma_eqb (c : ascii) : Ascii.eqb ","%char c = is_comma c.
Proof. all_chars c. Qed.

Lemma contains_comma (l : chars) :
  contains_chars l (to_chars ",") = existsb is_comma l.
Proof.
  change (to_chars ",") with [","%char].
  induction l as [|c r IH]; [done|].
  cbn [contains_chars existsb Py.startswith]. rewrite IH, comma_eqb.
  destruct (is_comma c); [by destruct r|done].
Qed.

Lemma split_comma_pieces (cur l : chars) :
  Forall (fun c => is_comma c = false) cur ->
  Forall (Forall (fun c => is_comma c = false)) (split_comma cur l).
Proof.
  revert cur. induction l as [|c r IH]; intros cur Hcur; simpl.
  - constructor; [|constructor]. by apply Forall_rev.
  - destruct (is_comma c) eqn:Hc.
    + constructor; [by apply Forall_rev|]. apply IH. constructor.
    + apply IH. by constructor.
Qed.

Lemma Forall_last {A : Type} (P : A -> Prop) (l : list A) (d : A) :
  Forall P l -> P d -> P (List.last l d).
Proof.
  induction 1 as [|x l Hx Hl IH]; intros Hd; [done|].
  destruct l as [|y l]; [done|]. by apply IH.
Qed.

(** The region has no comma and no white space around it. *)
Lemma region_of_clean (location : string) :
  py_contains (region_of location) "," = false
  /\ py_strip (region_of location) = region_of location.
Proof.
  unfold region_of. split.
  - unfold py_contains. rewrite contains_comma, to_of_chars.
    apply not_true_iff_false. intros H. apply existsb_exists in H as (c & Hin & Hc).
    assert (Forall (fun c => is_comma c = false)
                   (Py.strip (List.last (split_comma [] (to_chars location)) []))) as HF.
    { apply Forall_strip. apply Forall_last; [|constructor].
      apply split_comma_pieces. constructor. }
    rewrite Forall_forall in HF. apply list_elem_of_In in Hin.
    rewrite (HF c Hin) in Hc. discriminate.
  - unfold py_strip. by rewrite to_of_chars, strip_idem.
Qed.

(** The backward scan stops at the nearest line that looks like a location. *)
Lemma scan_back_found (lines : list string) (above : nat) (name : option string)
    (location : string) :
  scan_back lines above = (name, Some location) ->
  exists j,
    j < above
    /\ location = stripped lines j
    /\ is_location (stripped lines j) = true
    /\ (forall k, j < k < above -> is_location (stripped lines k) = false)
    /\ name = if (0 <? j)%nat then Some (stripped lines (j - 1)) else None.
Proof.
  induction above as [|j IH]; simpl; [done|].
  destruct (is_location (stripped lines j)) eqn:Hloc.
  - intros [= <- <-]. exists j. split; [lia|]. split; [done|]. split; [done|].
    split; [|done]. intros k Hk. lia.
  - intros H. destruct (IH H) as (j' & Hlt & Hl & Hj' & Hnear & Hn).
    exists j'. split; [lia|]. split; [done|]. split; [done|]. split; [|done].
    intros k Hk. destruct (decide (k = j)) as [->|Hne]; [done|]. apply Hnear. lia.
Qed.

Lemma is_rank_line_bound (lines : list string) (i : nat) :
  is_rank_line lines i = true -> i + 1 < length lines.
Proof.
  unfold is_rank_line. destruct (Nat.ltb_spec (i + 1) (length lines)); [done|done].
Qed.

(** What a turn of the loop does *)
Lemma turn_cases (lines : list string) (i : nat) (records : list lac_record) :
  (turn py_int lines i records = Raises IndexError /\ bare_rank_line lines i)
  \/ (exists i', turn py_int lines i records = Return (i', records)
                 /\ i < i' <= i + 4)
  \/ (exists r, turn py_int lines i records = Return (i + 4, records ++ [r])
                /\ record_at py_int lines i r
                /\ Name r <> "").
Proof.
  unfold turn. destruct (is_rank_line lines i) eqn:Hrank.
  2:{ right. left. exists (i + 1). split; [done|lia]. }
  destruct (rank_words (stripped lines i)) as [|rank_text rest] eqn:Hwords.
  { left. by repeat split. }
  destruct (py_int rank_text) as [rank|] eqn:Hint.
  2:{ right. left. exists (i + 1). split; [done|lia]. }
  cbv zeta. replace (i + 2 + 1 - 3) with i by lia.
  replace (i + 2 + 1 + 1) with (i + 4) by lia.
  destruct (scan_back lines i) as [name location] eqn:Hscan.
  destruct (both_set name location) as [[n l]|] eqn:Hboth.
  2:{ right. left. exists (i + 4). split; [done|lia]. }
  right. right. eexists. split; [reflexivity|].
  unfold both_set in Hboth.
  destruct name as [n'|]; [|done]. destruct location as [l'|]; [|done].
  destruct (String.eqb_spec n' ""); [done|].
  destruct (String.eqb_spec l' ""); [done|]. simpl in Hboth. injection Hboth as -> ->.
  apply scan_back_found in Hscan as (j & Hlt & -> & Hloc & Hnear & Hname).
  destruct (Nat.ltb_spec 0 j); [|done]. injection Hname as ->.
  split; [|done]. split; [done|]. split; [by exists rank_text, rest|].
  exists j. split; [lia|]. by repeat split.
Qed.

Lemma loop_eq (turns : nat) (lines : list string) (i : nat) (records : list lac_record) :
  i < length lines ->
  loop py_int (S turns) lines i records
  = match turn py_int lines i records with
    | Raises e => Some (Raises e)
    | Return (i, records) => loop py_int turns lines i records
    end.
Proof.
  intros H. simpl. by destruct (Nat.ltb_spec i (length lines)); [|lia].
Qed.

Lemma loop_end (turns : nat) (lines : list string) (i : nat) (records : list lac_record) :
  length lines <= i -> loop py_int turns lines i records = Some (Return records).
Proof.
  intros H. destruct turns; simpl;
    by destruct (Nat.ltb_spec i (length lines)); [lia|].
Qed.

(** One turn per line left is enough for the loop to end. *)
Lemma loop_ends (turns : nat) (lines : list string) (i : nat)
    (records : list lac_record) :
  length lines <= turns + i ->
  exists o, loop py_int turns lines i records = Some o.
Proof.
  revert i records. induction turns as [|turns IH]; intros i records Hfuel.
  { rewrite loop_end by lia. by eexists. }
  destruct (decide (i < length lines)) as [Hlt|Hge].
  2:{ rewrite loop_end by lia. by eexists. }
  rewrite loop_eq by done.
  destruct (turn_cases lines i records)
    as [[-> _]|[(i' & -> & Hi')|(r & -> & _)]].
  - by eexists.
  - apply IH. lia.
  - apply IH. lia.
Qed.

(** The loop raises only at a rank line with nothing after the hash. *)
Lemma loop_raises (turns : nat) (lines : list string) (i : nat)
    (records : list lac_record) (e : error) :
  loop py_int turns lines i records = Some (Raises e) ->
  exists i', i <= i' /\ bare_rank_line lines i'.
Proof.
  revert i records. induction turns as [|turns IH]; intros i records.
  { simpl. by destruct (negb _). }
  destruct (decide (i < length lines)) as [Hlt|Hge].
  2:{ by rewrite loop_end by lia. }
  rewrite loop_eq by done.
  destruct (turn_cases lines i records)
    as [[-> Hbare]|[(i' & -> & Hi')|(r & -> & _)]].
  - intros _. by exists i.
  - intros H. destruct (IH _ _ H) as (k & Hk & Hb). exists k. split; [lia|done].
  - intros H. destruct (IH _ _ H) as (k & Hk & Hb). exists k. split; [lia|done].
Qed.

(** The records the loop adds, with the rank lines they were read at *)
Lemma loop_records (turns : nat) (lines : list string) (i : nat)
    (records out : list lac_record) :
  loop py_int turns lines i records = Some (Return out) ->
  exists new positions,
    out = records ++ new
    /\ Forall2 (record_at py_int lines) positions new
    /\ Forall (fun r => Name r <> "") new
    /\ Forall (fun p => i <= p) positions
    /\ StronglySorted (fun p q => p + 4 <= q) positions
    /\ 4 * length new <= (length lines + 2) - Nat.max i 2.
Proof.
  revert i records. induction turns as [|turns IH]; intros i records.
  { simpl. destruct (negb _); [|done]. intros [= <-]. exists [], [].
    rewrite app_nil_r. repeat split; try constructor. simpl. lia. }
  destruct (decide (i < length lines)) as [Hlt|Hge].
  2:{ rewrite loop_end by lia. intros [= <-]. exists [], [].
      rewrite app_nil_r. repeat split; try constructor. simpl. lia. }
  rewrite loop_eq by done.
  destruct (turn_cases lines i records)
    as [[-> _]|[(i' & -> & Hi')|(r & -> & Hrec & Hname)]]; [done| |].
  - intros H. destruct (IH _ _ H) as (new & ps & -> & Hall & Hn & Hps & Hs & Hc).
    exists new, ps. split; [done|]. split; [done|]. split; [done|].
    split; [|split; [done|lia]].
    eapply Forall_impl; [exact Hps|]. intros p Hp. simpl in Hp. lia.
  - intros H. destruct (IH _ _ H) as (new & ps & -> & Hall & Hn & Hps & Hs & Hc).
    exists (r :: new), (i :: ps). split; [by rewrite <- app_assoc|].
    split; [by constructor|]. split; [by constructor|].
    split; [constructor; [lia|]|].
    { eapply Forall_impl; [exact Hps|]. intros p Hp. simpl in Hp. lia. }
    split.
    + constructor; [done|]. eapply Forall_impl; [exact Hps|]. intros p Hp.
      simpl in Hp. lia.
    + destruct Hrec as (Hrank & _ & j & Hj & _).
      apply is_rank_line_bound in Hrank. simpl. lia.
Qed.

End ParserFacts.

(** X27: the parser always ends, with the list of records or with the
    [IndexError] of [split()[0]]; it raises only if some rank line has
    nothing but hashes and white space, and returns when there is no such
    line. *)
Theorem parse_usnews_lac_txt_ends
    (py_int : string -> option Z) (lines : list string) :
  (exists o, UsnewsLac.parse_usnews_lac_txt py_int lines = Some o)
  /\ (UsnewsLac.parse_usnews_lac_txt py_int lines
      = Some (UsnewsLac.Raises UsnewsLac.IndexError) ->
      exists i, bare_rank_line lines i)
  /\ ((forall i, ~ bare_rank_line lines i) ->
      exists records,
        UsnewsLac.parse_usnews_lac_txt py_int lines = Some (UsnewsLac.Return records)).
Proof.
  unfold UsnewsLac.parse_usnews_lac_txt.
  assert (exists o, UsnewsLac.loop py_int (length lines) lines 0 [] = Some o) as Hends.
  { apply loop_ends. lia. }
  split; [exact Hends|]. split.
  - intros H. apply loop_raises in H as (i & _ & Hi). by exists i.
  - intros Hnone. destruct Hends as ([records|e] & Ho); [by exists records|].
    apply loop_raises in Ho as (i & _ & Hi). by destruct (Hnone i).
Qed.

Lemma parse_usnews_lac_txt_ends_witness :
  UsnewsLac.parse_usnews_lac_txt small_int cut_page
  = Some (UsnewsLac.Raises UsnewsLac.IndexError)
  /\ exists i, bare_rank_line cut_page i.
Proof.
  assert (UsnewsLac.parse_usnews_lac_txt small_int cut_page
          = Some (UsnewsLac.Raises UsnewsLac.IndexError)) as H by reflexivity.
  split; [exact H|].
  exact (proj1 (proj2 (parse_usnews_lac_txt_ends small_int cut_page)) H).
Defined.

(** X28: every record the parser returns was read at a rank line of the
    page: its rank is the number after the hash, its region the text after
    the last comma of the nearest location line above, its name the line
    above that one. The name is not empty, the region has no comma and no
    white space around it, and the records come in the order of their rank
    lines, which are at least four lines apart. *)
Theorem usnews_records_wellformed
    (py_int : string -> option Z) (lines : list string)
    (records : list UsnewsLac.lac_record) :
  UsnewsLac.parse_usnews_lac_txt py_int lines = Some (UsnewsLac.Return records) ->
  (exists positions,
     Forall2 (record_at py_int lines) positions records
     /\ StronglySorted (fun p q => p + 4 <= q) positions)
  /\ Forall (fun r =>
               UsnewsLac.Name r <> ""
               /\ py_contains (UsnewsLac.Region r) "," = false
               /\ py_strip (UsnewsLac.Region r) = UsnewsLac.Region r)
            records.
Proof.
  intros H. apply loop_records in H as (new & ps & -> & Hall & Hn & _ & Hs & _).
  simpl. split; [by exists ps|].
  apply Forall_forall. intros r Hr. split.
  - rewrite Forall_forall in Hn. by apply Hn.
  - apply list_elem_of_lookup in Hr as [k Hk].
    destruct (Forall2_lookup_r _ _ _ _ _ Hall Hk) as (p & _ & Hp).
    destruct Hp as (_ & _ & j & _ & _ & _ & _ & ->). apply region_of_clean.
Qed.

Lemma usnews_records_wellformed_witness :
  UsnewsLac.parse_usnews_lac_txt small_int williams_page
  = Some (UsnewsLac.Return [UsnewsLac.LacRecord 1 "Williams College" "MA"])
  /\ exists positions,
       Forall2 (record_at small_int williams_page) positions
               [UsnewsLac.LacRecord 1 "Williams College" "MA"].
Proof.
  assert (UsnewsLac.parse_usnews_lac_txt small_int williams_page
          = Some (UsnewsLac.Return [UsnewsLac.LacRecord 1 "Williams College" "MA"]))
    as H by reflexivity.
  split; [exact H|].
  destruct (usnews_records_wellformed small_int williams_page _ H)
    as [(ps & Hps & _) _].
  by exists ps.
Defined.

(** X29: a record takes four lines of the page: there are at most a quarter
    as many records as lines. *)
Theorem usnews_records_count
    (py_int : string -> option Z) (lines : list string)
    (records : list UsnewsLac.lac_record) :
  UsnewsLac.parse_usnews_lac_txt py_int lines = Some (UsnewsLac.Return records) ->
  4 * length records <= length lines.
Proof.
  intros H. apply loop_records in H as (new & ps & -> & _ & _ & _ & _ & Hc).
  simpl in Hc |- *. lia.
Qed.

Lemma usnews_records_count_witness :
  4 * length [UsnewsLac.LacRecord 1 "Williams College" "MA"] <= length williams_page.
Proof.
  apply (usnews_records_count small_int williams_page). reflexivity.
Defined.
